(** * TRD Live Learning: file ingestion, output registry and response handling

    A shallow embedding of the training generator's core services: the file
    processor ([services/file-processor.ts]), the output registry (the
    module that the other services import as [./output-registry]) and the
    model calls ([services/gemini.ts]), together with the properties stated
    about them.  The further properties also cover the handlers of the main
    component ([App]), two handlers of the preview
    ([components/LivePreview.tsx]) and, of the achievement engine
    ([services/achievement-engine.ts]), the evaluation of a condition and
    the check of the achievements.

    Conventions of the embedding.
    - A JavaScript string is the list of its UTF-16 code units ([list N]).
    - A promise that settles is a [Completion]: it either returns a value or
      throws an error.  A remote call is represented by its outcome.
    - [String.prototype.toLowerCase] is the host's Unicode case mapping; the
      functions that call it take it as a parameter.
    - An object used as a dictionary is a finite map ([gmap]) from property
      names to values.
    - A number is a binary64 number; a finite one is given as the rational
      that it is.  The arithmetic of the video extraction rounds each of its
      results with [binary64].  A number read by [parseFloat] is kept as the
      decimal literal that was read, and [numberValue] gives the binary64
      number that it is stored as.  The duration of a video is finite: [NaN]
      and the infinite durations are not modelled.  The achievement engine
      divides: its numbers are rationals, the infinities and [NaN], and its
      arithmetic is not rounded.
    - A handler of a component is a function from the state of the
      component to its state after the handler has run to its end. *)

From Stdlib Require Import ZArith NArith QArith Qround Qabs Qpower Lqa List String
  Ascii Lia.
From Stdlib Require Import DecimalNat.
From stdpp Require Import base list gmap.

#[local] Set Warnings "-clear-no-such-hyp".

(** ** JavaScript strings *)

Module Js.

Definition js (s : string) : list N :=
  List.map N_of_ascii (list_ascii_of_string s).
Arguments js s%_string.

Definition codeUnitEqb (a b : N) : bool := N.eqb a b.

Fixpoint strEqb (a b : list N) : bool :=
  match a, b with
  | [], [] => true
  | x :: a', y :: b' => codeUnitEqb x y && strEqb a' b'
  | _, _ => false
  end.

(** [WhiteSpace] and [LineTerminator] of ECMAScript: the characters
    matched by the regular expression class [\s] and removed by
    [String.prototype.trim]. *)
Definition isWhiteSpace (c : N) : bool :=
  ((9 <=? c) && (c <=? 13) || (c =? 32) || (c =? 160) || (c =? 5760)
   || (8192 <=? c) && (c <=? 8202) || (c =? 8232) || (c =? 8233)
   || (c =? 8239) || (c =? 8287) || (c =? 12288) || (c =? 65279))%N.

Definition allWhiteSpace (s : list N) : bool := forallb isWhiteSpace s.

Fixpoint trimStart (s : list N) : list N :=
  match s with
  | [] => []
  | c :: s' => if isWhiteSpace c then trimStart s' else s
  end.

Fixpoint trimEnd (s : list N) : list N :=
  match s with
  | [] => []
  | c :: s' => if allWhiteSpace s then [] else c :: trimEnd s'
  end.

Definition trim (s : list N) : list N := trimEnd (trimStart s).

(** [matchPrefix eqc pat s] is the rest of [s] after the prefix that
    matches [pat] character by character, if there is one. *)
Fixpoint matchPrefix (eqc : N -> N -> bool) (pat s : list N)
  : option (list N) :=
  match pat with
  | [] => Some s
  | p :: pat' =>
      match s with
      | c :: s' => if eqc p c then matchPrefix eqc pat' s' else None
      | [] => None
      end
  end.

Definition startsWith (s pat : list N) : bool :=
  match matchPrefix codeUnitEqb pat s with Some _ => true | None => false end.

Definition endsWith (s pat : list N) : bool :=
  startsWith (rev s) (rev pat).

Fixpoint includes (s pat : list N) : bool :=
  startsWith s pat
  || match s with
     | [] => false
     | _ :: s' => includes s' pat
     end.

(** [Array.prototype.includes] on an array of strings. *)
Definition arrayIncludes (l : list (list N)) (x : list N) : bool :=
  existsb (strEqb x) l.

(** [Array.prototype.join]. *)
Fixpoint join (sep : list N) (l : list (list N)) : list N :=
  match l with
  | [] => []
  | [x] => x
  | x :: l' => x ++ sep ++ join sep l'
  end.

(** [s.split(sep)] for a separator of one code unit: the pieces between
    the occurrences of [sep].  The result always has at least one piece. *)
Fixpoint split (sep : N) (s : list N) : list (list N) :=
  match s with
  | [] => [[]]
  | c :: s' =>
      if codeUnitEqb c sep then [] :: split sep s'
      else match split sep s' with
           | piece :: pieces => (c :: piece) :: pieces
           | [] => [[c]]
           end
  end.

(** The simple case folding of a code unit below 128.  With the flag [i]
    (and without [u]) a regular expression compares canonicalised
    characters, and a character from 128 on is never canonicalised to one
    below 128: against an ASCII pattern character, comparing the ASCII
    upper cases is the whole test. *)
Definition asciiUpper (c : N) : N :=
  if ((97 <=? c) && (c <=? 122))%N then (c - 32)%N else c.

Definition asciiLower (c : N) : N :=
  if ((65 <=? c) && (c <=? 90))%N then (c + 32)%N else c.

Definition ciEqb (p c : N) : bool := N.eqb (asciiUpper p) (asciiUpper c).

(** Decimal rendering of a natural number, as [String(n)] gives it for a
    non-negative integer below 2^53. *)
Fixpoint uintToString (u : Decimal.uint) : list N :=
  match u with
  | Decimal.Nil => []
  | Decimal.D0 u' => 48%N :: uintToString u'
  | Decimal.D1 u' => 49%N :: uintToString u'
  | Decimal.D2 u' => 50%N :: uintToString u'
  | Decimal.D3 u' => 51%N :: uintToString u'
  | Decimal.D4 u' => 52%N :: uintToString u'
  | Decimal.D5 u' => 53%N :: uintToString u'
  | Decimal.D6 u' => 54%N :: uintToString u'
  | Decimal.D7 u' => 55%N :: uintToString u'
  | Decimal.D8 u' => 56%N :: uintToString u'
  | Decimal.D9 u' => 57%N :: uintToString u'
  end.

Definition natToString (n : nat) : list N :=
  match Nat.to_uint n with
  | Decimal.Nil => [48%N]
  | u => uintToString u
  end.

(** A settled promise (or a call that may throw). *)
Inductive JsError : Type := Error (message : list N).

Inductive Completion (A : Type) : Type :=
| Return (a : A)
| Throw (e : JsError).
Arguments Return {A} a.
Arguments Throw {A} e.

Definition bind {A B} (c : Completion A) (k : A -> Completion B)
  : Completion B :=
  match c with
  | Return a => k a
  | Throw e => Throw e
  end.

(** [try { body } catch (error) { handler(error) }] *)
Definition tryCatch {A} (body : Completion A) (handler : JsError -> Completion A)
  : Completion A :=
  match body with
  | Return a => Return a
  | Throw e => handler e
  end.

(** [value || fallback] where [value] is an optional string: [undefined]
    and the empty string are falsy. *)
Definition orElse (value : option (list N)) (fallback : list N) : list N :=
  match value with
  | Some (c :: s) => c :: s
  | _ => fallback
  end.

End Js.
Export Js.

(** ** Binary64 numbers *)

(** A number of the program is a binary64 number; a finite one is given as
    the rational that it is.  The result of an arithmetic operation is the
    exact result rounded by [binary64].  The operations of the video
    extraction divide a duration or multiply the quotient by a count that
    is at most the divisor, so that no result exceeds the duration in
    magnitude and none overflows; where a literal is read, [numberValue]
    writes the overflow to an infinity out. *)

(** The exponent of the binade of a number that is not zero: the greatest
    [e] with [2^e <= |q|]. *)
Definition binade (q : Q) : Z :=
  let c := (Z.log2 (Z.abs (Qnum q)) - Z.log2 (Zpos (Qden q)))%Z in
  if Qle_bool (2 ^ c) (Qabs q) then c else (c - 1)%Z.

(** The exponent of the unit in the last place in binary64: 52 below the
    binade, and -1074 for the subnormal numbers. *)
Definition ulpExponent (q : Q) : Z := (Z.max (binade q) (-1022) - 52)%Z.

(** The nearest integer, a tie going to the even one. *)
Definition roundHalfEven (m : Q) : Z :=
  let f := Qfloor m in
  match Qcompare (m - inject_Z f) (1 # 2) with
  | Lt => f
  | Gt => (f + 1)%Z
  | Eq => if Z.even f then f else (f + 1)%Z
  end.

(** The binary64 number nearest to [q], a tie going to the even
    significand: the nearest multiple of the unit in the last place. *)
Definition binary64 (q : Q) : Q :=
  Qred (inject_Z (roundHalfEven (q / 2 ^ ulpExponent q)) * 2 ^ ulpExponent q).


(** ** Type definitions ([types.ts]) *)

Inductive SupportedFileType : Type :=
| Image | Pdf | Csv | Excel | Text | Markdown | Video.

#[global] Instance SupportedFileType_eq_dec : EqDecision SupportedFileType.
Proof. solve_decision. Defined.

Inductive OutputType : Type :=
| FieldSimulator | DamageDetective | CommissionTycoon | ObjectionArena
| InspectionWalkthrough | FlashcardDrill | InteractiveTimeline
| ScenarioBuilder | PitchPerfector | Auto.

#[global] Instance OutputType_eq_dec : EqDecision OutputType.
Proof. solve_decision. Defined.

(** The string literal that each member of the union [OutputType] is. *)
Definition outputTypeId (o : OutputType) : list N :=
  match o with
  | FieldSimulator => js "field-simulator"
  | DamageDetective => js "damage-detective"
  | CommissionTycoon => js "commission-tycoon"
  | ObjectionArena => js "objection-arena"
  | InspectionWalkthrough => js "inspection-walkthrough"
  | FlashcardDrill => js "flashcard-drill"
  | InteractiveTimeline => js "interactive-timeline"
  | ScenarioBuilder => js "scenario-builder"
  | PitchPerfector => js "pitch-perfector"
  | Auto => js "auto"
  end.

(** The browser's [File]: its name, declared media type, byte size and the
    text that [file.text()] resolves to. *)
Record File : Type := {
  file_name : list N;
  file_type : list N;
  file_size : N;
  file_text : list N
}.

(** A number read from text is given by the decimal literal that was
    read, which denotes [(-1)^negative * digits * 10^exponent]; the number
    that the program holds is the binary64 number nearest to it, given by
    [numberValue] below. *)
Inductive JsNumber : Type :=
| NumInfinity (negative : bool)
| NumDecimal (negative : bool) (digits : N) (exponent : Z).

Inductive Cell : Type :=
| CellString (s : list N)
| CellNumber (n : JsNumber).

Record PageContent : Type := {
  pageNumber : nat;
  page_text : list N;
  page_imageBase64 : option (list N)
}.

(** [DataRow]: an object from column header to cell. *)
Abbreviation DataRow := (gmap (list N) Cell).

(** Timestamps and durations are in seconds; they are binary64 numbers. *)
Record VideoFrame : Type := {
  timestamp : Q;
  frame_imageBase64 : list N
}.

Record ExtractedContent : Type := {
  text : option (list N);
  pages : option (list PageContent);
  data : option (list DataRow);
  frames : option (list VideoFrame);
  rawBase64 : option (list N)
}.

Record FileMetadata : Type := {
  fileName : list N;
  fileSize : N;
  pageCount : option nat;
  duration : option Q;
  rowCount : option nat;
  columnCount : option nat
}.

Record ParsedFile : Type := {
  originalFile : File;
  parsed_type : SupportedFileType;
  mimeType : list N;
  extractedContent : ExtractedContent;
  metadata : FileMetadata
}.

Record OutputConfig : Type := {
  id : OutputType;
  config_name : list N;
  description : list N;
  icon : list N;
  applicableInputs : list SupportedFileType;
  promptFragment : list N
}.

(** ** Output registry ([./output-registry]) *)

Section OutputRegistry.

(** The prompt fragments are long opaque instruction texts; the registry is
    stated over whatever they are. *)
Variable promptFragmentOf : OutputType -> list N.

(** [OUTPUT_REGISTRY], an object literal whose keys are not array indices:
    its properties are enumerated in declaration order. *)
Definition OUTPUT_REGISTRY : list (OutputType * OutputConfig) :=
  [ (FieldSimulator,
     {| id := FieldSimulator;
        config_name := js "Field Simulator";
        description := js "Voice-enabled door-to-door roleplay training with real-time feedback";
        icon := js "microphone";
        applicableInputs := [Text; Markdown; Pdf];
        promptFragment := promptFragmentOf FieldSimulator |});
    (DamageDetective,
     {| id := DamageDetective;
        config_name := js "Damage Detective";
        description := js "Interactive damage identification with clickable hotspots";
        icon := js "magnifying-glass";
        applicableInputs := [Image; Pdf];
        promptFragment := promptFragmentOf DamageDetective |});
    (CommissionTycoon,
     {| id := CommissionTycoon;
        config_name := js "Commission Tycoon";
        description := js "Quiz-based commission calculation and knowledge game";
        icon := js "currency-dollar";
        applicableInputs := [Text; Markdown; Csv; Excel; Pdf];
        promptFragment := promptFragmentOf CommissionTycoon |});
    (ObjectionArena,
     {| id := ObjectionArena;
        config_name := js "Objection Battle Arena";
        description := js "Practice handling customer objections with scoring and timer";
        icon := js "shield";
        applicableInputs := [Text; Markdown; Pdf];
        promptFragment := promptFragmentOf ObjectionArena |});
    (InspectionWalkthrough,
     {| id := InspectionWalkthrough;
        config_name := js "Inspection Walkthrough";
        description := js "Step-by-step guided inspection checklist simulator";
        icon := js "clipboard-check";
        applicableInputs := [Image; Pdf; Text; Markdown];
        promptFragment := promptFragmentOf InspectionWalkthrough |});
    (FlashcardDrill,
     {| id := FlashcardDrill;
        config_name := js "Flashcard Drill";
        description := js "Q&A flashcards with spaced repetition for memorization";
        icon := js "academic-cap";
        applicableInputs := [Text; Markdown; Csv; Excel; Pdf];
        promptFragment := promptFragmentOf FlashcardDrill |});
    (InteractiveTimeline,
     {| id := InteractiveTimeline;
        config_name := js "Interactive Timeline";
        description := js "Clickable process and sequence explorer";
        icon := js "arrow-path";
        applicableInputs := [Text; Markdown; Pdf; Csv];
        promptFragment := promptFragmentOf InteractiveTimeline |});
    (ScenarioBuilder,
     {| id := ScenarioBuilder;
        config_name := js "Scenario Builder";
        description := js "Create branching " ++ [34%N] ++ js "choose your path"
                       ++ [34%N] ++ js " scenarios with multiple outcomes";
        icon := js "puzzle-piece";
        applicableInputs := [Text; Markdown; Pdf; Csv];
        promptFragment := promptFragmentOf ScenarioBuilder |});
    (PitchPerfector,
     {| id := PitchPerfector;
        config_name := js "Pitch Perfector";
        description := js "Practice and score your sales pitch with real-time feedback";
        icon := js "presentation-chart";
        applicableInputs := [Text; Markdown; Pdf];
        promptFragment := promptFragmentOf PitchPerfector |});
    (Auto,
     {| id := Auto;
        config_name := js "Auto-Select (AI Recommended)";
        description := js "Let AI analyze your content and choose the best training type";
        icon := js "sparkles";
        applicableInputs := [Image; Pdf; Csv; Excel; Text; Markdown; Video];
        promptFragment := [] |}) ].

(** [Object.values]. *)
Definition objectValues {K V} (o : list (K * V)) : list V := List.map snd o.

(** [Array.prototype.includes] on an array of file types. *)
Definition includesFileType (l : list SupportedFileType) (t : SupportedFileType)
  : bool :=
  existsb (fun x => bool_decide (x = t)) l.

Definition getApplicableOutputs (fileType : SupportedFileType) : list OutputConfig :=
  List.filter
    (fun config =>
       negb (bool_decide (id config = Auto))
       && includesFileType (applicableInputs config) fileType)
    (objectValues OUTPUT_REGISTRY).

Definition getAllOutputTypes : list OutputConfig := objectValues OUTPUT_REGISTRY.

End OutputRegistry.

(** ** Model calls and response handling ([services/gemini.ts]) *)

(** [GenerateContentResponse]: only its optional [text] is read. *)
Record GenerateContentResponse : Type := {
  response_text : option (list N)
}.

(** The code fence. *)
Definition fence : list N := js "```".

(** [text.replace(/^```html\s*/i, '')]: the pattern is anchored at the start
    of the string, and the greedy [\s*] takes every white space character
    that follows the tag. *)
Definition replaceLeadingHtmlFence (text : list N) : list N :=
  match matchPrefix ciEqb (js "```html") text with
  | Some rest => trimStart rest
  | None => text
  end.

(** [text.replace(/^```\s*/i, '')] *)
Definition replaceLeadingFence (text : list N) : list N :=
  match matchPrefix ciEqb fence text with
  | Some rest => trimStart rest
  | None => text
  end.

(** [text.replace(/```\s*$/i, '')]: without the flag [g] the leftmost match
    is replaced.  A match at a position is a fence followed by white space
    only up to the end of the string, so the replacement cuts the string at
    the first such position. *)
Fixpoint replaceTrailingFence (text : list N) : list N :=
  let next :=
    match text with
    | [] => []
    | c :: rest => c :: replaceTrailingFence rest
    end in
  match matchPrefix ciEqb fence text with
  | Some rest => if allWhiteSpace rest then [] else next
  | None => next
  end.

Definition cleanResponse (text : list N) : list N :=
  trim (replaceTrailingFence (replaceLeadingFence (replaceLeadingHtmlFence text))).

Definition failedPlaceholder : list N := js "<!-- Failed to generate content -->".

Definition getDefaultOutputType (fileType : SupportedFileType) : OutputType :=
  match fileType with
  | Image => DamageDetective
  | Video => InspectionWalkthrough
  | Csv | Excel => CommissionTycoon
  | Pdf | Text | Markdown => FlashcardDrill
  end.

Definition validTypes : list (list N) :=
  [ js "field-simulator"; js "damage-detective"; js "commission-tycoon";
    js "objection-arena"; js "inspection-walkthrough"; js "flashcard-drill";
    js "interactive-timeline"; js "scenario-builder"; js "pitch-perfector" ].

(** The global replacement of the class of the two quote characters (the
    apostrophe, 39, and the double quote, 34) by the empty string. *)
Definition removeQuotes (s : list N) : list N :=
  List.filter (fun c => negb ((c =? 39) || (c =? 34))%N) s.

Section Gemini.

Variable toLowerCase : list N -> list N.

(** The remote call [ai.models.generateContent(request)] is represented by
    its outcome.  The request (prompt, content parts, temperature) is built
    from the arguments before the call and takes no part in what follows
    it. *)
Variable generateContent : Completion GenerateContentResponse.

Definition generateTraining (parsedFile : ParsedFile) (outputType : OutputType)
    (additionalInstructions : option (list N)) : Completion (list N) :=
  tryCatch
    (bind generateContent (fun response =>
       let text := orElse (response_text response) failedPlaceholder in
       Return (cleanResponse text)))
    (fun error => Throw error).

(** The result is the identifier itself, a string: [result as OutputType]
    is a cast. *)
Definition autoSelectOutputType (parsedFile : ParsedFile) : Completion (list N) :=
  tryCatch
    (bind generateContent (fun response =>
       let result :=
         removeQuotes (toLowerCase (trim (orElse (response_text response) []))) in
       if arrayIncludes validTypes result then Return result
       else Return (outputTypeId (getDefaultOutputType (parsed_type parsedFile)))))
    (fun error =>
       Return (outputTypeId (getDefaultOutputType (parsed_type parsedFile)))).

Definition refineApp (currentHtml instruction : list N)
    (refineImageBase64 refineImageMimeType : option (list N))
  : Completion (list N) :=
  tryCatch
    (bind generateContent (fun response =>
       let text := orElse (response_text response) currentHtml in
       Return (cleanResponse text)))
    (fun error => Throw error).

End Gemini.

(** ** File processing ([services/file-processor.ts]) *)

(** [/\.(e1|e2|...)$/.test(name)]: the name ends with a dot followed by one
    of the alternatives. *)
Definition testExtension (alternatives : list (list N)) (name : list N) : bool :=
  existsb (fun e => endsWith name (46%N :: e)) alternatives.

Definition videoExtensions : list (list N) :=
  [js "mp4"; js "mov"; js "webm"; js "avi"; js "mkv"].

Definition imageExtensions : list (list N) :=
  [js "jpg"; js "jpeg"; js "png"; js "gif"; js "webp"; js "svg"; js "bmp"].

Section DetectFileType.

Variable toLowerCase : list N -> list N.

Definition detectFileType (file : File) : Completion SupportedFileType :=
  let mime := toLowerCase (file_type file) in
  let name := toLowerCase (file_name file) in
  (* Check MIME types first *)
  if startsWith mime (js "image/") then Return Image
  else if strEqb mime (js "application/pdf") then Return Pdf
  else if strEqb mime (js "text/csv") then Return Csv
  else if includes mime (js "spreadsheet") || includes mime (js "excel")
       then Return Excel
  else if startsWith mime (js "video/") then Return Video
  else if strEqb mime (js "text/markdown") then Return Markdown
  else if startsWith mime (js "text/") then Return Text
  (* Fallback to extension *)
  else if endsWith name (js ".csv") then Return Csv
  else if endsWith name (js ".xlsx") || endsWith name (js ".xls") then Return Excel
  else if endsWith name (js ".md") || endsWith name (js ".markdown")
       then Return Markdown
  else if endsWith name (js ".txt") then Return Text
  else if endsWith name (js ".pdf") then Return Pdf
  else if testExtension videoExtensions name then Return Video
  else if testExtension imageExtensions name then Return Image
  else Throw (Error (js "Unsupported file type: " ++ orElse (Some mime) name)).

End DetectFileType.

(** *** CSV *)

(** [parseCsvLine].  The source iterates over the code points of the line;
    a surrogate pair is neither a quote nor a comma and is appended whole,
    so iterating over the code units gives the same fields. *)
Fixpoint parseCsvLineFrom (line : list N) (result : list (list N))
    (current : list N) (inQuotes : bool) : list (list N) :=
  match line with
  | [] => result ++ [trim current]
  | char :: rest =>
      if (char =? 34)%N then parseCsvLineFrom rest result current (negb inQuotes)
      else if (char =? 44)%N && negb inQuotes
           then parseCsvLineFrom rest (result ++ [trim current]) [] inQuotes
      else parseCsvLineFrom rest result (current ++ [char]) inQuotes
  end.

Definition parseCsvLine (line : list N) : list (list N) :=
  parseCsvLineFrom line [] [] false.

(** *** [parseFloat] *)

Definition isDigit (c : N) : bool := ((48 <=? c) && (c <=? 57))%N.

(** The longest run of decimal digits at the start, and what follows it. *)
Fixpoint takeDigits (s : list N) : list N * list N :=
  match s with
  | c :: s' =>
      if isDigit c then let '(ds, rest) := takeDigits s' in (c :: ds, rest)
      else ([], s)
  | [] => ([], [])
  end.

Definition digitsValue (ds : list N) : N :=
  fold_left (fun acc d => (10 * acc + (d - 48))%N) ds 0%N.

(** [ExponentPart], optional: an [e] or [E], an optional sign and at least
    one digit; when the digits are missing nothing is taken. *)
Definition readExponent (s : list N) : Z * list N :=
  match s with
  | e :: s1 =>
      if ((e =? 101) || (e =? 69))%N then
        let '(negative, s2) :=
          match s1 with
          | c :: s2 =>
              if (c =? 43)%N then (false, s2)
              else if (c =? 45)%N then (true, s2)
              else (false, s1)
          | [] => (false, s1)
          end in
        let '(ds, rest) := takeDigits s2 in
        match ds with
        | [] => (0%Z, s)
        | _ :: _ =>
            let v := Z.of_N (digitsValue ds) in
            ((if negative : bool then (- v)%Z else v), rest)
        end
      else (0%Z, s)
  | [] => (0%Z, s)
  end.

(** The longest prefix that is a [StrUnsignedDecimalLiteral], read as a
    number, and the text after it. *)
Definition readUnsignedLiteral (negative : bool) (s : list N)
  : option (JsNumber * list N) :=
  match matchPrefix codeUnitEqb (js "Infinity") s with
  | Some rest => Some (NumInfinity negative, rest)
  | None =>
      let '(intDigits, s1) := takeDigits s in
      let '(fracDigits, s2) :=
        match s1 with
        | c :: s1' => if (c =? 46)%N then takeDigits s1' else ([], s1)
        | [] => ([], s1)
        end in
      match intDigits ++ fracDigits with
      | [] => None
      | ds =>
          let '(e, rest) := readExponent s2 in
          Some (NumDecimal negative (digitsValue ds)
                  (e - Z.of_nat (length fracDigits)), rest)
      end
  end.

(** The longest prefix of the string, after its leading white space, that
    is a [StrDecimalLiteral]. *)
Definition readDecimalLiteral (s : list N) : option (JsNumber * list N) :=
  match trimStart s with
  | c :: rest =>
      if (c =? 43)%N then readUnsignedLiteral false rest
      else if (c =? 45)%N then readUnsignedLiteral true rest
      else readUnsignedLiteral false (c :: rest)
  | [] => None
  end.

(** [parseFloat]; [None] is [NaN]. *)
Definition parseFloat (s : list N) : option JsNumber :=
  fst <$> readDecimalLiteral s.

(** A binary64 number that is not NaN; the sign of zero is left out. *)
Inductive Float64 : Type :=
| Float64Finite (q : Q)
| Float64Infinite (negative : bool).

(** The binary64 number that a literal stands for: the one nearest to what
    the literal denotes, and an infinity from [2^1024 - 2^970] on, where the
    nearest binary64 number would take the exponent 1024. *)
Definition numberValue (n : JsNumber) : Float64 :=
  match n with
  | NumInfinity negative => Float64Infinite negative
  | NumDecimal negative digits exponent =>
      let magnitude := (inject_Z (Z.of_N digits) * 10 ^ exponent)%Q in
      if Qle_bool (2 ^ 1024 - 2 ^ 970) magnitude then Float64Infinite negative
      else Float64Finite (if negative then - binary64 magnitude
                          else binary64 magnitude)
  end.

(** [row[key] = value] on an object created by [{}], for a value that is a
    string or a number.  The key [__proto__] reaches the accessor inherited
    from [Object.prototype], whose setter ignores a value that is not an
    object: no own property is created. *)
Definition objectSet (row : DataRow) (key : list N) (value : Cell) : DataRow :=
  if strEqb key (js "__proto__") then row else <[key := value]> row.

(** The own keys of a row.  [Object.keys] orders them (array indices first);
    here they are used through their number and their membership only. *)
Definition objectKeys (row : DataRow) : list (list N) := elements (dom row).

(** [isNaN(numValue) ? value : numValue] with [numValue = parseFloat(value)]. *)
Definition coerceCell (value : list N) : Cell :=
  match parseFloat value with
  | None => CellString value
  | Some numValue => CellNumber numValue
  end.

(** The body of [headers.forEach((header, idx) => ...)], from index [idx]. *)
Fixpoint fillRow (headers : list (list N)) (idx : nat) (values : list (list N))
    (row : DataRow) : DataRow :=
  match headers with
  | [] => row
  | header :: headers' =>
      let value := orElse (values !! idx) [] in
      fillRow headers' (S idx) values (objectSet row header (coerceCell value))
  end.

(** The loop over the data lines: each one pushes a row. *)
Fixpoint csvRows (headers : list (list N)) (lines : list (list N))
    (data : list DataRow) : list DataRow :=
  match lines with
  | [] => data
  | line :: lines' =>
      let values := parseCsvLine line in
      csvRows headers lines' (data ++ [fillRow headers 0 values ∅])
  end.

(** [text.split('\n').filter(line => line.trim())] *)
Definition csvLines (text : list N) : list (list N) :=
  List.filter (fun line => match trim line with [] => false | _ => true end)
    (split 10%N text).

Definition noContent : ExtractedContent :=
  {| text := None; pages := None; data := None; frames := None;
     rawBase64 := None |}.

Section Processors.

(** [formatDataAsText] renders numbers as text; it is kept as a parameter. *)
Variable formatDataAsText : list (list N) -> list DataRow -> list N.

Definition processCsv (file : File) : Completion ExtractedContent :=
  let lines := csvLines (file_text file) in
  match lines with
  | [] => Return {| text := Some []; pages := None; data := Some [];
                    frames := None; rawBase64 := None |}
  | first :: rest =>
      let headers := parseCsvLine first in
      let data := csvRows headers rest [] in
      Return {| text := Some (formatDataAsText headers data); pages := None;
                data := Some data; frames := None; rawBase64 := None |}
  end.

(** [processExcel]: [sheetToJson] stands for reading the workbook and
    converting its first sheet with the xlsx library. *)
Definition processExcel (sheetToJson : File -> Completion (list DataRow))
    (file : File) : Completion ExtractedContent :=
  bind (sheetToJson file) (fun jsonData =>
    let headers :=
      match jsonData with
      | row :: _ => objectKeys row
      | [] => []
      end in
    Return {| text := Some (formatDataAsText headers jsonData); pages := None;
              data := Some jsonData; frames := None; rawBase64 := None |}).

End Processors.

Definition extractMetadata (file : File) (type : SupportedFileType)
    (content : ExtractedContent) : FileMetadata :=
  {| fileName := file_name file;
     fileSize := file_size file;
     pageCount := length <$> pages content;
     duration := None;
     rowCount := length <$> data content;
     columnCount :=
       match data content with
       | Some (row :: _) => Some (length (objectKeys row))
       | _ => None
       end |}.

(** *** PDF *)

(** A page as PDF.js gives it: the strings of its text items and the PNG
    that rendering it on a canvas yields. *)
Record PdfPage : Type := {
  textItems : list (list N);
  renderedPng : list N
}.

Record PdfDocument : Type := {
  numPages : nat;
  getPage : nat -> PdfPage
}.

(** [s.replace(/\s+/g, ' ')]: every maximal run of white space becomes one
    space.  [inRun] tells that the previous character was white space. *)
Fixpoint collapseWhiteSpace (inRun : bool) (s : list N) : list N :=
  match s with
  | [] => []
  | c :: s' =>
      if isWhiteSpace c
      then (if inRun then collapseWhiteSpace true s'
            else 32%N :: collapseWhiteSpace true s')
      else c :: collapseWhiteSpace false s'
  end.

Definition pageTextOf (page : PdfPage) : list N :=
  trim (collapseWhiteSpace false (join [32%N] (textItems page))).

(** The loop [for (let i = 1; i <= maxPages; i++)], with [remaining] rounds
    to go from page [i]. *)
Fixpoint pdfPages (pdf : PdfDocument) (remaining i : nat)
    (pages : list PageContent) : list PageContent :=
  match remaining with
  | O => pages
  | S remaining' =>
      let page := getPage pdf i in
      pdfPages pdf remaining' (S i)
        (pages ++ [ {| pageNumber := i;
                       page_text := pageTextOf page;
                       page_imageBase64 := Some (renderedPng page) |} ])
  end.

Definition pageMarker (p : PageContent) : list N :=
  js "[Page " ++ natToString (pageNumber p) ++ js "]" ++ [10%N] ++ page_text p.

(** [window.pdfjsLib], when loaded, opens the document of a file. *)
Definition processPdf (pdfjsLib : option (File -> Completion PdfDocument))
    (file : File) : Completion ExtractedContent :=
  match pdfjsLib with
  | None => Throw (Error (js "PDF.js library not loaded"))
  | Some getDocument =>
      bind (getDocument file) (fun pdf =>
        let maxPages := Nat.min (numPages pdf) 20 in
        let pages := pdfPages pdf maxPages 1 [] in
        let fullText := join [10%N; 10%N] (List.map pageMarker pages) in
        Return {| text := Some fullText; pages := Some pages; data := None;
                  frames := None; rawBase64 := None |})
  end.

(** *** Video *)

(** The video element once its metadata is loaded: its duration in seconds
    and the JPEG that seeking to a time and drawing the frame yields. *)
Record VideoElement : Type := {
  video_duration : Q;
  captureFrame : Q -> list N
}.

(** [Math.round]: the nearest integer, halves upwards. *)
Definition mathRound (q : Q) : Z := Qfloor (q + (1 # 2)).

Definition intToString (z : Z) : list N :=
  match z with
  | Zneg p => 45%N :: natToString (Pos.to_nat p)
  | _ => natToString (Z.to_nat z)
  end.

(** [(duration / (frameCount + 1)) * (i + 1)]: the division and the
    multiplication each round their result. *)
Definition frameTimestamp (duration : Q) (frameCount : Z) (i : nat) : Q :=
  binary64 (binary64 (duration / inject_Z (frameCount + 1))
            * inject_Z (Z.of_nat i + 1)).

(** The loop [for (let i = 0; i < frameCount; i++)], with [remaining] rounds
    to go from index [i]. *)
Fixpoint videoFrames (video : VideoElement) (frameCount : Z) (remaining i : nat)
    (frames : list VideoFrame) : list VideoFrame :=
  match remaining with
  | O => frames
  | S remaining' =>
      let timestamp := frameTimestamp (video_duration video) frameCount i in
      videoFrames video frameCount remaining' (S i)
        (frames ++ [ {| timestamp := timestamp;
                        frame_imageBase64 := captureFrame video timestamp |} ])
  end.

(** [Math.min(10, Math.max(3, Math.ceil(duration / 15)))] *)
Definition frameCountFor (duration : Q) : Z :=
  Z.min 10 (Z.max 3 (Qceiling (binary64 (duration / inject_Z 15)))).

(** [loadMetadata] stands for creating the video element and waiting for
    its metadata: it throws on a load error or after 30 seconds. *)
Definition processVideo (loadMetadata : File -> Completion VideoElement)
    (file : File) : Completion ExtractedContent :=
  bind (loadMetadata file) (fun video =>
    let duration := video_duration video in
    let frameCount := frameCountFor duration in
    let frames := videoFrames video frameCount (Z.to_nat frameCount) 0 [] in
    Return {| text := Some (js "Video: " ++ [34%N] ++ file_name file
                            ++ [34%N; 10%N] ++ js "Duration: "
                            ++ intToString (mathRound duration)
                            ++ js " seconds" ++ [10%N]
                            ++ js "Key frames extracted: "
                            ++ natToString (length frames));
              pages := None; data := None; frames := Some frames;
              rawBase64 := None |}).

(** ** Output registry: lookups *)

(** [object[key]] on an object literal: the value of the property, [None]
    for [undefined]. *)
Fixpoint getProperty {V : Type} (o : list (OutputType * V)) (key : OutputType)
  : option V :=
  match o with
  | [] => None
  | (k, v) :: o' => if bool_decide (k = key) then Some v else getProperty o' key
  end.

(** Reading a property of [undefined] throws a [TypeError]. *)
Definition typeError : JsError := Error (js "TypeError").

Section OutputRegistryLookups.

Variable promptFragmentOf : OutputType -> list N.

Definition getOutputConfig (outputType : OutputType) : option OutputConfig :=
  getProperty (OUTPUT_REGISTRY promptFragmentOf) outputType.

Definition isOutputApplicable (outputType : OutputType)
    (fileType : SupportedFileType) : Completion bool :=
  match getProperty (OUTPUT_REGISTRY promptFragmentOf) outputType with
  | Some config => Return (includesFileType (applicableInputs config) fileType)
  | None => Throw typeError
  end.

End OutputRegistryLookups.

(** ** Content parts of a generation request ([services/gemini.ts]) *)

(** A part of the request: a text or an inline image with its media type. *)
Inductive Part : Type :=
| TextPart (partText : list N)
| InlineData (partData partMimeType : list N).

(** The rule of forty equal signs. *)
Definition rule40 : list N := repeat 61%N 40.

(** A value that is falsy as a number: zero, also when the literal is so
    small that it stands for zero. *)
Definition isZeroNumber (n : JsNumber) : bool :=
  match numberValue n with
  | Float64Finite q => Qeq_bool q 0
  | Float64Infinite _ => false
  end.

Section TableText.

(** [String(n)] for a number, and the text of the property that an object
    inherits under a name ([None] when it inherits none: the value is
    [undefined]); what is inherited is an object or a function, hence
    truthy. *)
Variable numberToString : JsNumber -> list N.
Variable inheritedProperty : list N -> option (list N).

(** [`${row[h]}`] *)
Definition cellText (row : DataRow) (h : list N) : list N :=
  match row !! h with
  | Some (CellString s) => s
  | Some (CellNumber n) => numberToString n
  | None =>
      match inheritedProperty h with
      | Some s => s
      | None => js "undefined"
      end
  end.

(** [`${row[h] || ''}`]: the empty string and zero are falsy. *)
Definition cellTextOrEmpty (row : DataRow) (h : list N) : list N :=
  match row !! h with
  | Some (CellString s) => s
  | Some (CellNumber n) => if isZeroNumber n then [] else numberToString n
  | None =>
      match inheritedProperty h with
      | Some s => s
      | None => []
      end
  end.

(** [`Row ${i + 1}: ${headers.map(h => `${h}="${value(row, h)}"`).join(', ')}\n`] *)
Definition rowLine (value : DataRow -> list N -> list N) (headers : list (list N))
    (i : nat) (row : DataRow) : list N :=
  js "Row " ++ natToString (i + 1) ++ js ": "
  ++ join (js ", ")
       (List.map (fun h => h ++ [61%N; 34%N] ++ value row h ++ [34%N]) headers)
  ++ [10%N].

(** [rows.forEach((row, i) => { text += line(row, i) })], from index [i]. *)
Fixpoint appendRowLines (value : DataRow -> list N -> list N)
    (headers : list (list N)) (i : nat) (rows : list DataRow) (text : list N)
  : list N :=
  match rows with
  | [] => text
  | row :: rows' =>
      appendRowLines value headers (S i) rows' (text ++ rowLine value headers i row)
  end.

Definition formatDataAsText (headers : list (list N)) (data : list DataRow)
  : list N :=
  let text :=
    js "Data with " ++ natToString (length data) ++ js " rows and "
    ++ natToString (length headers) ++ js " columns:" ++ [10%N] in
  let text := text ++ js "Columns: " ++ join (js ", ") headers ++ [10%N; 10%N] in
  (* Include first 20 rows as sample *)
  let sample := take 20 data in
  let text := appendRowLines cellText headers 0 sample text in
  if 20 <? length data
  then text ++ [10%N] ++ js "... and " ++ natToString (length data - 20)
       ++ js " more rows"
  else text.

End TableText.

Section ContentParts.

Variable numberToString : JsNumber -> list N.
Variable inheritedProperty : list N -> option (list N).

(** [Object.keys(row)], in the order in which JavaScript enumerates the own
    keys of the row. *)
Variable orderedKeys : DataRow -> list (list N).

(** A string is truthy when it is not empty. *)
Definition truthy (s : option (list N)) : bool :=
  match s with
  | Some (_ :: _) => true
  | _ => false
  end.

(** [`${n}`] for an optional count: [undefined] when it is absent. *)
Definition optionalCountText (n : option nat) : list N :=
  match n with
  | Some k => natToString k
  | None => js "undefined"
  end.

(** The body of [pages.forEach((page, i) => ...)], from index [i]. *)
Fixpoint pushPages (pages : list PageContent) (i : nat) (parts : list Part)
  : list Part :=
  match pages with
  | [] => parts
  | page :: pages' =>
      let parts :=
        parts ++ [TextPart ([10%N] ++ js "--- PAGE " ++ natToString (pageNumber page)
                            ++ js " ---" ++ [10%N] ++ page_text page ++ [10%N])] in
      (* Add page image if available (limit to first 5 pages) *)
      let parts :=
        if truthy (page_imageBase64 page) && (i <? 5)
        then parts ++ [InlineData (default [] (page_imageBase64 page)) (js "image/png")]
        else parts in
      pushPages pages' (S i) parts
  end.

(** The body of [frames.forEach((frame, i) => ...)], from index [i]. *)
Fixpoint pushFrames (frames : list VideoFrame) (i : nat) (parts : list Part)
  : list Part :=
  match frames with
  | [] => parts
  | frame :: frames' =>
      let parts :=
        parts ++ [TextPart ([10%N] ++ js "Frame " ++ natToString (i + 1) ++ js " at "
                            ++ intToString (mathRound (timestamp frame))
                            ++ js " seconds:")] in
      let parts := parts ++ [InlineData (frame_imageBase64 frame) (js "image/jpeg")] in
      pushFrames frames' (S i) parts
  end.

Definition dataTableText (parsedFile : ParsedFile) (data : list DataRow)
    (first : DataRow) : list N :=
  let headers := orderedKeys first in
  let rows := take 50 data in (* Limit to 50 rows *)
  let tableText :=
    [10%N] ++ rule40 ++ [10%N]
    ++ js "PRIMARY DATA TABLE (USE THIS DATA FOR TRAINING)" ++ [10%N]
    ++ js "File: " ++ fileName (metadata parsedFile) ++ [10%N]
    ++ rule40 ++ [10%N] in
  let tableText :=
    tableText ++ js "Total Rows: " ++ optionalCountText (rowCount (metadata parsedFile))
    ++ js ", Columns: " ++ natToString (length headers) ++ [10%N] in
  let tableText :=
    tableText ++ js "Column Headers: " ++ join (js " | ") headers ++ [10%N; 10%N] in
  let tableText := tableText ++ js "ACTUAL DATA FROM UPLOADED FILE:" ++ [10%N] in
  let tableText :=
    appendRowLines (cellTextOrEmpty numberToString inheritedProperty) headers 0 rows
      tableText in
  let tableText :=
    if 50 <? length data
    then tableText ++ [10%N] ++ js "... plus " ++ natToString (length data - 50)
         ++ js " more rows in source" ++ [10%N]
    else tableText in
  tableText ++ [10%N] ++ rule40 ++ [10%N] ++ js "END OF PRIMARY DATA" ++ [10%N]
  ++ rule40 ++ [10%N].

Definition buildContentParts (parsedFile : ParsedFile)
    (additionalInstructions : option (list N)) : list Part :=
  let content := extractedContent parsedFile in
  (* Main instruction - emphasize using uploaded content *)
  let parts :=
    [TextPart (js "CREATE AN INTERACTIVE TRAINING MODULE FROM THIS UPLOADED CONTENT."
               ++ [10%N]
               ++ js "IMPORTANT: Use ONLY the content below. Do NOT add external information."
               ++ [10%N]
               ++ (if truthy additionalInstructions
                   then [10%N] ++ js "ADDITIONAL INSTRUCTIONS: "
                        ++ default [] additionalInstructions ++ [10%N]
                   else []))] in
  (* Add extracted text content *)
  let parts :=
    if truthy (text content)
    then parts ++ [TextPart ([10%N] ++ rule40 ++ [10%N]
                             ++ js "PRIMARY SOURCE CONTENT (USE THIS DATA ONLY)" ++ [10%N]
                             ++ js "File: " ++ fileName (metadata parsedFile) ++ [10%N]
                             ++ rule40 ++ [10%N]
                             ++ default [] (text content) ++ [10%N]
                             ++ rule40 ++ [10%N]
                             ++ js "END OF PRIMARY SOURCE" ++ [10%N]
                             ++ rule40 ++ [10%N])]
    else parts in
  (* Add all pages for multi-page PDFs *)
  let parts :=
    match pages content with
    | Some (page :: pages') =>
        let all := page :: pages' in
        let parts :=
          parts ++ [TextPart ([10%N] ++ js "=== PDF DOCUMENT ("
                              ++ natToString (length all) ++ js " pages) ==="
                              ++ [10%N])] in
        let parts := pushPages all 0 parts in
        parts ++ [TextPart ([10%N] ++ js "=== END PDF ===" ++ [10%N])]
    | _ => parts
    end in
  (* Add data tables (CSV/Excel) *)
  let parts :=
    match data content with
    | Some (first :: rest) =>
        parts ++ [TextPart (dataTableText parsedFile (first :: rest) first)]
    | _ => parts
    end in
  (* Add video frames *)
  let parts :=
    match frames content with
    | Some (frame :: frames') =>
        let all := frame :: frames' in
        let parts :=
          parts ++ [TextPart ([10%N] ++ js "=== VIDEO CONTENT ===" ++ [10%N]
                              ++ js "Extracted " ++ natToString (length all)
                              ++ js " key frames:" ++ [10%N])] in
        let parts := pushFrames all 0 parts in
        parts ++ [TextPart ([10%N] ++ js "=== END VIDEO ===" ++ [10%N])]
    | _ => parts
    end in
  (* Add raw image for image files *)
  if truthy (rawBase64 content) && bool_decide (parsed_type parsedFile = Image)
  then parts
       ++ [TextPart ([10%N] ++ js "=== IMAGE FILE ===" ++ [10%N]
                     ++ js "Analyze this image and create training content based on what you see:"
                     ++ [10%N]);
           InlineData (default [] (rawBase64 content)) (mimeType parsedFile);
           TextPart ([10%N] ++ js "=== END IMAGE ===" ++ [10%N])]
  else parts.

End ContentParts.

(** ** The processing pipeline ([services/file-processor.ts]) *)

(** How reading a file with a [FileReader] ends: loaded, with a result that
    is a string or is not, or failed. *)
Inductive FileReaderOutcome : Type :=
| ReaderLoaded (result : option (list N))
| ReaderFailed.

(** [result.split(',')[1]]: the piece after the first comma, [undefined]
    when there is no comma. *)
Definition afterFirstComma (result : list N) : option (list N) :=
  split 44%N result !! 1.

Definition processImage (readAsDataURL : File -> FileReaderOutcome) (file : File)
  : Completion ExtractedContent :=
  match readAsDataURL file with
  | ReaderLoaded (Some result) =>
      Return {| text := None; pages := None; data := None; frames := None;
                rawBase64 := afterFirstComma result |}
  | ReaderLoaded None => Throw (Error (js "Failed to convert image to base64"))
  | ReaderFailed => Throw (Error (js "Failed to read image file"))
  end.

Definition processText (file : File) : Completion ExtractedContent :=
  Return {| text := Some (file_text file); pages := None; data := None;
            frames := None; rawBase64 := None |}.

(** What the processors use of the browser and of the libraries. *)
Record Environment : Type := {
  env_toLowerCase : list N -> list N;
  env_readAsDataURL : File -> FileReaderOutcome;
  env_pdfjsLib : option (File -> Completion PdfDocument);
  env_sheetToJson : File -> Completion (list DataRow);
  env_loadMetadata : File -> Completion VideoElement;
  env_numberToString : JsNumber -> list N;
  env_inheritedProperty : list N -> option (list N)
}.

Definition extractContent (env : Environment) (file : File)
    (type : SupportedFileType) : Completion ExtractedContent :=
  let format :=
    formatDataAsText (env_numberToString env) (env_inheritedProperty env) in
  match type with
  | Image => processImage (env_readAsDataURL env) file
  | Pdf => processPdf (env_pdfjsLib env) file
  | Csv => processCsv format file
  | Excel => processExcel format (env_sheetToJson env) file
  | Text | Markdown => processText file
  | Video => processVideo (env_loadMetadata env) file
  end.

(** [FileProcessor.process] *)
Definition process (env : Environment) (file : File) : Completion ParsedFile :=
  bind (detectFileType (env_toLowerCase env) file) (fun type =>
  bind (extractContent env file type) (fun content =>
  let meta := extractMetadata file type content in
  Return {| originalFile := file;
            parsed_type := type;
            mimeType := file_type file;
            extractedContent := content;
            metadata := meta |})).

(** ** The application (the main component, [App]) *)

(** A [Date] is its time value, in milliseconds; an invalid date has
    none. *)
Definition JsDate : Type := option Z.

Record Creation : Type := {
  creation_id : list N;
  creation_name : list N;
  html : list N;
  originalImage : option (list N);
  creation_outputType : option (list N);
  sourceFileType : option SupportedFileType;
  creation_metadata : option FileMetadata;
  creation_timestamp : JsDate
}.

(** The state of the component: one field for each [useState]. *)
Record AppState : Type := {
  activeCreation : option Creation;
  isGenerating : bool;
  isRefining : bool;
  history : list Creation;
  pendingFile : option ParsedFile;
  selectedOutputType : option OutputType;
  showOutputSelector : bool;
  processingFile : bool;
  isAutoSelecting : bool
}.

(** [array?.[0]] *)
Definition firstOf {A : Type} (l : option (list A)) : option A :=
  match l with
  | Some (x :: _) => Some x
  | _ => None
  end.

(** The preview image that a new creation gets: a data URL made of the raw
    image, of the rendering of the first page or of the first frame. *)
Definition previewImage (pendingFile : ParsedFile) : option (list N) :=
  let content := extractedContent pendingFile in
  if bool_decide (parsed_type pendingFile = Image) && truthy (rawBase64 content)
  then Some (js "data:" ++ mimeType pendingFile ++ js ";base64,"
             ++ default [] (rawBase64 content))
  else if truthy (firstOf (pages content) ≫= page_imageBase64)
  then Some (js "data:image/png;base64,"
             ++ default [] (firstOf (pages content) ≫= page_imageBase64))
  else if truthy (frame_imageBase64 <$> firstOf (frames content))
  then Some (js "data:image/jpeg;base64,"
             ++ default [] (frame_imageBase64 <$> firstOf (frames content)))
  else None.

(** The output type that an identifier names, if it names one:
    [getOutputConfig] of another string is [undefined], and building the
    system prompt from it throws. *)
Definition outputTypeOfId (identifier : list N) : option OutputType :=
  List.find (fun o => strEqb (outputTypeId o) identifier)
    [ FieldSimulator; DamageDetective; CommissionTycoon; ObjectionArena;
      InspectionWalkthrough; FlashcardDrill; InteractiveTimeline;
      ScenarioBuilder; PitchPerfector; Auto ].

Section App.

Variable toLowerCase : list N -> list N.

(** [handleConfirmGeneration].  The two model calls are given by their
    outcomes, [crypto.randomUUID()] and [new Date()] by their values; the
    sounds and the alerts are left out.  No other handler runs in
    between. *)
Definition handleConfirmGeneration
    (autoSelectCall generateCall : Completion GenerateContentResponse)
    (randomUUID : list N) (now : Z) (state : AppState) : AppState :=
  match pendingFile state, selectedOutputType state with
  | Some pending, Some selected =>
      (* Handle auto-select *)
      let finalOutputType :=
        if bool_decide (selected = Auto)
        then match autoSelectOutputType toLowerCase autoSelectCall pending with
             | Return chosen => chosen
             | Throw _ =>
                 if bool_decide (parsed_type pending = Image)
                 then js "damage-detective" else js "flashcard-drill"
             end
        else outputTypeId selected in
      let autoSelecting :=
        if bool_decide (selected = Auto) then false else isAutoSelecting state in
      let generated :=
        match outputTypeOfId finalOutputType with
        | Some outputType => generateTraining generateCall pending outputType None
        | None => Throw typeError
        end in
      let created :=
        match generated with
        | Return (c :: markup) =>
            Some {| creation_id := randomUUID;
                    creation_name := fileName (metadata pending);
                    html := c :: markup;
                    originalImage := previewImage pending;
                    creation_outputType := Some finalOutputType;
                    sourceFileType := Some (parsed_type pending);
                    creation_metadata := Some (metadata pending);
                    creation_timestamp := Some now |}
        | _ => None
        end in
      {| activeCreation := created;
         isGenerating := false;
         isRefining := isRefining state;
         history := match created with
                    | Some newCreation => newCreation :: history state
                    | None => history state
                    end;
         pendingFile := None;
         selectedOutputType := None;
         showOutputSelector := false;
         processingFile := processingFile state;
         isAutoSelecting := autoSelecting |}
  | _, _ => state
  end.

(** [handleRefine].  [fileToBase64] reads the reference image, when there
    is one; the model call is given by its outcome. *)
Definition handleRefine (fileToBase64 : File -> Completion (option (list N)))
    (refineCall : Completion GenerateContentResponse) (now : Z)
    (instruction : list N) (referenceImage : option File) (state : AppState)
  : AppState :=
  match activeCreation state with
  | None => state
  | Some active =>
      let refined :=
        tryCatch
          (bind (match referenceImage with
                 | Some image =>
                     bind (fileToBase64 image) (fun base64 =>
                       Return (base64, Some (toLowerCase (file_type image))))
                 | None => Return (None, None)
                 end) (fun '(refImageBase64, refMimeType) =>
           bind (refineApp refineCall (html active) instruction refImageBase64
                   refMimeType) (fun newHtml =>
           match newHtml with
           | c :: markup => Return (Some (c :: markup))
           | [] => Return None
           end)))
          (fun error => Return None) in
      match refined with
      | Return (Some newHtml) =>
          let updatedCreation :=
            {| creation_id := creation_id active;
               creation_name := creation_name active;
               html := newHtml;
               originalImage := originalImage active;
               creation_outputType := creation_outputType active;
               sourceFileType := sourceFileType active;
               creation_metadata := creation_metadata active;
               creation_timestamp := Some now |} in
          {| activeCreation := Some updatedCreation;
             isGenerating := isGenerating state;
             isRefining := false;
             history :=
               List.map (fun item =>
                           if strEqb (creation_id item) (creation_id updatedCreation)
                           then updatedCreation else item)
                 (history state);
             pendingFile := pendingFile state;
             selectedOutputType := selectedOutputType state;
             showOutputSelector := showOutputSelector state;
             processingFile := processingFile state;
             isAutoSelecting := isAutoSelecting state |}
      | _ =>
          {| activeCreation := activeCreation state;
             isGenerating := isGenerating state;
             isRefining := false;
             history := history state;
             pendingFile := pendingFile state;
             selectedOutputType := selectedOutputType state;
             showOutputSelector := showOutputSelector state;
             processingFile := processingFile state;
             isAutoSelecting := isAutoSelecting state |}
      end
  end.

End App.

(** [handleGenerate]: the upload of a file. *)
Definition handleGenerate (env : Environment) (file : option File)
    (state : AppState) : AppState :=
  match file with
  | None => state
  | Some uploaded =>
      match process env uploaded with
      | Return parsed =>
          {| activeCreation := activeCreation state;
             isGenerating := isGenerating state;
             isRefining := isRefining state;
             history := history state;
             pendingFile := Some parsed;
             selectedOutputType := selectedOutputType state;
             showOutputSelector := true;
             processingFile := false;
             isAutoSelecting := isAutoSelecting state |}
      | Throw _ =>
          {| activeCreation := activeCreation state;
             isGenerating := isGenerating state;
             isRefining := isRefining state;
             history := history state;
             pendingFile := pendingFile state;
             selectedOutputType := selectedOutputType state;
             showOutputSelector := showOutputSelector state;
             processingFile := false;
             isAutoSelecting := isAutoSelecting state |}
      end
  end.

(** [handleCancelSelection] *)
Definition handleCancelSelection (state : AppState) : AppState :=
  {| activeCreation := activeCreation state;
     isGenerating := isGenerating state;
     isRefining := isRefining state;
     history := history state;
     pendingFile := None;
     selectedOutputType := None;
     showOutputSelector := false;
     processingFile := processingFile state;
     isAutoSelecting := isAutoSelecting state |}.

(** [handleReset] *)
Definition handleReset (state : AppState) : AppState :=
  {| activeCreation := None;
     isGenerating := false;
     isRefining := false;
     history := history state;
     pendingFile := pendingFile state;
     selectedOutputType := selectedOutputType state;
     showOutputSelector := showOutputSelector state;
     processingFile := processingFile state;
     isAutoSelecting := isAutoSelecting state |}.

(** [handleSelectCreation] *)
Definition handleSelectCreation (creation : Creation) (state : AppState) : AppState :=
  {| activeCreation := Some creation;
     isGenerating := isGenerating state;
     isRefining := isRefining state;
     history := history state;
     pendingFile := pendingFile state;
     selectedOutputType := selectedOutputType state;
     showOutputSelector := showOutputSelector state;
     processingFile := processingFile state;
     isAutoSelecting := isAutoSelecting state |}.

(** [setSelectedOutputType], which the output selector calls. *)
Definition setSelectedOutputType (outputType : OutputType) (state : AppState)
  : AppState :=
  {| activeCreation := activeCreation state;
     isGenerating := isGenerating state;
     isRefining := isRefining state;
     history := history state;
     pendingFile := pendingFile state;
     selectedOutputType := Some outputType;
     showOutputSelector := showOutputSelector state;
     processingFile := processingFile state;
     isAutoSelecting := isAutoSelecting state |}.

(** [handleImportFile], once the reader has loaded the file.  [parse] stands
    for [JSON.parse] and gives the parsed object seen as a creation, whose
    [id], [name] and [html] are strings when they are present: a field
    that is missing is given as the empty string, and the code treats both
    as falsy.  [importedDate] is the date that
    [new Date(parsed.timestamp || Date.now())] constructs. *)
Definition handleImportFile (parse : list N -> Completion Creation)
    (importedDate : JsDate) (randomUUID : list N) (file : option File)
    (state : AppState) : AppState :=
  match file with
  | None => state
  | Some imported =>
      match parse (file_text imported) with
      | Return parsed =>
          if truthy (Some (html parsed)) && truthy (Some (creation_name parsed))
          then
            let importedCreation :=
              {| creation_id := match creation_id parsed with
                                | [] => randomUUID
                                | c :: s => c :: s
                                end;
                 creation_name := creation_name parsed;
                 html := html parsed;
                 originalImage := originalImage parsed;
                 creation_outputType := creation_outputType parsed;
                 sourceFileType := sourceFileType parsed;
                 creation_metadata := creation_metadata parsed;
                 creation_timestamp := importedDate |} in
            let exists_ :=
              existsb (fun c => strEqb (creation_id c) (creation_id importedCreation))
                (history state) in
            {| activeCreation := Some importedCreation;
               isGenerating := isGenerating state;
               isRefining := isRefining state;
               history := if exists_ then history state
                          else importedCreation :: history state;
               pendingFile := pendingFile state;
               selectedOutputType := selectedOutputType state;
               showOutputSelector := showOutputSelector state;
               processingFile := processingFile state;
               isAutoSelecting := isAutoSelecting state |}
          else state
      | Throw _ => state
      end
  end.

(** The transitions of the component: one for each handler that the
    interface can call, each handler running to its end before the next.
    The history list calls [handleSelectCreation] with one of its entries,
    and [crypto.randomUUID()] gives a new creation an identifier that is
    not in use. *)
Inductive appStep : AppState -> AppState -> Prop :=
| StepGenerate (env : Environment) (file : option File) (state : AppState) :
    appStep state (handleGenerate env file state)
| StepSelectOutput (outputType : OutputType) (state : AppState) :
    appStep state (setSelectedOutputType outputType state)
| StepCancelSelection (state : AppState) :
    appStep state (handleCancelSelection state)
| StepConfirmGeneration (toLowerCase : list N -> list N)
    (autoSelectCall generateCall : Completion GenerateContentResponse)
    (randomUUID : list N) (now : Z) (state : AppState) :
    randomUUID ∉ List.map creation_id (history state) ->
    appStep state
      (handleConfirmGeneration toLowerCase autoSelectCall generateCall randomUUID
         now state)
| StepRefine (toLowerCase : list N -> list N)
    (fileToBase64 : File -> Completion (option (list N)))
    (refineCall : Completion GenerateContentResponse) (now : Z)
    (instruction : list N) (referenceImage : option File) (state : AppState) :
    appStep state
      (handleRefine toLowerCase fileToBase64 refineCall now instruction
         referenceImage state)
| StepReset (state : AppState) :
    appStep state (handleReset state)
| StepSelectCreation (creation : Creation) (state : AppState) :
    creation ∈ history state ->
    appStep state (handleSelectCreation creation state)
| StepImportFile (parse : list N -> Completion Creation) (importedDate : JsDate)
    (randomUUID : list N) (file : option File) (state : AppState) :
    appStep state (handleImportFile parse importedDate randomUUID file state).

(** The states that the component reaches from a state. *)
Inductive reachable (initial : AppState) : AppState -> Prop :=
| ReachedInitial : reachable initial initial
| ReachedStep (state next : AppState) :
    reachable initial state -> appStep state next -> reachable initial next.

(** The state after mounting: the history is the one loaded from the local
    storage, nothing is shown. *)
Definition mounted (loadedHistory : list Creation) : AppState :=
  {| activeCreation := None;
     isGenerating := false;
     isRefining := false;
     history := loadedHistory;
     pendingFile := None;
     selectedOutputType := None;
     showOutputSelector := false;
     processingFile := false;
     isAutoSelecting := false |}.

(** ** The preview ([components/LivePreview.tsx]) *)

(** A code unit that the class [[a-z0-9]] matches under the flag [i]: an
    ASCII letter of either case or a digit (see [asciiUpper]). *)
Definition isAlphanumeric (c : N) : bool :=
  (((48 <=? c) && (c <=? 57)) || ((65 <=? c) && (c <=? 90))
   || ((97 <=? c) && (c <=? 122)))%N.

(** [name.replace(/[^a-z0-9]/gi, '_')] *)
Definition replaceNonAlphanumeric (name : list N) : list N :=
  List.map (fun c => if isAlphanumeric c then c else 95%N) name.

(** The name under which [handleExport] offers the artifact. *)
Definition exportFileName (toLowerCase : list N -> list N) (creation : Creation)
  : list N :=
  toLowerCase (replaceNonAlphanumeric (creation_name creation))
  ++ js "_artifact.json".

(** The refinement form of the preview: one field for each [useState]. *)
Record RefinementForm : Type := {
  refinementInput : list N;
  refinementImage : option File;
  refinementImagePreview : option (list N)
}.

Definition defaultInstruction : list N :=
  js "Update the app to match the style of the attached image.".

(** [handleRefineSubmit]: the call of [onRefine] that it makes, if any, and
    the form afterwards. *)
Definition handleRefineSubmit (isRefining : bool) (form : RefinementForm)
  : option (list N * option File) * RefinementForm :=
  if (negb (truthy (Some (trim (refinementInput form))))
      && negb (bool_decide (is_Some (refinementImage form))))
     || isRefining
  then (None, form)
  else
    let finalInstruction :=
      orElse (Some (trim (refinementInput form))) defaultInstruction in
    (Some (finalInstruction, refinementImage form),
     {| refinementInput := [];
        refinementImage := None;
        refinementImagePreview := None |}).

(** ** The achievement engine ([services/achievement-engine.ts]) *)

(** The numbers of the engine.  The values of a user and the thresholds of
    a condition are finite and are taken as the rationals they stand for; a
    division by zero gives an infinity or NaN.  The rounding of the
    arithmetic and the sign of zero are left out. *)
Inductive EngineNumber : Type :=
| Finite (q : Q)
| Infinite (negative : bool)
| NotANumber.

Definition Qlt_bool (a b : Q) : bool := negb (Qle_bool b a).

(** [a / b] for finite operands. *)
Definition divide (a b : Q) : EngineNumber :=
  if Qeq_bool b 0
  then if Qeq_bool a 0 then NotANumber
       else Infinite (Qlt_bool a 0)
  else Finite (a / b).

(** [x - y] *)
Definition subtract (x y : EngineNumber) : EngineNumber :=
  match x, y with
  | NotANumber, _ | _, NotANumber => NotANumber
  | Finite a, Finite b => Finite (a - b)
  | Finite _, Infinite negative => Infinite (negb negative)
  | Infinite negative, Finite _ => Infinite negative
  | Infinite n1, Infinite n2 =>
      if Bool.eqb n1 n2 then NotANumber else Infinite n1
  end.

(** [Math.min(x, y)] *)
Definition mathMin (x y : EngineNumber) : EngineNumber :=
  match x, y with
  | NotANumber, _ | _, NotANumber => NotANumber
  | Infinite true, _ | _, Infinite true => Infinite true
  | Infinite false, other | other, Infinite false => other
  | Finite a, Finite b => if Qle_bool a b then Finite a else Finite b
  end.

(** [Math.max(x, y)] *)
Definition mathMax (x y : EngineNumber) : EngineNumber :=
  match x, y with
  | NotANumber, _ | _, NotANumber => NotANumber
  | Infinite false, _ | _, Infinite false => Infinite false
  | Infinite true, other | other, Infinite true => other
  | Finite a, Finite b => if Qle_bool a b then Finite b else Finite a
  end.

(** The operator of a condition; the [switch] has no default case. *)
Inductive Operator : Type :=
| GreaterThan
| GreaterThanEqual
| LessThan
| LessThanEqual
| Equals
| Between
| OtherOperator (name : list N).

(** [CustomAchievementCondition]: what [evaluateCondition] reads of it
    after the value of its field is fetched. *)
Record CustomAchievementCondition : Type := {
  condition_operator : Operator;
  condition_value : Q;
  condition_secondValue : option Q
}.

Record ConditionResult : Type := {
  met : bool;
  progress : EngineNumber;
  result_actualValue : Q;
  result_requiredValue : Q
}.

(** [evaluateCondition], from the value that [getFieldValue] gave. *)
Definition evaluateCondition (actualValue : Q)
    (condition : CustomAchievementCondition) : ConditionResult :=
  let requiredValue := condition_value condition in
  let secondValue := condition_secondValue condition in
  let '(met, progress) :=
    match condition_operator condition with
    | GreaterThan =>
        (Qlt_bool requiredValue actualValue,
         mathMin (divide actualValue requiredValue) (Finite 1))
    | GreaterThanEqual =>
        (Qle_bool requiredValue actualValue,
         mathMin (divide actualValue requiredValue) (Finite 1))
    | LessThan =>
        (Qlt_bool actualValue requiredValue,
         if Qlt_bool actualValue requiredValue then Finite 1
         else mathMax (Finite 0)
                (subtract (Finite 1)
                   (divide (actualValue - requiredValue) requiredValue)))
    | LessThanEqual =>
        (Qle_bool actualValue requiredValue,
         if Qle_bool actualValue requiredValue then Finite 1
         else mathMax (Finite 0)
                (subtract (Finite 1)
                   (divide (actualValue - requiredValue) requiredValue)))
    | Equals =>
        (Qeq_bool actualValue requiredValue,
         if Qeq_bool actualValue requiredValue then Finite 1
         else mathMax (Finite 0)
                (subtract (Finite 1)
                   (divide (Qabs (actualValue - requiredValue)) requiredValue)))
    | Between =>
        match secondValue with
        | Some second =>
            let met :=
              Qle_bool requiredValue actualValue && Qle_bool actualValue second in
            (met,
             if met then Finite 1
             else if Qlt_bool actualValue requiredValue
                  then divide actualValue requiredValue
                  else mathMax (Finite 0)
                         (subtract (Finite 1)
                            (divide (actualValue - second) second)))
        | None => (false, Finite 0)
        end
    | OtherOperator _ => (false, Finite 0)
    end in
  {| met := met;
     progress := mathMax (Finite 0) (mathMin (Finite 1) progress);
     result_actualValue := actualValue;
     result_requiredValue := requiredValue |}.

(** An achievement, with the fields that [checkAchievements] reads; its
    other fields are carried along unread. *)
Record Achievement : Type := {
  achievement_id : list N;
  isRepeatable : bool;
  criteria_metric : list N;
  criteria_value : Q
}.

(** [{ ...achievement, earnedDate, userId }] *)
Record EarnedAchievement : Type := {
  earned : Achievement;
  earnedDate : list N;
  earned_userId : list N
}.

Record User : Type := {
  user_id : list N;
  currentSignups : Q;
  currentRevenue : Q;
  streak : Q;
  user_achievements : list EarnedAchievement
}.

(** The body of [this.achievements.forEach(...)] of [checkAchievements].
    [isoTime k] is [new Date().toISOString()] at the push that follows [k]
    earlier ones. *)
Fixpoint checkAchievementsFrom (isoTime : nat -> list N) (user : User)
    (achievements : list Achievement) (newlyEarned : list EarnedAchievement)
  : list EarnedAchievement :=
  match achievements with
  | [] => newlyEarned
  | achievement :: rest =>
      let hasAlreadyEarned :=
        existsb (fun ea => strEqb (achievement_id (earned ea))
                             (achievement_id achievement)
                           && negb (isRepeatable achievement))
          (user_achievements user) in
      if hasAlreadyEarned then checkAchievementsFrom isoTime user rest newlyEarned
      else
        let isEarned :=
          if strEqb (criteria_metric achievement) (js "revenue")
          then Qle_bool (criteria_value achievement) (currentRevenue user)
          else if strEqb (criteria_metric achievement) (js "signups")
          then Qle_bool (criteria_value achievement) (currentSignups user)
          else if strEqb (criteria_metric achievement) (js "streak")
          then Qle_bool (criteria_value achievement) (streak user)
          else false in
        if isEarned
        then checkAchievementsFrom isoTime user rest
               (newlyEarned ++ [ {| earned := achievement;
                                    earnedDate := isoTime (length newlyEarned);
                                    earned_userId := user_id user |} ])
        else checkAchievementsFrom isoTime user rest newlyEarned
  end.

(** [checkAchievements], for the achievements that the engine holds: the
    templates and the custom ones that were added. *)
Definition checkAchievements (achievements : list Achievement)
    (isoTime : nat -> list N) (user : User) : list EarnedAchievement :=
  checkAchievementsFrom isoTime user achievements [].

(** ** Notions used in the statements *)

(** A string has a leading fence when it starts with the three backticks,
    and a trailing fence when it ends with them, white space after them
    apart. *)
Definition hasLeadingFence (x : list N) : bool := startsWith x fence.

Definition hasTrailingFence (x : list N) : bool := endsWith (trimEnd x) fence.

(** Inputs used as examples. *)
Definition fencedAfterNewline : list N :=
  [10%N] ++ js "```html" ++ [10%N] ++ js "<p>hi</p>" ++ [10%N] ++ js "```".

Definition fencedMarkup : list N :=
  js "```html" ++ [10%N] ++ js "<p>hi</p>" ++ [10%N] ++ js "```".

Definition paddedMarkup : list N := js " <p>hi</p>".

Definition plainMarkup : list N := js "<p>hi</p>".

(** The nine concrete output types. *)
Definition concreteOutputTypes : list OutputType :=
  [ FieldSimulator; DamageDetective; CommissionTycoon; ObjectionArena;
    InspectionWalkthrough; FlashcardDrill; InteractiveTimeline;
    ScenarioBuilder; PitchPerfector ].

(** The answer of the model once trimmed, put in lower case and stripped of
    its quotes. *)
Definition normalizedAnswer (toLowerCase : list N -> list N)
    (response : GenerateContentResponse) : list N :=
  removeQuotes (toLowerCase (trim (orElse (response_text response) []))).

(** A case mapping for the examples: the one of the ASCII letters. *)
Definition asciiToLowerCase (s : list N) : list N := List.map asciiLower s.

Definition sampleFile (name type : list N) (content : list N) : File :=
  {| file_name := name; file_type := type;
     file_size := N.of_nat (length content); file_text := content |}.

Definition sampleParsedFile (t : SupportedFileType) : ParsedFile :=
  {| originalFile := sampleFile (js "upload") [] [];
     parsed_type := t;
     mimeType := [];
     extractedContent := noContent;
     metadata := {| fileName := js "upload"; fileSize := 0%N; pageCount := None;
                    duration := None; rowCount := None; columnCount := None |} |}.

Definition responseWithoutText : GenerateContentResponse :=
  {| response_text := None |}.

(** The model call gave no usable answer: it threw, or its normalised
    answer is none of the nine identifiers. *)
Definition noValidAnswer (toLowerCase : list N -> list N)
    (generateContent : Completion GenerateContentResponse) : Prop :=
  match generateContent with
  | Throw _ => True
  | Return response =>
      forall o, In o concreteOutputTypes ->
                normalizedAnswer toLowerCase response <> outputTypeId o
  end.

Definition chattyResponse : GenerateContentResponse :=
  {| response_text := Some (js "I would pick flashcard-drill") |}.

Definition quotedResponse : GenerateContentResponse :=
  {| response_text := Some (js " " ++ [34%N] ++ js "Flashcard-Drill" ++ [34%N; 10%N]) |}.

(** The category of a declared media type (in lower case), in the priority
    order of the classifier: image/*, application/pdf, text/csv, the
    spreadsheet and excel substrings, video/*, text/markdown, then any other
    text/*. *)
Definition mimeCategory (mime : list N) : option SupportedFileType :=
  if startsWith mime (js "image/") then Some Image
  else if strEqb mime (js "application/pdf") then Some Pdf
  else if strEqb mime (js "text/csv") then Some Csv
  else if includes mime (js "spreadsheet") || includes mime (js "excel")
       then Some Excel
  else if startsWith mime (js "video/") then Some Video
  else if strEqb mime (js "text/markdown") then Some Markdown
  else if startsWith mime (js "text/") then Some Text
  else None.

(** The file name extensions of each file type. *)
Definition extensionsOf (t : SupportedFileType) : list (list N) :=
  match t with
  | Image => [js "jpg"; js "jpeg"; js "png"; js "gif"; js "webp"; js "svg"; js "bmp"]
  | Pdf => [js "pdf"]
  | Csv => [js "csv"]
  | Excel => [js "xlsx"; js "xls"]
  | Text => [js "txt"]
  | Markdown => [js "md"; js "markdown"]
  | Video => [js "mp4"; js "webm"; js "mov"; js "avi"; js "mkv"]
  end.

(** The name (in lower case) ends with a dot and an extension of [t]. *)
Definition hasExtension (t : SupportedFileType) (name : list N) : bool :=
  existsb (fun e => endsWith name (46%N :: e)) (extensionsOf t).

(** The page entry that the extraction makes of page [i] of a document. *)
Definition pageContentOf (pdf : PdfDocument) (i : nat) : PageContent :=
  {| pageNumber := i;
     page_text := pageTextOf (getPage pdf i);
     page_imageBase64 := Some (renderedPng (getPage pdf i)) |}.

(** A document of [n] pages; page [i] reads [page i]. *)
Definition samplePdf (n : nat) : PdfDocument :=
  {| numPages := n;
     getPage := fun i => {| textItems := [js " page"; natToString i ++ [10%N]];
                            renderedPng := js "iVBORw0KGgo=" |} |}.

(** The distance of two consecutive timestamps in exact arithmetic. *)
Definition frameInterval (duration : Q) (frameCount : Z) : Q :=
  duration / inject_Z (frameCount + 1).

(** [clamp x lo hi] *)
Definition clamp (x lo hi : Z) : Z :=
  if (x <? lo)%Z then lo else if (hi <? x)%Z then hi else x.

(** The frame that the extraction captures at index [i] of [frameCount]. *)
Definition frameOf (video : VideoElement) (frameCount : Z) (i : nat) : VideoFrame :=
  {| timestamp := frameTimestamp (video_duration video) frameCount i;
     frame_imageBase64 :=
       captureFrame video (frameTimestamp (video_duration video) frameCount i) |}.

(** A video of the given duration; every captured frame is the same image. *)
Definition sampleVideo (duration : Q) : VideoElement :=
  {| video_duration := duration; captureFrame := fun _ => js "/9j/4AAQ" |}.

(** The whole value is a decimal literal: nothing is left after it. *)
Definition parsesFullyAsNumber (value : list N) : bool :=
  match readDecimalLiteral value with
  | Some (_, []) => true
  | _ => false
  end.

(** The column headers of a CSV file: the fields of its first line that is
    not blank. *)
Definition csvHeaders (file : File) : list (list N) :=
  match csvLines (file_text file) with
  | first :: _ => parseCsvLine first
  | [] => []
  end.

Definition protoKey : list N := js "__proto__".

(** A workbook for the examples: what the xlsx library gives for a sheet of
    two rows under the headers [region] and [signups], and a text rendering
    that tells the number of the headers it is given. *)
Definition stockSheet : list DataRow :=
  [ {[ js "region" := CellString (js "north");
       js "signups" := CellNumber (NumDecimal false 12 0) ]};
    {[ js "region" := CellString (js "south");
       js "signups" := CellNumber (NumDecimal false 7 0) ]} ].

Definition stockWorkbook : File :=
  {| file_name := js "signups.xlsx";
     file_type := js "application/vnd.openxmlformats-officedocument.spreadsheetml.sheet";
     file_size := 4096%N;
     file_text := [] |}.

Definition headerSummary (headers : list (list N)) (rows : list DataRow) : list N :=
  natToString (length headers) ++ js " headers".

(** A sheet of two rows of which the first has no key [signups]. *)
Definition raggedSheet : list DataRow :=
  [ {[ js "region" := CellString (js "north") ]};
    {[ js "region" := CellString (js "south");
       js "signups" := CellNumber (NumDecimal false 7 0) ]} ].

(** A text rendering for the examples. *)
Definition noSummary (headers : list (list N)) (rows : list DataRow) : list N := [].

Definition csvFile (content : list N) : File :=
  sampleFile (js "table.csv") (js "text/csv") content.

(** [qty,price] / [5 apples,"1,234"] / [12.5,-3e2] *)
Definition stockCsv : File :=
  csvFile (js "qty,price" ++ [10%N] ++ js "5 apples," ++ [34%N] ++ js "1,234"
           ++ [34%N; 10%N] ++ js "12.5,-3e2").

(** [name,signups,revenue] alone. *)
Definition headerOnlyCsv : File := csvFile (js "name,signups,revenue" ++ [10%N]).

(** [id,id] / [1,2] *)
Definition duplicateHeaderCsv : File := csvFile (js "id,id" ++ [10%N] ++ js "1,2").

(** [__proto__,b] / [1,2] *)
Definition protoHeaderCsv : File := csvFile (js "__proto__,b" ++ [10%N] ++ js "1,2").

(** [a,b,c] / [1] / [x,y,z,w] *)
Definition raggedCsv : File :=
  csvFile (js "a,b,c" ++ [10%N] ++ js "1" ++ [10%N; 10%N] ++ js "x,y,z,w").

(** The text starts like a number: after its leading white space and one
    optional sign comes [Infinity], a digit, or a dot and a digit. *)
Definition startsLikeNumber (value : list N) : bool :=
  let unsigned :=
    match trimStart value with
    | c :: rest => if ((c =? 43) || (c =? 45))%N then rest else c :: rest
    | [] => []
    end in
  startsWith unsigned (js "Infinity")
  || match unsigned with
     | c :: rest =>
         isDigit c
         || (c =? 46)%N && match rest with d :: _ => isDigit d | [] => false end
     | [] => false
     end.

(** The inline images of a list of parts, each with its media type, in the
    order of the parts. *)
Definition inlineImages (parts : list Part) : list (list N * list N) :=
  flat_map (fun part =>
              match part with
              | InlineData partData partMimeType => [(partData, partMimeType)]
              | TextPart _ => []
              end) parts.

(** The text parts of a list of parts, in their order. *)
Definition textParts (parts : list Part) : list (list N) :=
  flat_map (fun part =>
              match part with
              | TextPart partText => [partText]
              | InlineData _ _ => []
              end) parts.

(** The renderings of the pages that have one, as PNG images. *)
Definition pngImages (pages : list PageContent) : list (list N * list N) :=
  flat_map (fun page =>
              match page_imageBase64 page with
              | Some (c :: s) => [(c :: s, js "image/png")]
              | _ => []
              end) pages.

Definition jpegImages (frames : list VideoFrame) : list (list N * list N) :=
  List.map (fun frame => (frame_imageBase64 frame, js "image/jpeg")) frames.

(** An environment for the examples: ASCII case mapping, a reader that
    answers a fixed data URL, a PDF library, a spreadsheet and a video
    loader that answer fixed documents. *)
Definition sampleEnvironment (dataUrl : list N) (pdf : PdfDocument)
    (rows : list DataRow) (video : VideoElement) : Environment :=
  {| env_toLowerCase := asciiToLowerCase;
     env_readAsDataURL := fun _ => ReaderLoaded (Some dataUrl);
     env_pdfjsLib := Some (fun _ => Return pdf);
     env_sheetToJson := fun _ => Return rows;
     env_loadMetadata := fun _ => Return video;
     env_numberToString := fun _ => js "0";
     env_inheritedProperty := fun _ => None |}.

Definition plainEnvironment : Environment :=
  sampleEnvironment [] (samplePdf 7) [] (sampleVideo (inject_Z 100)).

(** A state for the examples: one creation, shown and in the history. *)
Definition sampleCreation : Creation :=
  {| creation_id := js "c-1";
     creation_name := js "pitch.txt";
     html := js "<p>v1</p>";
     originalImage := None;
     creation_outputType := Some (js "flashcard-drill");
     sourceFileType := Some Text;
     creation_metadata := None;
     creation_timestamp := Some 1000%Z |}.

Definition sampleState : AppState :=
  {| activeCreation := Some sampleCreation;
     isGenerating := false;
     isRefining := false;
     history := [sampleCreation];
     pendingFile := None;
     selectedOutputType := None;
     showOutputSelector := false;
     processingFile := false;
     isAutoSelecting := false |}.

Definition pendingState (t : SupportedFileType) (selected : OutputType) : AppState :=
  {| activeCreation := Some sampleCreation;
     isGenerating := false;
     isRefining := false;
     history := [sampleCreation];
     pendingFile := Some (sampleParsedFile t);
     selectedOutputType := Some selected;
     showOutputSelector := true;
     processingFile := false;
     isAutoSelecting := false |}.

Definition responseWith (markup : list N) : GenerateContentResponse :=
  {| response_text := Some markup |}.

(** The identifiers of the creations in the history, in its order. *)
Definition identifiers (state : AppState) : list (list N) :=
  List.map creation_id (history state).

(** The creation that is shown, if any, goes by an identifier of the
    history. *)
Definition shownIsListed (state : AppState) : Prop :=
  forall shown, activeCreation state = Some shown ->
                creation_id shown ∈ identifiers state.

(** An artifact for the examples, parsed whatever the file holds. *)
Definition sampleArtifact (identifier : list N) : Creation :=
  {| creation_id := identifier;
     creation_name := js "imported";
     html := js "<p>game</p>";
     originalImage := None;
     creation_outputType := Some (js "objection-arena");
     sourceFileType := Some Pdf;
     creation_metadata := None;
     creation_timestamp := None |}.

(** The engine number is the finite number [q]. *)
Definition isNumber (x : EngineNumber) (q : Q) : Prop :=
  match x with
  | Finite p => p == q
  | _ => False
  end.

(** A user for the examples. *)
Definition sampleUser (earnedBefore : list EarnedAchievement) : User :=
  {| user_id := js "u-1";
     currentSignups := 12;
     currentRevenue := 50000;
     streak := 3;
     user_achievements := earnedBefore |}.

Definition sampleAchievement (identifier metric : list N) (repeatable : bool)
    (threshold : Q) : Achievement :=
  {| achievement_id := identifier;
     isRepeatable := repeatable;
     criteria_metric := metric;
     criteria_value := threshold |}.

(** Whether the value of the user for the metric of an achievement reaches
    its threshold; an unknown metric is never reached. *)
Definition reaches (user : User) (achievement : Achievement) : bool :=
  if strEqb (criteria_metric achievement) (js "revenue")
  then Qle_bool (criteria_value achievement) (currentRevenue user)
  else if strEqb (criteria_metric achievement) (js "signups")
  then Qle_bool (criteria_value achievement) (currentSignups user)
  else if strEqb (criteria_metric achievement) (js "streak")
  then Qle_bool (criteria_value achievement) (streak user)
  else false.

(** The identifiers of the achievements that a user has earned. *)
Definition earnedIdentifiers (user : User) : list (list N) :=
  List.map (fun ea => achievement_id (earned ea)) (user_achievements user).

(** An achievement that a check may award to a user: it is repeatable or
    not yet among the earned ones, and the user reaches its threshold. *)
Definition awardable (user : User) (achievement : Achievement) : bool :=
  (isRepeatable achievement
   || negb (bool_decide (achievement_id achievement ∈ earnedIdentifiers user)))
  && reaches user achievement.

(** * Properties *)

(** ** Strings *)

Lemma allWhiteSpace_app (a b : list N) :
  allWhiteSpace (a ++ b) = allWhiteSpace a && allWhiteSpace b.
Proof. apply forallb_app. Qed.

Lemma trimStart_allWhiteSpace (s : list N) :
  allWhiteSpace s = true -> trimStart s = [].
Proof.
  induction s as [|c s IH]; simpl; [done|].
  destruct (isWhiteSpace c); simpl; [exact IH | discriminate].
Qed.

Lemma trimEnd_allWhiteSpace (s : list N) :
  allWhiteSpace s = true -> trimEnd s = [].
Proof.
  destruct s as [|c s]; [done|]. intros H. unfold trimEnd. by rewrite H.
Qed.

(** What [trimStart] removes is white space, and what it leaves does not
    start with white space. *)
Lemma trimStart_split (s : list N) :
  exists w, s = w ++ trimStart s /\ allWhiteSpace w = true.
Proof.
  induction s as [|c s [w [Hs Hw]]]; simpl.
  - by exists [].
  - destruct (isWhiteSpace c) eqn:Hc.
    + exists (c :: w). simpl. rewrite Hc, Hw. split; [by f_equal | done].
    + by exists [].
Qed.

Lemma trimEnd_cons (c : N) (s : list N) :
  trimEnd (c :: s) = if allWhiteSpace (c :: s) then [] else c :: trimEnd s.
Proof. reflexivity. Qed.

Lemma trimEnd_split (s : list N) :
  exists w, s = trimEnd s ++ w /\ allWhiteSpace w = true.
Proof.
  induction s as [|c s [w [Hs Hw]]].
  - by exists [].
  - rewrite trimEnd_cons.
    destruct (allWhiteSpace (c :: s)) eqn:Hall.
    + by exists (c :: s).
    + exists w. split; [simpl; by f_equal | done].
Qed.

Lemma trimEnd_idem (s : list N) : trimEnd (trimEnd s) = trimEnd s.
Proof.
  induction s as [|c s IH]; [done|].
  rewrite trimEnd_cons.
  destruct (allWhiteSpace (c :: s)) eqn:Hall; [done|].
  rewrite trimEnd_cons.
  destruct (allWhiteSpace (c :: trimEnd s)) eqn:Hall'.
  - exfalso. destruct (trimEnd_split s) as [w [Hs Hw]].
    rewrite Hs in Hall.
    change (c :: trimEnd s ++ w) with ((c :: trimEnd s) ++ w) in Hall.
    rewrite allWhiteSpace_app, Hall', Hw in Hall. discriminate.
  - by rewrite IH.
Qed.

Lemma trimStart_idem (s : list N) : trimStart (trimStart s) = trimStart s.
Proof.
  induction s as [|c s IH]; simpl; [done|].
  destruct (isWhiteSpace c) eqn:Hc; [done|]. simpl. by rewrite Hc.
Qed.

Lemma trimStart_trimEnd (s : list N) : trimStart (trimEnd s) = trimEnd (trimStart s).
Proof.
  induction s as [|c s IH]; [done|].
  rewrite trimEnd_cons. simpl.
  destruct (isWhiteSpace c) eqn:Hc; simpl.
  - destruct (allWhiteSpace s) eqn:Hall; simpl.
    + by rewrite (trimStart_allWhiteSpace s Hall).
    + by rewrite Hc.
  - by rewrite Hc.
Qed.

Lemma trim_idem (s : list N) : trim (trim s) = trim s.
Proof.
  unfold trim.
  by rewrite trimStart_trimEnd, trimStart_idem, trimEnd_idem.
Qed.

Lemma trimEnd_app_whiteSpace (a w : list N) :
  allWhiteSpace w = true -> trimEnd (a ++ w) = trimEnd a.
Proof.
  intros Hw. induction a as [|c a IH]; simpl app.
  - by apply trimEnd_allWhiteSpace.
  - rewrite !trimEnd_cons, IH.
    change (c :: a ++ w) with ((c :: a) ++ w).
    by rewrite allWhiteSpace_app, Hw, andb_true_r.
Qed.

Lemma trimEnd_snoc (a : list N) (c : N) :
  isWhiteSpace c = false -> trimEnd (a ++ [c]) = a ++ [c].
Proof.
  intros Hc. induction a as [|d a IH]; simpl app.
  - rewrite trimEnd_cons. simpl. by rewrite Hc.
  - rewrite trimEnd_cons, IH.
    change (d :: a ++ [c]) with ((d :: a) ++ [c]).
    rewrite allWhiteSpace_app. simpl. by rewrite Hc, andb_false_r.
Qed.

Lemma codeUnitEqb_eq (a b : N) : codeUnitEqb a b = true <-> a = b.
Proof. apply N.eqb_eq. Qed.

Lemma strEqb_eq (a b : list N) : strEqb a b = true <-> a = b.
Proof.
  revert b. induction a as [|x a IH]; intros [|y b]; simpl; try done.
  rewrite andb_true_iff, codeUnitEqb_eq, IH. split.
  - by intros [-> ->].
  - intros [= -> ->]. done.
Qed.

Lemma matchPrefix_exact (pat s rest : list N) :
  matchPrefix codeUnitEqb pat s = Some rest <-> s = pat ++ rest.
Proof.
  revert s. induction pat as [|p pat IH]; intros s; simpl.
  - split; congruence.
  - destruct s as [|c s]; [done|].
    destruct (codeUnitEqb p c) eqn:Hpc.
    + apply codeUnitEqb_eq in Hpc as ->. rewrite IH. split; congruence.
    + split; [done|]. intros [= -> _]. unfold codeUnitEqb in Hpc.
      by rewrite N.eqb_refl in Hpc.
Qed.

Lemma startsWith_prefix (s pat : list N) :
  startsWith s pat = true <-> pat `prefix_of` s.
Proof.
  unfold startsWith. split.
  - destruct (matchPrefix codeUnitEqb pat s) as [rest|] eqn:H; [|done].
    intros _. apply matchPrefix_exact in H. by exists rest.
  - intros [rest ->].
    by rewrite (proj2 (matchPrefix_exact pat (pat ++ rest) rest) eq_refl).
Qed.

Lemma endsWith_suffix (s pat : list N) :
  endsWith s pat = true <-> pat `suffix_of` s.
Proof.
  unfold endsWith. rewrite startsWith_prefix. split.
  - intros [k Hk]. exists (rev k).
    apply (f_equal (@rev N)) in Hk. rewrite rev_involutive in Hk.
    by rewrite Hk, rev_app_distr, rev_involutive.
  - intros [k ->]. exists (rev k). by rewrite rev_app_distr.
Qed.

(** ** Response cleaning *)

Lemma ciEqb_backtick (c : N) : ciEqb 96 c = codeUnitEqb 96 c.
Proof.
  unfold ciEqb, codeUnitEqb. change (asciiUpper 96) with 96%N.
  unfold asciiUpper.
  destruct ((97 <=? c) && (c <=? 122))%N eqn:H; [|done].
  apply andb_true_iff in H as [H1 H2]. apply N.leb_le in H1, H2.
  transitivity false; [|symmetry]; apply N.eqb_neq; lia.
Qed.

Lemma matchPrefix_fence (x : list N) :
  matchPrefix ciEqb fence x = matchPrefix codeUnitEqb fence x.
Proof.
  change fence with [96; 96; 96]%N.
  destruct x as [|a [|b [|c x]]]; simpl; rewrite ?ciEqb_backtick; done.
Qed.

Lemma replaceLeadingFence_id (x : list N) :
  hasLeadingFence x = false -> replaceLeadingFence x = x.
Proof.
  unfold hasLeadingFence, startsWith, replaceLeadingFence.
  rewrite matchPrefix_fence.
  by destruct (matchPrefix codeUnitEqb fence x).
Qed.

Lemma matchPrefix_app (eqc : N -> N -> bool) (a b x : list N) :
  matchPrefix eqc (a ++ b) x =
  match matchPrefix eqc a x with
  | Some rest => matchPrefix eqc b rest
  | None => None
  end.
Proof.
  revert x. induction a as [|p a IH]; intros x; simpl; [done|].
  destruct x as [|c x]; [done|]. by destruct (eqc p c).
Qed.

Lemma replaceLeadingHtmlFence_id (x : list N) :
  hasLeadingFence x = false -> replaceLeadingHtmlFence x = x.
Proof.
  unfold hasLeadingFence, startsWith, replaceLeadingHtmlFence.
  change (js "```html") with (fence ++ js "html").
  rewrite matchPrefix_app, matchPrefix_fence.
  by destruct (matchPrefix codeUnitEqb fence x).
Qed.

Lemma replaceTrailingFence_cons (c : N) (x : list N) :
  replaceTrailingFence (c :: x) =
  match matchPrefix ciEqb fence (c :: x) with
  | Some rest =>
      if allWhiteSpace rest then [] else c :: replaceTrailingFence x
  | None => c :: replaceTrailingFence x
  end.
Proof. reflexivity. Qed.

Lemma replaceTrailingFence_cases (x : list N) :
  replaceTrailingFence x = x
  \/ exists p w, x = p ++ fence ++ w /\ allWhiteSpace w = true.
Proof.
  induction x as [|c x IH]; [by left|].
  rewrite replaceTrailingFence_cons, matchPrefix_fence.
  assert (Hnext : c :: replaceTrailingFence x = c :: x
                  \/ exists p w, c :: x = p ++ fence ++ w /\ allWhiteSpace w = true).
  { destruct IH as [->|(p & w & -> & Hw)]; [by left|].
    right. by exists (c :: p), w. }
  destruct (matchPrefix codeUnitEqb fence (c :: x)) as [rest|] eqn:Hm; [|done].
  destruct (allWhiteSpace rest) eqn:Hw; [|done].
  right. exists [], rest. split; [|done].
  exact (proj1 (matchPrefix_exact fence (c :: x) rest) Hm).
Qed.

Lemma hasTrailingFence_intro (p w : list N) :
  allWhiteSpace w = true -> hasTrailingFence (p ++ fence ++ w) = true.
Proof.
  intros Hw. unfold hasTrailingFence.
  rewrite app_assoc, (trimEnd_app_whiteSpace _ w Hw).
  change fence with ([96; 96] ++ [96])%N.
  rewrite app_assoc, trimEnd_snoc by done.
  apply endsWith_suffix. rewrite <- app_assoc. by exists p.
Qed.

Lemma replaceTrailingFence_id (x : list N) :
  hasTrailingFence x = false -> replaceTrailingFence x = x.
Proof.
  intros H. destruct (replaceTrailingFence_cases x) as [|(p & w & -> & Hw)]; [done|].
  by rewrite hasTrailingFence_intro in H.
Qed.

(** What [cleanResponse] returns is trimmed. *)
Lemma cleanResponse_trimmed (x : list N) : trim (cleanResponse x) = cleanResponse x.
Proof. unfold cleanResponse. apply trim_idem. Qed.

Lemma cleanResponse_no_fence (x : list N) :
  hasLeadingFence x = false -> hasTrailingFence x = false ->
  cleanResponse x = trim x.
Proof.
  intros Hl Ht. unfold cleanResponse.
  by rewrite (replaceLeadingHtmlFence_id x Hl), (replaceLeadingFence_id x Hl),
    (replaceTrailingFence_id x Ht).
Qed.

(** C1 (amended).  A string with no leading and no trailing code fence is
    cleaned to itself with its surrounding white space trimmed, so it is
    returned unchanged when it has no surrounding white space; and cleaning
    twice is cleaning once for every string whose cleaned form has no
    leading and no trailing fence left. *)
Theorem cleanResponse_fence_free :
  (forall x : list N,
     hasLeadingFence x = false -> hasTrailingFence x = false ->
     cleanResponse x = trim x /\ (trim x = x -> cleanResponse x = x))
  /\ (forall x : list N,
        hasLeadingFence (cleanResponse x) = false ->
        hasTrailingFence (cleanResponse x) = false ->
        cleanResponse (cleanResponse x) = cleanResponse x).
Proof.
  split.
  - intros x Hl Ht. pose proof (cleanResponse_no_fence x Hl Ht) as H.
    split; [exact H | intros Hx; by rewrite H].
  - intros x Hl Ht.
    rewrite (cleanResponse_no_fence _ Hl Ht). apply cleanResponse_trimmed.
Qed.

Lemma cleanResponse_fence_free_witness :
  (hasLeadingFence plainMarkup = false /\ hasTrailingFence plainMarkup = false
   /\ trim plainMarkup = plainMarkup /\ cleanResponse plainMarkup = plainMarkup)
  /\ (hasLeadingFence (cleanResponse fencedMarkup) = false
      /\ hasTrailingFence (cleanResponse fencedMarkup) = false
      /\ cleanResponse (cleanResponse fencedMarkup) = cleanResponse fencedMarkup).
Proof.
  split.
  - split; [reflexivity|]. split; [reflexivity|]. split; [reflexivity|].
    apply (proj1 cleanResponse_fence_free plainMarkup); reflexivity.
  - split; [reflexivity|]. split; [reflexivity|].
    apply (proj2 cleanResponse_fence_free fencedMarkup); reflexivity.
Defined.

(** C1, as stated, fails twice.  A fenced answer that starts with a newline
    keeps its opening fence at the first cleaning and loses it at the
    second; and markup without any fence but with a leading space is not
    returned unchanged. *)
Lemma cleanResponse_not_idempotent :
  cleanResponse (cleanResponse fencedAfterNewline) <> cleanResponse fencedAfterNewline
  /\ (hasLeadingFence paddedMarkup = false
      /\ hasTrailingFence paddedMarkup = false
      /\ cleanResponse paddedMarkup <> paddedMarkup).
Proof.
  split; [|split; [reflexivity|split; [reflexivity|]]];
    intros H; vm_compute in H; discriminate.
Qed.

Example cleanResponse_fencedAfterNewline :
  cleanResponse fencedAfterNewline = js "```html" ++ [10%N] ++ js "<p>hi</p>"
  /\ cleanResponse (cleanResponse fencedAfterNewline) = js "<p>hi</p>".
Proof. split; reflexivity. Qed.

Example cleanResponse_fencedMarkup : cleanResponse fencedMarkup = js "<p>hi</p>".
Proof. reflexivity. Qed.

(** ** Auto-selection *)

Lemma validTypes_ids : validTypes = List.map outputTypeId concreteOutputTypes.
Proof. reflexivity. Qed.

Lemma arrayIncludes_In (l : list (list N)) (x : list N) :
  arrayIncludes l x = true <-> In x l.
Proof.
  unfold arrayIncludes. rewrite existsb_exists. split.
  - intros (y & Hy & Heq). apply strEqb_eq in Heq. by subst.
  - intros Hx. exists x. split; [done|]. by apply strEqb_eq.
Qed.

Lemma validTypes_includes (r : list N) :
  arrayIncludes validTypes r = true <->
  exists o, In o concreteOutputTypes /\ r = outputTypeId o.
Proof.
  rewrite arrayIncludes_In, validTypes_ids, in_map_iff.
  split; intros (o & H1 & H2); exists o; by split.
Qed.

Lemma concreteOutputTypes_not_auto (o : OutputType) :
  In o concreteOutputTypes -> o <> Auto.
Proof. intros H ->. simpl in H. intuition discriminate. Qed.

Lemma getDefaultOutputType_concrete (t : SupportedFileType) :
  In (getDefaultOutputType t) concreteOutputTypes.
Proof. destruct t; simpl; tauto. Qed.

Lemma autoSelectOutputType_Return (toLowerCase : list N -> list N)
    (response : GenerateContentResponse) (parsedFile : ParsedFile) :
  autoSelectOutputType toLowerCase (Return response) parsedFile =
  if arrayIncludes validTypes (normalizedAnswer toLowerCase response)
  then Return (normalizedAnswer toLowerCase response)
  else Return (outputTypeId (getDefaultOutputType (parsed_type parsedFile))).
Proof.
  unfold autoSelectOutputType, normalizedAnswer, tryCatch, bind.
  by destruct (arrayIncludes validTypes _).
Qed.

Lemma autoSelectOutputType_Throw (toLowerCase : list N -> list N)
    (e : JsError) (parsedFile : ParsedFile) :
  autoSelectOutputType toLowerCase (Throw e) parsedFile =
  Return (outputTypeId (getDefaultOutputType (parsed_type parsedFile))).
Proof. reflexivity. Qed.

(** An answer that is a known identifier once normalised is returned. *)
Lemma autoSelectOutputType_accepts (toLowerCase : list N -> list N)
    (response : GenerateContentResponse) (parsedFile : ParsedFile) (o : OutputType) :
  In o concreteOutputTypes ->
  normalizedAnswer toLowerCase response = outputTypeId o ->
  autoSelectOutputType toLowerCase (Return response) parsedFile
  = Return (outputTypeId o).
Proof.
  intros Ho Hn. rewrite autoSelectOutputType_Return, Hn.
  rewrite (proj2 (validTypes_includes (outputTypeId o))); [done|].
  by exists o.
Qed.

(** C2.  Whatever the file and whatever the model call does, auto-selection
    returns, without throwing, the identifier of one of the nine concrete
    output types, never [auto]; when the call throws, or when the answer,
    once trimmed, put in lower case and stripped of quotes, is none of the
    nine identifiers, the result is the default of the file type, and that
    default is defined, and concrete, for each of the seven file types. *)
Theorem autoSelectOutputType_total (toLowerCase : list N -> list N)
    (generateContent : Completion GenerateContentResponse)
    (parsedFile : ParsedFile) :
  (exists o, In o concreteOutputTypes /\ o <> Auto
             /\ autoSelectOutputType toLowerCase generateContent parsedFile
                = Return (outputTypeId o))
  /\ (noValidAnswer toLowerCase generateContent ->
      autoSelectOutputType toLowerCase generateContent parsedFile
      = Return (outputTypeId (getDefaultOutputType (parsed_type parsedFile))))
  /\ (forall t : SupportedFileType,
        In (getDefaultOutputType t) concreteOutputTypes
        /\ getDefaultOutputType t
           = match t with
             | Image => DamageDetective
             | Video => InspectionWalkthrough
             | Csv | Excel => CommissionTycoon
             | Pdf | Text | Markdown => FlashcardDrill
             end).
Proof.
  pose proof (getDefaultOutputType_concrete (parsed_type parsedFile)) as Hd.
  split; [|split].
  - destruct generateContent as [response|e].
    + rewrite autoSelectOutputType_Return.
      destruct (arrayIncludes validTypes _) eqn:Hv.
      * apply validTypes_includes in Hv as (o & Ho & ->).
        exists o. auto using concreteOutputTypes_not_auto.
      * eexists. eauto using concreteOutputTypes_not_auto.
    + rewrite autoSelectOutputType_Throw.
      eexists. eauto using concreteOutputTypes_not_auto.
  - destruct generateContent as [response|e]; [|done].
    intros Hno. rewrite autoSelectOutputType_Return.
    destruct (arrayIncludes validTypes _) eqn:Hv; [|done].
    apply validTypes_includes in Hv as (o & Ho & Heq).
    by destruct (Hno o Ho).
  - intros t. split; [apply getDefaultOutputType_concrete | by destruct t].
Qed.

Lemma autoSelectOutputType_total_witness :
  noValidAnswer asciiToLowerCase (Throw (Error (js "network down")))
  /\ noValidAnswer asciiToLowerCase (Return chattyResponse)
  /\ autoSelectOutputType asciiToLowerCase (Throw (Error (js "network down")))
       (sampleParsedFile Csv) = Return (js "commission-tycoon")
  /\ autoSelectOutputType asciiToLowerCase (Return chattyResponse)
       (sampleParsedFile Video) = Return (js "inspection-walkthrough").
Proof.
  assert (H1 : noValidAnswer asciiToLowerCase (Throw (Error (js "network down"))))
    by exact I.
  assert (H2 : noValidAnswer asciiToLowerCase (Return chattyResponse)).
  { intros o Ho. simpl in Ho.
    repeat (destruct Ho as [<-|Ho]; [vm_compute; discriminate|]). destruct Ho. }
  split; [exact H1|]. split; [exact H2|]. split.
  - exact (proj1 (proj2 (autoSelectOutputType_total asciiToLowerCase _
                           (sampleParsedFile Csv))) H1).
  - exact (proj1 (proj2 (autoSelectOutputType_total asciiToLowerCase _
                           (sampleParsedFile Video))) H2).
Defined.

Example autoSelectOutputType_quoted_answer :
  autoSelectOutputType asciiToLowerCase (Return quotedResponse)
    (sampleParsedFile Image) = Return (js "flashcard-drill").
Proof. reflexivity. Qed.

(** ** Responses without text *)

Lemma cleanResponse_failedPlaceholder :
  cleanResponse failedPlaceholder = failedPlaceholder.
Proof. reflexivity. Qed.

(** C3 (amended).  When the response of the model has no text, a generation
    call succeeds and returns the HTML comment placeholder, which cleaning
    leaves as it is; a refinement call succeeds as well and returns the
    current markup, cleaned. *)
Theorem missing_text_results (parsedFile : ParsedFile) (outputType : OutputType)
    (additionalInstructions : option (list N))
    (currentHtml instruction : list N)
    (refineImageBase64 refineImageMimeType : option (list N)) :
  generateTraining (Return responseWithoutText) parsedFile outputType
    additionalInstructions
  = Return (cleanResponse failedPlaceholder)
  /\ cleanResponse failedPlaceholder = failedPlaceholder
  /\ refineApp (Return responseWithoutText) currentHtml instruction
       refineImageBase64 refineImageMimeType
     = Return (cleanResponse currentHtml).
Proof. repeat split. Qed.

(** C3, as stated, fails for refinement: without text in the response,
    refining some markup returns that markup and not the placeholder. *)
Lemma refineApp_missing_text_not_placeholder :
  refineApp (Return responseWithoutText) plainMarkup (js "add a timer") None None
  = Return plainMarkup
  /\ refineApp (Return responseWithoutText) plainMarkup (js "add a timer") None None
     <> Return (cleanResponse failedPlaceholder).
Proof. split; [reflexivity|]. intros H. vm_compute in H. discriminate. Qed.

(** The empty text is treated as the missing one. *)
Lemma generateTraining_empty_text (parsedFile : ParsedFile) (outputType : OutputType)
    (additionalInstructions : option (list N)) :
  generateTraining (Return {| response_text := Some [] |}) parsedFile outputType
    additionalInstructions
  = Return failedPlaceholder.
Proof. reflexivity. Qed.

(** A failed call is passed on by both operations. *)
Lemma generateTraining_refineApp_rethrow (e : JsError) (parsedFile : ParsedFile)
    (outputType : OutputType) (currentHtml instruction : list N) :
  generateTraining (Throw e) parsedFile outputType None = Throw e
  /\ refineApp (Throw e) currentHtml instruction None None = Throw e.
Proof. split; reflexivity. Qed.

(** ** Output registry *)

Lemma includesFileType_In (l : list SupportedFileType) (t : SupportedFileType) :
  includesFileType l t = true <-> In t l.
Proof.
  unfold includesFileType. rewrite existsb_exists. split.
  - intros (x & Hx & Heq). apply bool_decide_eq_true in Heq. by subst.
  - intros Ht. exists t. split; [done|]. by apply bool_decide_eq_true.
Qed.

Lemma filter_sublist {A} (f : A -> bool) (l : list A) :
  sublist (List.filter f l) l.
Proof.
  induction l as [|x l IH]; simpl; [constructor|].
  destruct (f x); by constructor.
Qed.

(** Each entry of the registry is declared under its own identifier, and no
    identifier is declared twice. *)
Lemma OUTPUT_REGISTRY_keys (promptFragmentOf : OutputType -> list N) :
  List.map fst (OUTPUT_REGISTRY promptFragmentOf)
  = List.map id (objectValues (OUTPUT_REGISTRY promptFragmentOf))
  /\ List.map fst (OUTPUT_REGISTRY promptFragmentOf) = concreteOutputTypes ++ [Auto].
Proof. split; reflexivity. Qed.

(** C9.  For a file type [t], the applicable outputs are exactly the entries
    of the registry other than [auto] whose applicable inputs contain [t],
    and they come in the order in which the registry declares them. *)
Theorem getApplicableOutputs_exact (promptFragmentOf : OutputType -> list N)
    (t : SupportedFileType) :
  (forall config : OutputConfig,
     In config (getApplicableOutputs promptFragmentOf t) <->
     In config (objectValues (OUTPUT_REGISTRY promptFragmentOf))
     /\ id config <> Auto
     /\ In t (applicableInputs config))
  /\ sublist (getApplicableOutputs promptFragmentOf t)
       (objectValues (OUTPUT_REGISTRY promptFragmentOf))
  /\ NoDup (List.map id (getApplicableOutputs promptFragmentOf t)).
Proof.
  split; [|split].
  - intros config. unfold getApplicableOutputs.
    rewrite filter_In, andb_true_iff, negb_true_iff, bool_decide_eq_false,
      includesFileType_In.
    tauto.
  - apply filter_sublist.
  - destruct t; apply (bool_decide_unpack _); by vm_compute.
Qed.

(** The applicable outputs of each file type, by identifier. *)
Example getApplicableOutputs_table (promptFragmentOf : OutputType -> list N) :
  let ids t := List.map id (getApplicableOutputs promptFragmentOf t) in
  ids Image = [DamageDetective; InspectionWalkthrough]
  /\ ids Pdf = concreteOutputTypes
  /\ ids Csv = [CommissionTycoon; FlashcardDrill; InteractiveTimeline; ScenarioBuilder]
  /\ ids Excel = [CommissionTycoon; FlashcardDrill]
  /\ ids Text = [FieldSimulator; CommissionTycoon; ObjectionArena;
                 InspectionWalkthrough; FlashcardDrill; InteractiveTimeline;
                 ScenarioBuilder; PitchPerfector]
  /\ ids Markdown = ids Text
  /\ ids Video = [].
Proof. repeat split. Qed.

(** ** File classification *)

Lemma includes_infix (s pat : list N) :
  includes s pat = true <-> exists a b, s = a ++ pat ++ b.
Proof.
  induction s as [|c s IH]; simpl.
  - rewrite orb_false_r, startsWith_prefix. split.
    + intros [b Hb]. by exists [], b.
    + intros (a & b & H). symmetry in H.
      apply app_eq_nil in H as [-> H]. apply app_eq_nil in H as [-> ->].
      by exists [].
  - rewrite orb_true_iff, startsWith_prefix, IH. split.
    + intros [[b Hb]|(a & b & ->)]; [by exists [], b | by exists (c :: a), b].
    + intros ([|c' a] & b & H); simpl in H.
      * left. by exists b.
      * right. exists a, b. congruence.
Qed.

(** A name has one extension: two suffixes of one string are suffixes of
    one another. *)
Lemma endsWith_clash (name a b : list N) :
  endsWith name a = true -> endsWith name b = true ->
  endsWith a b || endsWith b a = false -> False.
Proof.
  rewrite !endsWith_suffix. intros Ha Hb Hab.
  apply orb_false_iff in Hab as [H1 H2].
  destruct (suffix_weak_total a b name Ha Hb) as [H|H];
    apply endsWith_suffix in H; congruence.
Qed.

Lemma detectFileType_by_mime (toLowerCase : list N -> list N) (file : File)
    (t : SupportedFileType) :
  mimeCategory (toLowerCase (file_type file)) = Some t ->
  detectFileType toLowerCase file = Return t.
Proof.
  unfold mimeCategory, detectFileType.
  repeat match goal with
         | |- context [if ?b then Some _ else _] => destruct b
         end; congruence.
Qed.

Lemma endsWith_other (name a b : list N) :
  endsWith name a = true -> endsWith a b || endsWith b a = false ->
  endsWith name b = false.
Proof.
  intros Ha Hab. destruct (endsWith name b) eqn:Hb; [|done].
  destruct (endsWith_clash name a b Ha Hb Hab).
Qed.

#[local] Arguments endsWith : simpl never.

Ltac evaluate_literals :=
  repeat match goal with
         | |- context [js ?s] =>
             let v := eval vm_compute in (js s) in change (js s) with v
         | H : context [js ?s] |- _ =>
             let v := eval vm_compute in (js s) in change (js s) with v in H
         end.

(** With [Hext : endsWith name e = true] at hand, settle every other test
    of an extension of [name] in the goal. *)
Ltac settle_extensions name Hext :=
  rewrite ?Hext;
  repeat match goal with
         | |- context [endsWith name ?e'] =>
             let H := fresh "H" in
             assert (H : endsWith name e' = false)
               by (apply (endsWith_other name _ e' Hext); vm_compute; reflexivity);
             rewrite !H; clear H
         end.

Lemma detectFileType_by_extension (toLowerCase : list N -> list N) (file : File)
    (t : SupportedFileType) :
  mimeCategory (toLowerCase (file_type file)) = None ->
  hasExtension t (toLowerCase (file_name file)) = true ->
  detectFileType toLowerCase file = Return t.
Proof.
  unfold mimeCategory, detectFileType.
  repeat match goal with
         | |- context [if ?b then Some _ else _] => destruct b
         end; try discriminate.
  intros _. generalize (toLowerCase (file_name file)) as name. intros name.
  unfold hasExtension, testExtension, videoExtensions, imageExtensions.
  destruct t; unfold extensionsOf; evaluate_literals; cbn [existsb];
    rewrite ?orb_false_r, ?orb_true_iff; intros Hext;
    repeat match goal with
           | H : _ \/ _ |- _ => destruct H as [H|H]
           end;
    settle_extensions name Hext; reflexivity.
Qed.

Lemma detectFileType_unsupported (toLowerCase : list N -> list N) (file : File) :
  mimeCategory (toLowerCase (file_type file)) = None ->
  (forall t, hasExtension t (toLowerCase (file_name file)) = false) ->
  detectFileType toLowerCase file
  = Throw (Error (js "Unsupported file type: "
                  ++ orElse (Some (toLowerCase (file_type file)))
                       (toLowerCase (file_name file)))).
Proof.
  unfold mimeCategory, detectFileType.
  repeat match goal with
         | |- context [if ?b then Some _ else _] => destruct b
         end; try discriminate.
  intros _. generalize (toLowerCase (file_name file)) as name. intros name Hno.
  pose proof (Hno Image) as HI. pose proof (Hno Pdf) as HP.
  pose proof (Hno Csv) as HC. pose proof (Hno Excel) as HE.
  pose proof (Hno Text) as HT. pose proof (Hno Markdown) as HM.
  pose proof (Hno Video) as HV. clear Hno.
  unfold hasExtension, testExtension, videoExtensions, imageExtensions,
    extensionsOf in *.
  evaluate_literals. cbn [existsb] in *.
  rewrite ?orb_false_r in *.
  repeat match goal with
         | H : _ || _ = false |- _ => apply orb_false_iff in H as [? ?]
         end.
  repeat match goal with
         | H : endsWith name ?e = false |- _ => rewrite !H; clear H
         end.
  reflexivity.
Qed.

(** C7.  A declared media type that falls in a known category decides the
    file type, whatever the file name is; when it falls in none, a known
    extension of the file name decides; when there is neither, the
    classification throws the error of the unsupported file type.  Both
    strings are compared in lower case. *)
Theorem detectFileType_classifies (toLowerCase : list N -> list N) (file : File) :
  (forall t, mimeCategory (toLowerCase (file_type file)) = Some t ->
             detectFileType toLowerCase file = Return t)
  /\ (forall t, mimeCategory (toLowerCase (file_type file)) = None ->
                hasExtension t (toLowerCase (file_name file)) = true ->
                detectFileType toLowerCase file = Return t)
  /\ (mimeCategory (toLowerCase (file_type file)) = None ->
      (forall t, hasExtension t (toLowerCase (file_name file)) = false) ->
      detectFileType toLowerCase file
      = Throw (Error (js "Unsupported file type: "
                      ++ orElse (Some (toLowerCase (file_type file)))
                           (toLowerCase (file_name file))))).
Proof.
  split; [|split].
  - intros t. apply detectFileType_by_mime.
  - intros t. apply detectFileType_by_extension.
  - apply detectFileType_unsupported.
Qed.

Lemma detectFileType_classifies_witness :
  detectFileType asciiToLowerCase (sampleFile (js "Report.CSV") (js "Image/PNG") [])
  = Return Image
  /\ detectFileType asciiToLowerCase (sampleFile (js "Notes.MD") [] [])
     = Return Markdown
  /\ detectFileType asciiToLowerCase
       (sampleFile (js "clip.webm") (js "application/octet-stream") [])
     = Return Video
  /\ detectFileType asciiToLowerCase
       (sampleFile (js "data.bin") (js "application/octet-stream") [])
     = Throw (Error (js "Unsupported file type: application/octet-stream")).
Proof.
  split; [|split; [|split]].
  - apply (proj1 (detectFileType_classifies asciiToLowerCase
                    (sampleFile (js "Report.CSV") (js "Image/PNG") [])) Image).
    reflexivity.
  - apply (proj1 (proj2 (detectFileType_classifies asciiToLowerCase
                           (sampleFile (js "Notes.MD") [] []))) Markdown);
      reflexivity.
  - apply (proj1 (proj2 (detectFileType_classifies asciiToLowerCase
                           (sampleFile (js "clip.webm")
                              (js "application/octet-stream") []))) Video);
      reflexivity.
  - apply (proj2 (proj2 (detectFileType_classifies asciiToLowerCase
                           (sampleFile (js "data.bin")
                              (js "application/octet-stream") []))));
      [reflexivity | intros []; reflexivity].
Defined.

(** The categories of media types, spelled out. *)
Lemma mimeCategory_cases (mime : list N) (t : SupportedFileType) :
  mimeCategory mime = Some t ->
  match t with
  | Image => js "image/" `prefix_of` mime
  | Pdf => mime = js "application/pdf"
  | Csv => mime = js "text/csv"
  | Excel => exists a b, mime = a ++ js "spreadsheet" ++ b
                         \/ mime = a ++ js "excel" ++ b
  | Video => js "video/" `prefix_of` mime
  | Markdown => mime = js "text/markdown"
  | Text => js "text/" `prefix_of` mime
  end.
Proof.
  unfold mimeCategory.
  destruct (startsWith mime (js "image/")) eqn:H1;
    [intros [= <-]; by apply startsWith_prefix|].
  destruct (strEqb mime (js "application/pdf")) eqn:H2;
    [intros [= <-]; by apply strEqb_eq|].
  destruct (strEqb mime (js "text/csv")) eqn:H3;
    [intros [= <-]; by apply strEqb_eq|].
  destruct (includes mime (js "spreadsheet") || includes mime (js "excel")) eqn:H4.
  { intros [= <-]. apply orb_true_iff in H4 as [H|H];
      apply includes_infix in H as (a & b & H); exists a, b; tauto. }
  destruct (startsWith mime (js "video/")) eqn:H5;
    [intros [= <-]; by apply startsWith_prefix|].
  destruct (strEqb mime (js "text/markdown")) eqn:H6;
    [intros [= <-]; by apply strEqb_eq|].
  destruct (startsWith mime (js "text/")) eqn:H7;
    [intros [= <-]; by apply startsWith_prefix|].
  discriminate.
Qed.

(** An absent media type is the empty string, which is in no category. *)
Example mimeCategory_empty : mimeCategory [] = None.
Proof. reflexivity. Qed.

(** ** PDF extraction *)

Lemma pdfPages_seq (pdf : PdfDocument) (remaining i : nat) (pages : list PageContent) :
  pdfPages pdf remaining i pages
  = pages ++ List.map (pageContentOf pdf) (seq i remaining).
Proof.
  revert i pages. induction remaining as [|n IH]; intros i pages; simpl.
  - by rewrite app_nil_r.
  - rewrite IH, <- app_assoc. reflexivity.
Qed.

Lemma processPdf_Return (getDocument : File -> Completion PdfDocument)
    (file : File) (pdf : PdfDocument) :
  getDocument file = Return pdf ->
  processPdf (Some getDocument) file
  = let entries :=
      List.map (pageContentOf pdf) (seq 1 (Nat.min (numPages pdf) 20)) in
    Return {| text := Some (join [10%N; 10%N] (List.map pageMarker entries));
              pages := Some entries; data := None; frames := None;
              rawBase64 := None |}.
Proof.
  intros Hdoc. unfold processPdf. rewrite Hdoc. unfold bind.
  by rewrite pdfPages_seq.
Qed.

(** Every PDF gives as many pages as it has, up to twenty. *)
Lemma processPdf_page_count (getDocument : File -> Completion PdfDocument)
    (file : File) (pdf : PdfDocument) :
  getDocument file = Return pdf ->
  exists content,
    processPdf (Some getDocument) file = Return content
    /\ length <$> pages content = Some (Nat.min (numPages pdf) 20).
Proof.
  intros Hdoc. rewrite (processPdf_Return _ _ _ Hdoc).
  eexists. split; [reflexivity|]. cbn [pages fmap option_fmap option_map].
  by rewrite List.length_map, length_seq.
Qed.

(** C5.  A PDF of more than 20 pages gives exactly 20 page entries,
    numbered 1 to 20 in this order, each with the text of the page of its
    number; the combined text is the texts of these pages, each after the
    marker of its page number, in the order of the pages 1 to 20.  The cap
    is the constant of the function: no argument sets it. *)
Theorem processPdf_first_twenty_pages (getDocument : File -> Completion PdfDocument)
    (file : File) (pdf : PdfDocument) :
  getDocument file = Return pdf ->
  20 < numPages pdf ->
  exists content entries,
    processPdf (Some getDocument) file = Return content
    /\ pages content = Some entries
    /\ length entries = 20
    /\ List.map pageNumber entries = seq 1 20
    /\ (forall i, i < 20 ->
          page_text <$> entries !! i = Some (pageTextOf (getPage pdf (S i))))
    /\ text content
       = Some (join [10%N; 10%N]
                 (List.map (fun n => js "[Page " ++ natToString n ++ js "]"
                                     ++ [10%N] ++ pageTextOf (getPage pdf n))
                    (seq 1 20))).
Proof.
  intros Hdoc Hn. rewrite (processPdf_Return _ _ _ Hdoc).
  replace (Nat.min (numPages pdf) 20) with 20 by lia.
  generalize (eq_refl (seq 1 20)). generalize (seq 1 20) at 1 3 4 5 as numbers.
  intros numbers Hnumbers.
  eexists. eexists. split; [reflexivity|]. cbn [pages text].
  split; [reflexivity|].
  split; [by rewrite List.length_map, Hnumbers, length_seq|].
  split; [by rewrite map_map, map_id|].
  split.
  - intros i Hi.
    assert (Hlook : numbers !! i = Some (S i)).
    { rewrite Hnumbers, lookup_seq. split; [done | lia]. }
    change (List.map (pageContentOf pdf) numbers)
      with (pageContentOf pdf <$> numbers).
    by rewrite list_lookup_fmap, Hlook.
  - by rewrite map_map.
Qed.

Lemma processPdf_first_twenty_pages_witness :
  exists content entries,
    processPdf (Some (fun _ => Return (samplePdf 23))) (sampleFile (js "a.pdf") [] [])
    = Return content
    /\ pages content = Some entries
    /\ length entries = 20
    /\ List.map pageNumber entries = seq 1 20.
Proof.
  destruct (processPdf_first_twenty_pages (fun _ => Return (samplePdf 23))
              (sampleFile (js "a.pdf") [] []) (samplePdf 23) eq_refl)
    as (content & entries & H1 & H2 & H3 & H4 & _).
  - simpl. lia.
  - exists content, entries. auto.
Defined.

Example processPdf_two_pages :
  bind (processPdf (Some (fun _ => Return (samplePdf 2)))
          (sampleFile (js "a.pdf") [] []))
    (fun content => Return (text content))
  = Return (Some (js "[Page 1]" ++ [10%N] ++ js "page 1" ++ [10%N; 10%N]
                  ++ js "[Page 2]" ++ [10%N] ++ js "page 2")).
Proof. reflexivity. Qed.

Example processPdf_not_loaded :
  processPdf None (sampleFile (js "a.pdf") [] [])
  = Throw (Error (js "PDF.js library not loaded")).
Proof. reflexivity. Qed.

(** ** Binary64 arithmetic *)

Section Binary64.

Local Open Scope Q_scope.

Lemma pow2_pos (z : Z) : 0 < 2 ^ z.
Proof. by apply Qpower_0_lt. Qed.

Lemma pow2_plus (a b : Z) : 2 ^ (a + b) == 2 ^ a * 2 ^ b.
Proof. by apply Qpower_plus. Qed.

Lemma pow2_minus (a b : Z) : 2 ^ (a - b) == 2 ^ a / 2 ^ b.
Proof. by apply Qpower_minus. Qed.

Lemma pow2_le (a b : Z) : (a <= b)%Z -> 2 ^ a <= 2 ^ b.
Proof. intros H. by apply Qpower_le_compat_l. Qed.

Lemma pow2_lt (a b : Z) : (a < b)%Z -> 2 ^ a < 2 ^ b.
Proof. intros H. by apply Qpower_lt_compat_l. Qed.

Lemma pow2_lt_inv (a b : Z) : 2 ^ a < 2 ^ b -> (a < b)%Z.
Proof. intros H. by apply (Qpower_lt_compat_l_inv 2). Qed.

Lemma pow2_Z (n : Z) : (0 <= n)%Z -> inject_Z (2 ^ n) == 2 ^ n.
Proof. intros H. by rewrite Zpower_Qpower. Qed.

Lemma Qdiv_lt_cross (a b c d : Q) :
  0 < b -> 0 < d -> a * d < c * b -> a / b < c / d.
Proof.
  intros Hb Hd H.
  apply Qlt_shift_div_l; [done|].
  assert (E : a / b * d == a * d / b) by (field; lra).
  rewrite E. apply Qlt_shift_div_r; [done|]. lra.
Qed.

Lemma Qdiv_le_cross (a b c d : Q) :
  0 < b -> 0 < d -> a * d <= c * b -> a / b <= c / d.
Proof.
  intros Hb Hd H.
  apply Qle_shift_div_l; [done|].
  assert (E : a / b * d == a * d / b) by (field; lra).
  rewrite E. apply Qle_shift_div_r; [done|]. lra.
Qed.

Lemma Qle_div_mult (a b c : Q) : 0 < c -> a <= b / c -> a * c <= b.
Proof.
  intros Hc H. assert (E : b == b / c * c) by (field; lra).
  rewrite E. apply Qmult_le_compat_r; lra.
Qed.

Lemma Qlt_div_mult (a b c : Q) : 0 < c -> a < b / c -> a * c < b.
Proof.
  intros Hc H. assert (E : b == b / c * c) by (field; lra).
  rewrite E. apply Qmult_lt_compat_r; lra.
Qed.

(** The binade of a number that is not zero. *)
Lemma binade_spec (q : Q) :
  ~ q == 0 -> 2 ^ binade q <= Qabs q /\ Qabs q < 2 ^ (binade q + 1).
Proof.
  intros Hq. unfold binade.
  set (a := Z.abs (Qnum q)). set (b := Qden q).
  set (la := Z.log2 a). set (lb := Z.log2 (Z.pos b)).
  assert (Ha : (0 < a)%Z).
  { subst a. destruct q as [[|n|n] d]; cbn; [|lia|lia]. by destruct Hq. }
  assert (Habs : Qabs q == inject_Z a / inject_Z (Z.pos b)).
  { subst a b. destruct q as [n d]. unfold Qabs. cbn [Qnum Qden].
    rewrite (Qmake_Qdiv (Z.abs n) d). reflexivity. }
  destruct (Z.log2_spec a Ha) as [Ha1 Ha2]. fold la in Ha1, Ha2.
  destruct (Z.log2_spec (Z.pos b) ltac:(lia)) as [Hb1 Hb2]. fold lb in Hb1, Hb2.
  assert (Hla : (0 <= la)%Z) by apply Z.log2_nonneg.
  assert (Hlb : (0 <= lb)%Z) by apply Z.log2_nonneg.
  assert (Hbpos : 0 < inject_Z (Z.pos b))
    by (change 0 with (inject_Z 0); rewrite <- Zlt_Qlt; lia).
  assert (Ha1' : 2 ^ la <= inject_Z a).
  { rewrite <- pow2_Z by done. by rewrite <- Zle_Qle. }
  assert (Ha2' : inject_Z a < 2 ^ (la + 1)).
  { rewrite <- pow2_Z by lia. rewrite <- Zlt_Qlt. by rewrite <- Z.add_1_r in Ha2. }
  assert (Hb1' : 2 ^ lb <= inject_Z (Z.pos b)).
  { rewrite <- pow2_Z by done. by rewrite <- Zle_Qle. }
  assert (Hb2' : inject_Z (Z.pos b) < 2 ^ (lb + 1)).
  { rewrite <- pow2_Z by lia. rewrite <- Zlt_Qlt. by rewrite <- Z.add_1_r in Hb2. }
  pose proof (pow2_pos la) as Hpa. pose proof (pow2_pos lb) as Hpb.
  pose proof (pow2_pos (la + 1)) as Hpa'. pose proof (pow2_pos (lb + 1)) as Hpb'.
  assert (Hlow : 2 ^ (la - lb - 1) < Qabs q).
  { rewrite Habs. replace (la - lb - 1)%Z with (la - (lb + 1))%Z by lia.
    rewrite pow2_minus. apply Qdiv_lt_cross; [done|done|]. nra. }
  assert (Hhigh : Qabs q < 2 ^ (la - lb + 1)).
  { rewrite Habs. replace (la - lb + 1)%Z with (la + 1 - lb)%Z by lia.
    rewrite pow2_minus. apply Qdiv_lt_cross; [done|done|]. nra. }
  destruct (Qle_bool (2 ^ (la - lb)) (Qabs q)) eqn:Hc.
  - apply Qle_bool_iff in Hc. by split.
  - split; [by apply Qlt_le_weak|].
    replace (la - lb - 1 + 1)%Z with (la - lb)%Z by lia.
    apply Qnot_le_lt. intros Hle. apply Qle_bool_iff in Hle. congruence.
Qed.

Lemma roundHalfEven_cases (m : Q) :
  let f := Qfloor m in
  inject_Z f <= m /\ m < inject_Z f + 1
  /\ ((roundHalfEven m = f /\ m - inject_Z f <= 1 # 2)
      \/ (roundHalfEven m = (f + 1)%Z /\ (1 # 2) <= m - inject_Z f)).
Proof.
  cbn zeta. pose proof (Qfloor_le m) as Hle. pose proof (Qlt_floor m) as Hlt.
  rewrite inject_Z_plus in Hlt. change (inject_Z 1) with 1 in Hlt.
  split; [done|]. split; [done|]. unfold roundHalfEven.
  destruct (Qcompare_spec (m - inject_Z (Qfloor m)) (1 # 2)) as [H|H|H].
  - destruct (Z.even (Qfloor m)); [left | right]; split; try done; lra.
  - left. split; [done | lra].
  - right. split; [done | lra].
Qed.

Lemma roundHalfEven_near (m : Q) :
  inject_Z (roundHalfEven m) - m <= 1 # 2 /\ m - inject_Z (roundHalfEven m) <= 1 # 2.
Proof.
  destruct (roundHalfEven_cases m) as (H1 & H2 & [[-> H]|[-> H]]).
  - lra.
  - rewrite inject_Z_plus. change (inject_Z 1) with 1. lra.
Qed.

(** Rounding keeps a number on its side of an integer. *)
Lemma roundHalfEven_le (m : Q) (K : Z) :
  m <= inject_Z K -> (roundHalfEven m <= K)%Z.
Proof.
  intros Hm. destruct (roundHalfEven_cases m) as (H1 & H2 & [[-> H]|[-> H]]).
  - rewrite Zle_Qle. lra.
  - assert (Hlt : inject_Z (Qfloor m) < inject_Z K) by lra.
    rewrite <- Zlt_Qlt in Hlt. lia.
Qed.

Lemma roundHalfEven_ge (m : Q) (K : Z) :
  inject_Z K <= m -> (K <= roundHalfEven m)%Z.
Proof.
  intros Hm. destruct (roundHalfEven_cases m) as (H1 & H2 & Hr).
  assert (Hlt : inject_Z K < inject_Z (Qfloor m + 1)).
  { rewrite inject_Z_plus. change (inject_Z 1) with 1. lra. }
  rewrite <- Zlt_Qlt in Hlt. destruct Hr as [[-> H]|[-> H]]; lia.
Qed.

Lemma roundHalfEven_above_half (m : Q) (K : Z) :
  inject_Z K + (1 # 2) < m -> (K + 1 <= roundHalfEven m)%Z.
Proof.
  intros Hm. destruct (roundHalfEven_cases m) as (H1 & H2 & Hr).
  assert (Hlt : inject_Z K < inject_Z (Qfloor m + 1)).
  { rewrite inject_Z_plus. change (inject_Z 1) with 1. lra. }
  rewrite <- Zlt_Qlt in Hlt. destruct Hr as [[-> H]|[-> H]]; [|lia].
  destruct (Z.eq_dec (Qfloor m) K) as [E|E]; [|lia].
  rewrite E in H. lra.
Qed.

Lemma roundHalfEven_integer (m : Q) (K : Z) :
  m == inject_Z K -> roundHalfEven m = K.
Proof.
  intros Hm. apply Z.le_antisymm.
  - apply roundHalfEven_le. lra.
  - apply roundHalfEven_ge. lra.
Qed.

Lemma binary64_eq (q : Q) :
  binary64 q
  == inject_Z (roundHalfEven (q / 2 ^ ulpExponent q)) * 2 ^ ulpExponent q.
Proof. unfold binary64. apply Qred_correct. Qed.

(** The relative error of rounding in the normal range. *)
Lemma binary64_error (q : Q) :
  2 ^ (-1022) <= q ->
  q * (1 - 2 ^ (-53)) <= binary64 q /\ binary64 q <= q * (1 + 2 ^ (-53)).
Proof.
  intros Hq. pose proof (pow2_pos (-1022)) as Hmin.
  assert (Hpos : 0 < q) by lra.
  destruct (binade_spec q) as [He1 He2]; [lra|].
  rewrite (Qabs_pos q) in He1, He2 by lra.
  assert (He : (-1022 <= binade q)%Z).
  { assert (Hlt : 2 ^ (-1022) < 2 ^ (binade q + 1)) by lra.
    apply pow2_lt_inv in Hlt. lia. }
  rewrite binary64_eq. unfold ulpExponent. rewrite Z.max_l by lia.
  set (e := binade q) in *. set (s := 2 ^ (e - 52)).
  assert (Hs : 0 < s) by apply pow2_pos.
  destruct (roundHalfEven_near (q / s)) as [Hr1 Hr2].
  set (r := inject_Z (roundHalfEven (q / s))) in *.
  assert (Hqs : q == q / s * s) by (field; lra).
  assert (Hse : s == 2 ^ e * 2 ^ (-52)).
  { subst s. replace (e - 52)%Z with (e + -52)%Z by lia. apply pow2_plus. }
  assert (H53 : (2 : Q) ^ (-53) == 2 ^ (-52) * (1 # 2)) by reflexivity.
  pose proof (pow2_pos (-52)) as H52.
  assert (Hhalf : s * (1 # 2) <= q * 2 ^ (-53)).
  { rewrite H53, Hse. nra. }
  split; nra.
Qed.

(** Rounding a number at most a small integer gives at most this integer. *)
Lemma binary64_le_integer (x : Q) (k : Z) :
  (0 <= k < 2 ^ 52)%Z -> x <= inject_Z k -> binary64 x <= inject_Z k.
Proof.
  intros Hk Hx. rewrite binary64_eq.
  set (u := ulpExponent x). pose proof (pow2_pos u) as Hs.
  assert (Hk0 : 0 <= inject_Z k) by (change 0 with (inject_Z 0); rewrite <- Zle_Qle; lia).
  destruct (Qlt_le_dec 0 x) as [Hpos|Hneg].
  - destruct (binade_spec x) as [He1 He2]; [lra|].
    rewrite (Qabs_pos x) in He1, He2 by lra.
    assert (He : (binade x < 52)%Z).
    { apply pow2_lt_inv. apply Qle_lt_trans with (inject_Z k); [lra|].
      rewrite <- pow2_Z by lia. rewrite <- Zlt_Qlt. lia. }
    assert (Hu : (u < 0)%Z) by (subst u; unfold ulpExponent; lia).
    assert (HK : inject_Z (k * 2 ^ (- u)) == inject_Z k / 2 ^ u).
    { rewrite inject_Z_mult, pow2_Z by lia. rewrite Qpower_opp. field.
      pose proof (pow2_pos u). lra. }
    assert (Hr : (roundHalfEven (x / 2 ^ u) <= k * 2 ^ (- u))%Z).
    { apply roundHalfEven_le. rewrite HK.
      apply Qdiv_le_cross; [done|done|]. nra. }
    rewrite Zle_Qle, HK in Hr.
    apply Qle_div_mult in Hr; [|done]. lra.
  - assert (Hr : (roundHalfEven (x / 2 ^ u) <= 0)%Z).
    { apply roundHalfEven_le. change (inject_Z 0) with 0.
      apply Qle_shift_div_r; [done|]. lra. }
    rewrite Zle_Qle in Hr. change (inject_Z 0) with 0 in Hr. nra.
Qed.

(** Rounding a number more than half a unit above an integer of the
    binade [ek] gives more than this integer. *)
Lemma binary64_gt_integer (y : Q) (k ek : Z) :
  (0 <= ek <= 52)%Z -> (2 ^ ek <= k < 2 ^ (ek + 1))%Z ->
  inject_Z k + 2 ^ (ek - 52) * (1 # 2) < y ->
  inject_Z k < binary64 y.
Proof.
  intros Hek [Hk1 Hk2] Hy. rewrite binary64_eq.
  pose proof (pow2_pos (ek - 52)) as Hsk. pose proof (pow2_pos ek) as Hpek.
  assert (Hk1' : 2 ^ ek <= inject_Z k).
  { rewrite <- pow2_Z by lia. by rewrite <- Zle_Qle. }
  assert (Hk2' : inject_Z k < 2 ^ (ek + 1)).
  { rewrite <- pow2_Z by lia. by rewrite <- Zlt_Qlt. }
  assert (Hpos : 0 < y) by lra.
  destruct (binade_spec y) as [He1 He2]; [lra|].
  rewrite (Qabs_pos y) in He1, He2 by lra.
  assert (He : (ek <= binade y)%Z).
  { assert (Hlt : 2 ^ ek < 2 ^ (binade y + 1)) by lra.
    apply pow2_lt_inv in Hlt. lia. }
  unfold ulpExponent. rewrite Z.max_l by lia.
  set (e := binade y) in *. set (s := 2 ^ (e - 52)).
  assert (Hs : 0 < s) by apply pow2_pos.
  destruct (Z.eq_dec e ek) as [Heq|Hne].
  - subst s. rewrite Heq in *.
    assert (HK : inject_Z (k * 2 ^ (52 - ek)) == inject_Z k / 2 ^ (ek - 52)).
    { rewrite inject_Z_mult, pow2_Z by lia.
      replace (52 - ek)%Z with (- (ek - 52))%Z by lia.
      rewrite Qpower_opp. field. lra. }
    assert (Hr : (k * 2 ^ (52 - ek) + 1 <= roundHalfEven (y / 2 ^ (ek - 52)))%Z).
    { apply roundHalfEven_above_half. rewrite HK.
      apply Qlt_shift_div_l; [done|].
      assert (E : (inject_Z k / 2 ^ (ek - 52) + (1 # 2)) * 2 ^ (ek - 52)
                  == inject_Z k + 2 ^ (ek - 52) * (1 # 2)) by (field; lra).
      by rewrite E. }
    rewrite Zle_Qle, inject_Z_plus, HK in Hr. change (inject_Z 1) with 1 in Hr.
    assert (E : (inject_Z k / 2 ^ (ek - 52) + 1) * 2 ^ (ek - 52)
                == inject_Z k + 2 ^ (ek - 52)) by (field; lra).
    apply Qlt_le_trans with ((inject_Z k / 2 ^ (ek - 52) + 1) * 2 ^ (ek - 52)).
    + rewrite E. lra.
    + apply Qmult_le_compat_r; [done | lra].
  - assert (Hr : (2 ^ 52 <= roundHalfEven (y / s))%Z).
    { apply roundHalfEven_ge. rewrite pow2_Z by lia.
      apply Qle_shift_div_l; [done|].
      assert (E : 2 ^ 52 * s == 2 ^ e).
      { subst s. rewrite <- pow2_plus. by replace (52 + (e - 52))%Z with e by lia. }
      by rewrite E. }
    rewrite Zle_Qle, pow2_Z in Hr by lia.
    assert (E : 2 ^ 52 * s == 2 ^ e).
    { subst s. rewrite <- pow2_plus. by replace (52 + (e - 52))%Z with e by lia. }
    assert (Hge : 2 ^ (ek + 1) <= 2 ^ e) by (apply pow2_le; lia).
    apply Qlt_le_trans with (2 ^ 52 * s); [lra|].
    apply Qmult_le_compat_r; [done | lra].
Qed.

(** A binary64 number above an integer [c] of the binade [ec] is at least
    one unit above it. *)
Lemma binary64_successor (d : Q) (c ec : Z) :
  (0 <= ec <= 52)%Z -> (2 ^ ec <= c)%Z ->
  binary64 d == d -> inject_Z c < d ->
  inject_Z c + 2 ^ (ec - 52) <= d.
Proof.
  intros Hec Hc Hd Hcd.
  pose proof (pow2_pos (ec - 52)) as Hsc. pose proof (pow2_pos ec) as Hpec.
  assert (Hc' : 2 ^ ec <= inject_Z c).
  { rewrite <- pow2_Z by lia. by rewrite <- Zle_Qle. }
  assert (Hpos : 0 < d) by lra.
  destruct (binade_spec d) as [He1 He2]; [lra|].
  rewrite (Qabs_pos d) in He1, He2 by lra.
  assert (He : (ec <= binade d)%Z).
  { assert (Hlt : 2 ^ ec < 2 ^ (binade d + 1)) by lra.
    apply pow2_lt_inv in Hlt. lia. }
  rewrite binary64_eq in Hd. unfold ulpExponent in Hd.
  rewrite Z.max_l in Hd by lia.
  set (e := binade d) in *. set (r := roundHalfEven (d / 2 ^ (e - 52))) in *.
  clearbody r.
  assert (HD : inject_Z (r * 2 ^ (e - ec)) == d / 2 ^ (ec - 52)).
  { rewrite inject_Z_mult, pow2_Z by lia. rewrite <- Hd.
    replace (e - 52)%Z with ((e - ec) + (ec - 52))%Z by lia.
    rewrite pow2_plus. field. lra. }
  assert (HC : inject_Z (c * 2 ^ (52 - ec)) == inject_Z c / 2 ^ (ec - 52)).
  { rewrite inject_Z_mult, pow2_Z by lia.
    replace (52 - ec)%Z with (- (ec - 52))%Z by lia.
    rewrite Qpower_opp. field. lra. }
  assert (Hlt : (c * 2 ^ (52 - ec) < r * 2 ^ (e - ec))%Z).
  { rewrite Zlt_Qlt, HC, HD. apply Qdiv_lt_cross; [done|done|]. nra. }
  assert (Hle : (c * 2 ^ (52 - ec) + 1 <= r * 2 ^ (e - ec))%Z) by lia.
  rewrite Zle_Qle, inject_Z_plus, HC, HD in Hle. change (inject_Z 1) with 1 in Hle.
  apply Qle_div_mult in Hle; [|done].
  assert (E : (inject_Z c / 2 ^ (ec - 52) + 1) * 2 ^ (ec - 52)
              == inject_Z c + 2 ^ (ec - 52)) by (field; lra).
  by rewrite E in Hle.
Qed.

Lemma pow2_le_inv (a b : Z) : 2 ^ a <= 2 ^ b -> (a <= b)%Z.
Proof. intros H. by apply (Qpower_le_compat_l_inv 2). Qed.

(** An integer up to [2^53] is a binary64 number. *)
Lemma binary64_integer (x : Q) (k : Z) :
  (0 <= k <= 2 ^ 53)%Z -> x == inject_Z k -> binary64 x = inject_Z k.
Proof.
  intros Hk Hx. unfold binary64.
  assert (Hred : Qred (inject_Z k) = inject_Z k).
  { unfold Qred, inject_Z.
    pose proof (Z.ggcd_gcd k 1) as Hg. pose proof (Z.ggcd_correct_divisors k 1) as Hd.
    destruct (Z.ggcd k 1) as [g [q1 q2]]. cbn [fst snd] in *.
    rewrite Z.gcd_1_r in Hg. subst g. destruct Hd as [H1 H2].
    assert (E1 : q1 = k) by lia. assert (E2 : q2 = 1%Z) by lia.
    rewrite E1, E2. reflexivity. }
  rewrite <- Hred. apply Qred_complete.
  set (u := ulpExponent x). pose proof (pow2_pos u) as Hs.
  destruct (Z.eq_dec k 0%Z) as [->|Hk0].
  - rewrite (roundHalfEven_integer _ 0%Z).
    + change (inject_Z 0) with 0. ring.
    + rewrite Hx. change (inject_Z 0) with 0. field. lra.
  - assert (Hk1 : 1 <= inject_Z k).
    { change 1 with (inject_Z 1). rewrite <- Zle_Qle. lia. }
    assert (Hk53 : inject_Z k <= 2 ^ 53).
    { rewrite <- pow2_Z by lia. rewrite <- Zle_Qle. lia. }
    destruct (binade_spec x) as [He1 He2]; [lra|].
    rewrite (Qabs_pos x) in He1, He2 by lra.
    assert (He0 : (0 <= binade x)%Z).
    { assert (Hlt : 2 ^ 0 < 2 ^ (binade x + 1)) by (change ((2 : Q) ^ 0) with 1; lra).
      apply pow2_lt_inv in Hlt. lia. }
    assert (He53 : (binade x <= 53)%Z).
    { apply pow2_le_inv. lra. }
    assert (Hu : u = (binade x - 52)%Z) by (subst u; unfold ulpExponent; lia).
    destruct (Z.le_gt_cases u 0%Z) as [Hle|Hgt].
    + assert (HK : inject_Z (k * 2 ^ (- u)) == inject_Z k / 2 ^ u).
      { rewrite inject_Z_mult, pow2_Z by lia. rewrite Qpower_opp. field. lra. }
      rewrite (roundHalfEven_integer _ (k * 2 ^ (- u))%Z).
      * rewrite HK. field. lra.
      * by rewrite HK, Hx.
    + assert (Hu1 : u = 1%Z) by lia.
      assert (He : binade x = 53%Z) by lia.
      rewrite He in He1.
      assert (Hk' : k = (2 ^ 53)%Z).
      { apply Z.le_antisymm; [lia|]. rewrite Zle_Qle, pow2_Z by lia. lra. }
      rewrite Hu1. rewrite (roundHalfEven_integer _ (2 ^ 52)%Z).
      * rewrite Hk'. reflexivity.
      * rewrite Hx, Hk'. reflexivity.
Qed.

End Binary64.

(** ** Video extraction *)

Lemma videoFrames_seq (video : VideoElement) (frameCount : Z) (remaining i : nat)
    (frames : list VideoFrame) :
  videoFrames video frameCount remaining i frames
  = frames ++ List.map (frameOf video frameCount) (seq i remaining).
Proof.
  revert i frames. induction remaining as [|n IH]; intros i frames; simpl.
  - by rewrite app_nil_r.
  - rewrite IH, <- app_assoc. reflexivity.
Qed.

Lemma frameCountFor_range (duration : Q) : (3 <= frameCountFor duration <= 10)%Z.
Proof. unfold frameCountFor. lia. Qed.

Lemma Qceiling_le_iff (x : Q) (k : Z) : (Qceiling x <= k)%Z <-> (x <= inject_Z k)%Q.
Proof.
  pose proof (Qle_ceiling x) as H1. pose proof (Qceiling_lt x) as H2.
  split.
  - intros H. rewrite Zle_Qle in H. lra.
  - intros H. assert (Hlt : (inject_Z (Qceiling x - 1) < inject_Z k)%Q) by lra.
    rewrite <- Zlt_Qlt in Hlt. lia.
Qed.

(** The quotient by 15 of a binary64 number, rounded, is on the same side of
    each integer from 3 to 9 as the exact quotient. *)
Lemma quotient_side (d : Q) (k : Z) :
  (3 <= k <= 9)%Z -> (binary64 d == d)%Q ->
  (binary64 (d / inject_Z 15) <= inject_Z k)%Q <-> (d / inject_Z 15 <= inject_Z k)%Q.
Proof.
  intros Hk Hd. split.
  - intros Hle. apply Qnot_lt_le. intros Hlt.
    assert (Hc : (inject_Z (15 * k) < d)%Q).
    { rewrite inject_Z_mult. apply Qlt_div_mult in Hlt; [|reflexivity].
      change (inject_Z 15) with 15%Q in *. lra. }
    assert (Hgt : (inject_Z k < binary64 (d / inject_Z 15))%Q); [|lra].
    assert (Hstep : forall ek ec : Z,
              (0 <= ek <= 52)%Z -> (0 <= ec <= 52)%Z -> (ek + 3 <= ec)%Z ->
              (2 ^ ek <= k < 2 ^ (ek + 1))%Z -> (2 ^ ec <= 15 * k)%Z ->
              (inject_Z k < binary64 (d / inject_Z 15))%Q).
    { intros ek ec Hek Hec Hgap Hbk Hbc.
      pose proof (binary64_successor d (15 * k) ec Hec Hbc Hd Hc) as Hsucc.
      apply (binary64_gt_integer _ k ek Hek Hbk).
      assert (Hpow : (2 ^ (ek - 52) * 8 <= 2 ^ (ec - 52))%Q).
      { change 8%Q with (2 ^ 3)%Q. rewrite <- pow2_plus. apply pow2_le. lia. }
      pose proof (pow2_pos (ek - 52)) as Hp.
      apply Qlt_shift_div_l; [reflexivity|].
      rewrite inject_Z_mult in Hsucc. change (inject_Z 15) with 15%Q in *. lra. }
    assert (Hcases : (k = 3 \/ k = 4 \/ k = 5 \/ k = 6 \/ k = 7 \/ k = 8 \/ k = 9)%Z)
      by lia.
    destruct Hcases as [->|[->|[->|[->|[->|[->| ->]]]]]].
    + apply (Hstep 1 5)%Z; lia.
    + apply (Hstep 2 5)%Z; lia.
    + apply (Hstep 2 6)%Z; lia.
    + apply (Hstep 2 6)%Z; lia.
    + apply (Hstep 2 6)%Z; lia.
    + apply (Hstep 3 6)%Z; lia.
    + apply (Hstep 3 7)%Z; lia.
  - intros Hle. apply binary64_le_integer; [lia | done].
Qed.

Lemma frameCountFor_clamp (duration : Q) :
  (binary64 duration == duration)%Q ->
  frameCountFor duration = clamp (Qceiling (duration / inject_Z 15)) 3 10.
Proof.
  intros Hd. unfold frameCountFor, clamp.
  set (c := Qceiling (duration / inject_Z 15)).
  set (c' := Qceiling (binary64 (duration / inject_Z 15))).
  assert (H : forall k, (3 <= k <= 9)%Z -> (c' <= k <-> c <= k)%Z).
  { intros k Hk. subst c c'. rewrite !Qceiling_le_iff. by apply quotient_side. }
  pose proof (H 3%Z ltac:(lia)). pose proof (H 4%Z ltac:(lia)).
  pose proof (H 5%Z ltac:(lia)). pose proof (H 6%Z ltac:(lia)).
  pose proof (H 7%Z ltac:(lia)). pose proof (H 8%Z ltac:(lia)).
  pose proof (H 9%Z ltac:(lia)).
  destruct (Z.ltb_spec c 3); destruct (Z.ltb_spec 10 c); lia.
Qed.

Section FrameTimestamps.

Local Open Scope Q_scope.

Variables (duration : Q) (frameCount : Z).
Hypothesis duration_normal : 2 ^ (-1017) <= duration.
Hypothesis frameCount_range : (3 <= frameCount <= 10)%Z.

Abbreviation interval := (frameInterval duration frameCount).

Lemma interval_facts :
  0 < interval
  /\ interval * inject_Z (frameCount + 1) == duration
  /\ duration <= 11 * interval
  /\ 2 ^ (-1021) <= interval.
Proof.
  pose proof (pow2_pos (-1017)) as Hp.
  assert (Hn : 0 < inject_Z (frameCount + 1)).
  { change 0 with (inject_Z 0). rewrite <- Zlt_Qlt. lia. }
  assert (Hn11 : inject_Z (frameCount + 1) <= 11).
  { change 11 with (inject_Z 11). rewrite <- Zle_Qle. lia. }
  assert (Hx : 0 < interval).
  { unfold frameInterval. apply Qlt_shift_div_l; [done | lra]. }
  assert (Hm : interval * inject_Z (frameCount + 1) == duration).
  { unfold frameInterval. field. lra. }
  assert (H11 : duration <= 11 * interval) by nra.
  split; [done|]. split; [done|]. split; [done|].
  assert (E : (2 : Q) ^ (-1017) == 16 * 2 ^ (-1021)).
  { change 16 with ((2 : Q) ^ 4). rewrite <- pow2_plus. reflexivity. }
  pose proof (pow2_pos (-1021)). lra.
Qed.

(** A timestamp is the multiple of the interval, up to two roundings. *)
Lemma frameTimestamp_near (i : nat) :
  let y := interval * inject_Z (Z.of_nat i + 1) in
  y * (1 - ((1 # 4503599627370496) + (1 # 1267650600228229401496703205376)))
  <= frameTimestamp duration frameCount i
  /\ frameTimestamp duration frameCount i
     <= y * (1 + ((1 # 4503599627370496) + (1 # 1267650600228229401496703205376))).
Proof.
  cbn zeta. destruct interval_facts as (Hx & _ & _ & Hmin).
  unfold frameTimestamp.
  change (duration / inject_Z (frameCount + 1)) with interval.
  set (k := inject_Z (Z.of_nat i + 1)).
  assert (Hk : 1 <= k).
  { subst k. change 1 with (inject_Z 1). rewrite <- Zle_Qle. lia. }
  assert (He : (2 : Q) ^ (-53) == 1 # 9007199254740992) by reflexivity.
  assert (Hhalf : (2 : Q) ^ (-1021) == 2 * 2 ^ (-1022)).
  { change 2 with ((2 : Q) ^ 1) at 2. rewrite <- pow2_plus. reflexivity. }
  pose proof (pow2_pos (-1022)) as Hp.
  destruct (binary64_error interval) as [Hq1 Hq2]; [lra|].
  rewrite He in Hq1, Hq2.
  set (q := binary64 interval) in *.
  assert (Hq : 2 ^ (-1022) <= q) by lra.
  destruct (binary64_error (q * k)) as [Ht1 Ht2]; [nra|].
  rewrite He in Ht1, Ht2.
  set (t := binary64 (q * k)) in *.
  split; nra.
Qed.

Lemma frameTimestamp_pos (i : nat) : 0 < frameTimestamp duration frameCount i.
Proof.
  destruct interval_facts as (Hx & _). destruct (frameTimestamp_near i) as [H _].
  cbn zeta in H.
  assert (Hk : 1 <= inject_Z (Z.of_nat i + 1)).
  { change 1 with (inject_Z 1). rewrite <- Zle_Qle. lia. }
  nra.
Qed.

Lemma frameTimestamp_before_end (i : nat) :
  (Z.of_nat i < frameCount)%Z -> frameTimestamp duration frameCount i < duration.
Proof.
  intros Hi. destruct interval_facts as (Hx & Hm & H11 & _).
  destruct (frameTimestamp_near i) as [_ H]. cbn zeta in H.
  assert (Hk : inject_Z (Z.of_nat i + 1) + 1 <= inject_Z (frameCount + 1)).
  { change 1 with (inject_Z 1). rewrite <- inject_Z_plus, <- Zle_Qle. lia. }
  assert (Hk0 : 1 <= inject_Z (Z.of_nat i + 1)).
  { change 1 with (inject_Z 1). rewrite <- Zle_Qle. lia. }
  set (y := interval * inject_Z (Z.of_nat i + 1)) in *.
  assert (Hy : y <= duration - interval) by (subst y; nra).
  assert (Hy0 : 0 <= y) by (subst y; nra).
  nra.
Qed.

Lemma frameTimestamp_step (i : nat) :
  (Z.of_nat (S i) < frameCount)%Z ->
  frameTimestamp duration frameCount i < frameTimestamp duration frameCount (S i)
  /\ Qabs (frameTimestamp duration frameCount (S i)
           - frameTimestamp duration frameCount i - interval)
     <= interval * 2 ^ (-47).
Proof.
  intros Hi. destruct interval_facts as (Hx & Hm & H11 & _).
  destruct (frameTimestamp_near i) as [Ha1 Ha2].
  destruct (frameTimestamp_near (S i)) as [Hb1 Hb2]. cbn zeta in *.
  assert (Hs : inject_Z (Z.of_nat (S i) + 1) == inject_Z (Z.of_nat i + 1) + 1).
  { change 1 with (inject_Z 1). rewrite <- inject_Z_plus.
    by replace (Z.of_nat (S i) + 1)%Z with (Z.of_nat i + 1 + 1)%Z by lia. }
  assert (Hk0 : 1 <= inject_Z (Z.of_nat i + 1)).
  { change 1 with (inject_Z 1). rewrite <- Zle_Qle. lia. }
  assert (Hk9 : inject_Z (Z.of_nat i + 1) <= 9).
  { change 9 with (inject_Z 9). rewrite <- Zle_Qle. lia. }
  set (y := interval * inject_Z (Z.of_nat i + 1)) in *.
  assert (Hy' : interval * inject_Z (Z.of_nat (S i) + 1) == y + interval).
  { rewrite Hs. subst y. ring. }
  rewrite Hy' in Hb1, Hb2.
  assert (Hy0 : interval <= y) by (subst y; nra).
  assert (Hy9 : y <= 9 * interval) by (subst y; nra).
  assert (E47 : (2 : Q) ^ (-47) == 1 # 140737488355328) by reflexivity.
  rewrite E47.
  set (a := frameTimestamp duration frameCount i) in *.
  set (b := frameTimestamp duration frameCount (S i)) in *.
  split; [lra|].
  apply Qabs_case; intros _; lra.
Qed.

End FrameTimestamps.

Lemma processVideo_Return (loadMetadata : File -> Completion VideoElement)
    (file : File) (video : VideoElement) :
  loadMetadata file = Return video ->
  exists content,
    processVideo loadMetadata file = Return content
    /\ frames content
       = Some (List.map (frameOf video (frameCountFor (video_duration video)))
                 (seq 0 (Z.to_nat (frameCountFor (video_duration video))))).
Proof.
  intros Hload. unfold processVideo. rewrite Hload. unfold bind.
  eexists. split; [reflexivity|]. cbn [frames].
  by rewrite videoFrames_seq.
Qed.

Lemma lookup_frames (video : VideoElement) (frameCount : Z) (count i : nat)
    (f : VideoFrame) :
  List.map (frameOf video frameCount) (seq 0 count) !! i = Some f ->
  f = frameOf video frameCount i /\ i < count.
Proof.
  change (List.map (frameOf video frameCount) (seq 0 count))
    with (frameOf video frameCount <$> seq 0 count).
  rewrite list_lookup_fmap. intros H.
  destruct (seq 0 count !! i) as [j|] eqn:Hj; [|done].
  apply lookup_seq in Hj as [-> Hi]. simpl in H. split; [congruence | done].
Qed.

(** C6 (amended).  For a video whose duration [d] is a binary64 number,
    the number of frames is [clamp(ceil(d/15), 3, 10)], with the exact
    quotient, hence between 3 and 10.  When moreover [d] is at least
    [2^-1017], every timestamp is strictly between the start and the end
    of the video, consecutive timestamps are strictly increasing, and
    they are evenly spaced up to the rounding of the arithmetic: the
    distance of two consecutive ones differs from [d] divided by the number
    of frames plus one by at most [2^-47] of it. *)
Theorem processVideo_frames (loadMetadata : File -> Completion VideoElement)
    (file : File) (video : VideoElement) :
  loadMetadata file = Return video ->
  (binary64 (video_duration video) == video_duration video)%Q ->
  exists content fs,
    processVideo loadMetadata file = Return content
    /\ frames content = Some fs
    /\ Z.of_nat (length fs)
       = clamp (Qceiling (video_duration video / inject_Z 15)) 3 10
    /\ 3 <= length fs <= 10
    /\ ((2 ^ (-1017) <= video_duration video)%Q ->
        (forall i f, fs !! i = Some f ->
           (0 < timestamp f /\ timestamp f < video_duration video)%Q)
        /\ (forall i f g, fs !! i = Some f -> fs !! S i = Some g ->
              (timestamp f < timestamp g)%Q
              /\ (Qabs (timestamp g - timestamp f
                        - frameInterval (video_duration video)
                            (Z.of_nat (length fs)))
                  <= frameInterval (video_duration video) (Z.of_nat (length fs))
                     * 2 ^ (-47))%Q)).
Proof.
  intros Hload Hbinary.
  destruct (processVideo_Return loadMetadata file video Hload) as (content & Hc & Hf).
  pose proof (frameCountFor_clamp (video_duration video) Hbinary) as Hclamp.
  pose proof (frameCountFor_range (video_duration video)) as Hrange.
  set (d := video_duration video) in *. set (n := frameCountFor d) in *.
  exists content, (List.map (frameOf video n) (seq 0 (Z.to_nat n))).
  assert (Hlen : Z.of_nat (length (List.map (frameOf video n) (seq 0 (Z.to_nat n)))) = n).
  { rewrite List.length_map, length_seq. lia. }
  split; [done|]. split; [done|]. split; [by rewrite Hlen|]. split; [lia|].
  rewrite Hlen. intros Hnormal. split.
  - intros i f Hi. apply lookup_frames in Hi as [-> Hi]. cbn [frameOf timestamp].
    split; [apply frameTimestamp_pos | apply frameTimestamp_before_end]; lia || done.
  - intros i f g Hi Hsi.
    apply lookup_frames in Hi as [-> Hi]. apply lookup_frames in Hsi as [-> Hsi].
    cbn [frameOf timestamp]. apply frameTimestamp_step; lia || done.
Qed.

Lemma processVideo_frames_witness :
  exists content fs f g,
    processVideo (fun _ => Return (sampleVideo (inject_Z 100)))
      (sampleFile (js "tour.mp4") (js "video/mp4") [])
    = Return content
    /\ frames content = Some fs
    /\ Z.of_nat (length fs) = 7%Z
    /\ fs !! 0 = Some f /\ fs !! 1 = Some g
    /\ (0 < timestamp f)%Q /\ (timestamp f < timestamp g)%Q
    /\ (timestamp g < inject_Z 100)%Q.
Proof.
  destruct (processVideo_frames (fun _ => Return (sampleVideo (inject_Z 100)))
              (sampleFile (js "tour.mp4") (js "video/mp4") [])
              (sampleVideo (inject_Z 100)) eq_refl)
    as (content & fs & H1 & H2 & H3 & _ & H5).
  - by vm_compute.
  - destruct H5 as [Hinside Hstep]; [by vm_compute|].
    change (clamp (Qceiling (video_duration (sampleVideo (inject_Z 100)) / inject_Z 15)) 3 10)
      with 7%Z in H3.
    destruct fs as [|f [|g fs]]; [simpl in H3; lia | simpl in H3; lia |].
    exists content, (f :: g :: fs), f, g.
    split; [exact H1|]. split; [exact H2|]. split; [exact H3|].
    split; [reflexivity|]. split; [reflexivity|].
    split; [exact (proj1 (Hinside 0 f eq_refl))|].
    split; [exact (proj1 (Hstep 0 f g eq_refl eq_refl))|].
    exact (proj2 (Hinside 1 g eq_refl)).
Defined.

(** C6, as stated, fails for a video of duration 0: its three frames all
    have the timestamp 0, which is the start of the video and does not
    increase. *)
Lemma processVideo_zero_duration :
  exists content f0 f1 f2,
    processVideo (fun _ => Return (sampleVideo 0))
      (sampleFile (js "blank.webm") (js "video/webm") [])
    = Return content
    /\ frames content = Some [f0; f1; f2]
    /\ ~ (timestamp f0 < timestamp f1)%Q
    /\ ~ (0 < timestamp f0)%Q.
Proof.
  do 4 eexists. split; [reflexivity|]. split; [reflexivity|].
  split; intros H; vm_compute in H; discriminate.
Qed.

(** The timestamps are not at exactly equal distances: for 47 seconds the
    four frames are at 9.4, 18.8, 28.200000000000003 and 37.6 seconds. *)
Example processVideo_uneven_distances :
  List.map timestamp
    (List.map (frameOf (sampleVideo 47) (frameCountFor 47)) (seq 0 4))
  = [ 5291729562160333 # 562949953421312;
      5291729562160333 # 281474976710656;
      1984398585810125 # 70368744177664;
      5291729562160333 # 140737488355328 ]
  /\ frameCountFor 47 = 4%Z
  /\ ~ ((1984398585810125 # 70368744177664) - (5291729562160333 # 281474976710656)
        == (5291729562160333 # 281474976710656)
           - (5291729562160333 # 562949953421312))%Q.
Proof.
  split; [by vm_compute|]. split; [by vm_compute|].
  intros H. vm_compute in H. discriminate.
Qed.

(** Below the bound on the duration the timestamps may coincide: for the
    least positive binary64 number they are all zero. *)
Example processVideo_subnormal_duration :
  (binary64 (2 ^ (-1074)) == 2 ^ (-1074))%Q
  /\ List.map timestamp
       (List.map (frameOf (sampleVideo (2 ^ (-1074))) 3) (seq 0 3))
     = [0%Q; 0%Q; 0%Q].
Proof. split; by vm_compute. Qed.

Example processVideo_text :
  bind (processVideo (fun _ => Return (sampleVideo (91 # 2)))
          (sampleFile (js "tour.mp4") (js "video/mp4") []))
    (fun content => Return (text content))
  = Return (Some (js "Video: " ++ [34%N] ++ js "tour.mp4" ++ [34%N; 10%N]
                  ++ js "Duration: 46 seconds" ++ [10%N]
                  ++ js "Key frames extracted: 4")).
Proof. by vm_compute. Qed.

(** ** CSV extraction *)

Lemma csvRows_map (headers : list (list N)) (lines : list (list N))
    (data : list DataRow) :
  csvRows headers lines data
  = data ++ List.map (fun line => fillRow headers 0 (parseCsvLine line) ∅) lines.
Proof.
  revert data. induction lines as [|line lines IH]; intros data; simpl.
  - by rewrite app_nil_r.
  - rewrite IH, <- app_assoc. reflexivity.
Qed.

Lemma processCsv_Return (formatDataAsText : list (list N) -> list DataRow -> list N)
    (file : File) :
  exists content,
    processCsv formatDataAsText file = Return content
    /\ data content
       = Some (List.map (fun line => fillRow (csvHeaders file) 0 (parseCsvLine line) ∅)
                 (tail (csvLines (file_text file)))).
Proof.
  unfold processCsv, csvHeaders.
  destruct (csvLines (file_text file)) as [|first rest].
  - eexists. split; reflexivity.
  - eexists. split; [reflexivity|]. cbn [data tail]. by rewrite csvRows_map.
Qed.

Lemma objectSet_lookup (row : DataRow) (key : list N) (value : Cell) (k : list N) :
  objectSet row key value !! k
  = if decide (key = k /\ key <> protoKey) then Some value else row !! k.
Proof.
  unfold objectSet. destruct (strEqb key (js "__proto__")) eqn:Hp.
  - apply strEqb_eq in Hp. rewrite decide_False; [done|]. intros [_ H]. done.
  - assert (key <> protoKey).
    { intros H. apply strEqb_eq in H. unfold protoKey in H. congruence. }
    rewrite lookup_insert. destruct (decide (key = k)) as [->|Hne].
    + by rewrite decide_True.
    + rewrite decide_False; [done|]. by intros [? _].
Qed.

Lemma fillRow_lookup_other (headers : list (list N)) (idx : nat)
    (values : list (list N)) (row : DataRow) (k : list N) :
  (k ∉ headers \/ k = protoKey) ->
  fillRow headers idx values row !! k = row !! k.
Proof.
  revert idx row. induction headers as [|header headers IH]; intros idx row Hk;
    [done|].
  simpl. rewrite IH.
  - rewrite objectSet_lookup. rewrite decide_False; [done|].
    intros [-> Hp]. destruct Hk as [Hk| ->]; [|done].
    apply Hk. constructor.
  - destruct Hk as [Hk|Hk]; [left|by right].
    intros Hin. apply Hk. by constructor.
Qed.

(** The cell of a header is made from the field at the position of the last
    column of this name; a missing field counts as the empty string. *)
Lemma fillRow_lookup_last (headers : list (list N)) (idx : nat)
    (values : list (list N)) (row : DataRow) (k : nat) (header : list N) :
  headers !! k = Some header ->
  header <> protoKey ->
  (forall j, k < j -> headers !! j <> Some header) ->
  fillRow headers idx values row !! header
  = Some (coerceCell (orElse (values !! (idx + k)) [])).
Proof.
  revert idx row k. induction headers as [|h headers IH]; intros idx row k Hk Hp Hlast;
    [done|].
  destruct k as [|k]; simpl in Hk.
  - injection Hk as ->. simpl. rewrite fillRow_lookup_other.
    + rewrite objectSet_lookup, decide_True by done. by rewrite Nat.add_0_r.
    + left. intros Hin. apply list_elem_of_lookup in Hin as [j Hj].
      apply (Hlast (S j)); [lia | done].
  - simpl. rewrite (IH (S idx) _ k Hk Hp).
    + by replace (S idx + k) with (idx + S k) by lia.
    + intros j Hj. apply (Hlast (S j)). lia.
Qed.

Lemma fillRow_dom (headers : list (list N)) (idx : nat) (values : list (list N))
    (row : DataRow) :
  dom (fillRow headers idx values row)
  = dom row ∪ list_to_set headers ∖ {[protoKey]}.
Proof.
  revert idx row. induction headers as [|header headers IH]; intros idx row; simpl.
  - set_solver.
  - rewrite IH. unfold objectSet.
    destruct (strEqb header (js "__proto__")) eqn:Hp.
    + apply strEqb_eq in Hp. fold protoKey in Hp. set_solver.
    + assert (header <> protoKey).
      { intros H. apply strEqb_eq in H. unfold protoKey in H. congruence. }
      rewrite dom_insert_L. set_solver.
Qed.

Lemma objectKeys_length (row : DataRow) : length (objectKeys row) = size (dom row).
Proof. reflexivity. Qed.

Lemma coerceCell_empty : coerceCell [] = CellString [].
Proof. reflexivity. Qed.

(** What [coerceCell] does: a number as soon as a prefix of the value is a
    decimal literal, the value itself otherwise. *)
Lemma coerceCell_cases (value : list N) :
  match coerceCell value with
  | CellNumber n => exists rest, readDecimalLiteral value = Some (n, rest)
  | CellString s => s = value /\ readDecimalLiteral value = None
  end.
Proof.
  unfold coerceCell, parseFloat.
  destruct (readDecimalLiteral value) as [[n rest]|]; simpl; eauto.
Qed.

Lemma coerceCell_full (value : list N) :
  parsesFullyAsNumber value = true -> exists n, coerceCell value = CellNumber n.
Proof.
  unfold parsesFullyAsNumber, coerceCell, parseFloat.
  destruct (readDecimalLiteral value) as [[n rest]|]; simpl; [eauto | done].
Qed.

Lemma size_list_to_set_remove_dups (l : list (list N)) :
  size (list_to_set (C:=gset (list N)) l) = length (remove_dups l).
Proof.
  rewrite <- (size_list_to_set (C:=gset (list N)) (remove_dups l))
    by apply NoDup_remove_dups.
  f_equal. apply set_eq. intros x.
  by rewrite !elem_of_list_to_set, elem_of_remove_dups.
Qed.

(** The keys of every data row are the column headers, [__proto__] apart. *)
Lemma processCsv_row_keys (formatDataAsText : list (list N) -> list DataRow -> list N)
    (file : File) (content : ExtractedContent) (rows : list DataRow) (row : DataRow) :
  processCsv formatDataAsText file = Return content ->
  data content = Some rows ->
  row ∈ rows ->
  dom row = list_to_set (csvHeaders file) ∖ {[protoKey]}.
Proof.
  intros Hc Hd Hrow.
  destruct (processCsv_Return formatDataAsText file) as (content' & Hc' & Hd').
  rewrite Hc in Hc'. injection Hc' as <-. rewrite Hd in Hd'. injection Hd' as ->.
  apply list_elem_of_In, in_map_iff in Hrow as (line & <- & _).
  rewrite fillRow_dom. set_solver.
Qed.

(** The cell of a header holds the field at the position of its last
    column; a line with too few fields leaves the empty string there, and
    the fields beyond the headers are not read. *)
Lemma processCsv_row_cells (formatDataAsText : list (list N) -> list DataRow -> list N)
    (file : File) (content : ExtractedContent) (rows : list DataRow) (row : DataRow)
    (k : nat) (header : list N) :
  processCsv formatDataAsText file = Return content ->
  data content = Some rows ->
  row ∈ rows ->
  csvHeaders file !! k = Some header ->
  header <> protoKey ->
  (forall j, k < j -> csvHeaders file !! j <> Some header) ->
  exists line,
    line ∈ tail (csvLines (file_text file))
    /\ row !! header = Some (coerceCell (orElse (parseCsvLine line !! k) [])).
Proof.
  intros Hc Hd Hrow Hk Hp Hlast.
  destruct (processCsv_Return formatDataAsText file) as (content' & Hc' & Hd').
  rewrite Hc in Hc'. injection Hc' as <-. rewrite Hd in Hd'. injection Hd' as ->.
  apply list_elem_of_In, in_map_iff in Hrow as (line & <- & Hline).
  exists line. split; [by apply list_elem_of_In|].
  by rewrite (fillRow_lookup_last _ 0 _ _ k header Hk Hp Hlast).
Qed.

(** C10 at a header named [__proto__]: the row has no entry for it, and its
    keys are not the header list. *)
Theorem processCsv_proto_header
    (formatDataAsText : list (list N) -> list DataRow -> list N) :
  exists content row,
    processCsv formatDataAsText protoHeaderCsv = Return content
    /\ data content = Some [row]
    /\ csvHeaders protoHeaderCsv = [protoKey; js "b"]
    /\ row !! protoKey = None
    /\ dom row = {[ js "b" ]}
    /\ dom row <> list_to_set (csvHeaders protoHeaderCsv).
Proof.
  eexists. eexists. split; [reflexivity|]. split; [reflexivity|].
  split; [reflexivity|]. split; [reflexivity|].
  split; [reflexivity|].
  intros H. apply (f_equal (fun keys => bool_decide (protoKey ∈ keys))) in H.
  vm_compute in H. discriminate.
Qed.

(** C4 at values that only start with a number: [5 apples] is stored as the
    number 5 and [1,234] as the number 1. *)
Theorem processCsv_numeric_prefix
    (formatDataAsText : list (list N) -> list DataRow -> list N) :
  exists content row rest,
    processCsv formatDataAsText stockCsv = Return content
    /\ data content = Some (row :: rest)
    /\ parsesFullyAsNumber (js "5 apples") = false
    /\ row !! js "qty" = Some (CellNumber (NumDecimal false 5 0))
    /\ parsesFullyAsNumber (js "1,234") = false
    /\ row !! js "price" = Some (CellNumber (NumDecimal false 1 0)).
Proof.
  eexists. eexists. eexists. split; [reflexivity|]. split; [reflexivity|].
  repeat split; reflexivity.
Qed.

Example processCsv_ragged_rows :
  bind (processCsv noSummary raggedCsv)
    (fun content => Return (List.map (fun row => (row !! js "a", row !! js "b",
                                                  row !! js "c", size row))
                              <$> data content))
  = Return (Some [ (Some (CellNumber (NumDecimal false 1 0)), Some (CellString []),
                    Some (CellString []), 3);
                   (Some (CellString (js "x")), Some (CellString (js "y")),
                    Some (CellString (js "z")), 3) ]).
Proof. reflexivity. Qed.

Example parseCsvLine_quoted :
  parseCsvLine (js "5 apples," ++ [34%N] ++ js "1,234" ++ [34%N] ++ js " , x ")
  = [js "5 apples"; js "1,234"; js "x"].
Proof. reflexivity. Qed.

(** ** Metadata of tabular files *)

Lemma fillRow_size (headers : list (list N)) (values : list (list N)) :
  protoKey ∉ headers ->
  size (dom (fillRow headers 0 values ∅)) = length (remove_dups headers).
Proof.
  intros Hp. rewrite fillRow_dom, dom_empty_L, <- size_list_to_set_remove_dups.
  f_equal. apply set_eq. intros x.
  rewrite elem_of_union, elem_of_difference, elem_of_singleton, elem_of_empty,
    elem_of_list_to_set.
  split; [tauto|]. intros Hx. right. split; [done|]. by intros ->.
Qed.

Lemma remove_dups_NoDup (l : list (list N)) : NoDup l -> remove_dups l = l.
Proof.
  induction 1 as [|x l Hx Hl IH]; simpl; [done|].
  destruct (decide_rel elem_of x l); [done | by rewrite IH].
Qed.

(** C8 (amended).  The row count of the metadata is the number of data
    rows, for CSV and for Excel.  The column count is absent when there is
    no data row.  With a data row, it is for CSV the number of distinct
    column headers, hence the number of headers when these are pairwise
    distinct (none being [__proto__]), and for Excel the number of the
    headers of the extraction: the headers from which the text of the
    extraction is made, which are the keys of the first row and are none
    when there is no row. *)
Theorem tabular_metadata_counts
    (formatDataAsText : list (list N) -> list DataRow -> list N) (file : File) :
  (exists content rows,
     processCsv formatDataAsText file = Return content
     /\ data content = Some rows
     /\ rowCount (extractMetadata file Csv content) = Some (length rows)
     /\ (rows = [] -> columnCount (extractMetadata file Csv content) = None)
     /\ (rows <> [] -> protoKey ∉ csvHeaders file ->
         columnCount (extractMetadata file Csv content)
         = Some (length (remove_dups (csvHeaders file)))
         /\ (NoDup (csvHeaders file) ->
             columnCount (extractMetadata file Csv content)
             = Some (length (csvHeaders file)))))
  /\ (forall (sheetToJson : File -> Completion (list DataRow)) (rows : list DataRow),
        sheetToJson file = Return rows ->
        exists content headers,
          processExcel formatDataAsText sheetToJson file = Return content
          /\ text content = Some (formatDataAsText headers rows)
          /\ headers = match rows with
                       | [] => []
                       | row :: _ => objectKeys row
                       end
          /\ data content = Some rows
          /\ rowCount (extractMetadata file Excel content) = Some (length rows)
          /\ columnCount (extractMetadata file Excel content)
             = match rows with
               | [] => None
               | row :: _ => Some (length (objectKeys row))
               end
          /\ (rows = [] ->
              headers = []
              /\ columnCount (extractMetadata file Excel content) = None)
          /\ (rows <> [] ->
              columnCount (extractMetadata file Excel content)
              = Some (length headers))).
Proof.
  split.
  - destruct (processCsv_Return formatDataAsText file) as (content & Hc & Hd).
    eexists content, _. split; [exact Hc|]. split; [exact Hd|].
    unfold extractMetadata. cbn [rowCount columnCount]. rewrite Hd.
    split; [done|]. split.
    + by intros ->.
    + intros Hrows Hp.
      destruct (tail (csvLines (file_text file))) as [|line lines]; [done|].
      cbn [List.map]. rewrite objectKeys_length, (fillRow_size _ _ Hp).
      split; [done|]. intros Hnd. by rewrite (remove_dups_NoDup _ Hnd).
  - intros sheetToJson rows Hrows. unfold processExcel. rewrite Hrows.
    eexists _, _. split; [reflexivity|]. split; [reflexivity|].
    split; [reflexivity|]. split; [reflexivity|]. split; [reflexivity|].
    destruct rows as [|row rows]; (split; [reflexivity|]); split; try done.
Qed.

Lemma tabular_metadata_counts_witness :
  (exists content,
     processCsv noSummary stockCsv = Return content
     /\ rowCount (extractMetadata stockCsv Csv content) = Some 2
     /\ columnCount (extractMetadata stockCsv Csv content) = Some 2)
  /\ (exists content,
        processExcel headerSummary (fun _ => Return stockSheet) stockWorkbook
        = Return content
        /\ text content = Some (js "2 headers")
        /\ rowCount (extractMetadata stockWorkbook Excel content) = Some 2
        /\ columnCount (extractMetadata stockWorkbook Excel content) = Some 2).
Proof.
  split.
  - destruct (proj1 (tabular_metadata_counts noSummary stockCsv))
      as (content & rows & Hc & Hd & Hr & _ & Hcols).
    exists content. split; [exact Hc|].
    assert (Hrows : rows <> []).
    { intros ->. vm_compute in Hc. injection Hc as <-. discriminate Hd. }
    assert (Hp : protoKey ∉ csvHeaders stockCsv)
      by (apply (bool_decide_unpack _); vm_compute; exact I).
    assert (Hnd : NoDup (csvHeaders stockCsv))
      by (apply (bool_decide_unpack _); vm_compute; exact I).
    split.
    + rewrite Hr. vm_compute in Hc. injection Hc as <-.
      injection Hd as <-. reflexivity.
    + exact (proj2 (Hcols Hrows Hp) Hnd).
  - destruct (proj2 (tabular_metadata_counts headerSummary stockWorkbook)
                (fun _ => Return stockSheet) stockSheet eq_refl)
      as (content & headers & Hc & Htext & Hheaders & _ & Hr & _ & _ & Hcols).
    exists content. split; [exact Hc|].
    split; [rewrite Htext, Hheaders; vm_compute; reflexivity|].
    split; [exact Hr|].
    rewrite (Hcols ltac:(discriminate)), Hheaders. vm_compute. reflexivity.
Defined.

(** C8, as stated, fails for a CSV file that has its header line only: it
    has three column headers and no column count; and for a header that
    comes twice: two headers, one column counted. *)
Lemma extractMetadata_column_count_differs :
  (exists content,
     processCsv noSummary headerOnlyCsv = Return content
     /\ length (csvHeaders headerOnlyCsv) = 3
     /\ columnCount (extractMetadata headerOnlyCsv Csv content) = None)
  /\ (exists content,
        processCsv noSummary duplicateHeaderCsv = Return content
        /\ length (csvHeaders duplicateHeaderCsv) = 2
        /\ columnCount (extractMetadata duplicateHeaderCsv Csv content) = Some 1).
Proof. split; eexists; (split; [reflexivity|]); split; reflexivity. Qed.

(** The column count of a workbook is taken from the first row alone: a
    key that only a later row has is neither a header of the extraction
    nor counted. *)
Example processExcel_first_row_columns :
  exists content,
    processExcel headerSummary (fun _ => Return raggedSheet) stockWorkbook
    = Return content
    /\ text content = Some (js "1 headers")
    /\ List.map (fun row => length (objectKeys row)) raggedSheet = [1; 2]
    /\ rowCount (extractMetadata stockWorkbook Excel content) = Some 2
    /\ columnCount (extractMetadata stockWorkbook Excel content) = Some 1.
Proof.
  eexists. split; [reflexivity|]. split; [by vm_compute|].
  split; [by vm_compute|]. split; by vm_compute.
Qed.

(** * Further properties *)

(** ** Registry lookups *)

Lemma getOutputConfig_Some (promptFragmentOf : OutputType -> list N)
    (outputType : OutputType) :
  exists config,
    getOutputConfig promptFragmentOf outputType = Some config
    /\ id config = outputType
    /\ In config (getAllOutputTypes promptFragmentOf).
Proof.
  destruct outputType; eexists; (split; [reflexivity|]); (split; [reflexivity|]);
    unfold getAllOutputTypes, objectValues, OUTPUT_REGISTRY; cbn [List.map snd In];
    tauto.
Qed.

Lemma getAllOutputTypes_NoDup (promptFragmentOf : OutputType -> list N) :
  NoDup (List.map id (getAllOutputTypes promptFragmentOf)).
Proof. apply (bool_decide_unpack _). by vm_compute. Qed.

(** Every output type has its entry in the registry: the lookup by
    identifier finds a configuration, this configuration carries the
    identifier it was looked up with, and it is one of the ten that
    [getAllOutputTypes] lists, where no identifier comes twice. *)
Theorem getOutputConfig_found (promptFragmentOf : OutputType -> list N)
    (outputType : OutputType) :
  (exists config,
     getOutputConfig promptFragmentOf outputType = Some config
     /\ id config = outputType
     /\ In config (getAllOutputTypes promptFragmentOf))
  /\ length (getAllOutputTypes promptFragmentOf) = 10
  /\ NoDup (List.map id (getAllOutputTypes promptFragmentOf)).
Proof.
  split; [apply getOutputConfig_Some|].
  split; [reflexivity | apply getAllOutputTypes_NoDup].
Qed.

Lemma getProperty_In {V : Type} (o : list (OutputType * V)) (key : OutputType) (v : V) :
  getProperty o key = Some v -> In (key, v) o.
Proof.
  induction o as [|[k w] o IH]; simpl; [done|].
  case_bool_decide as Hk.
  - intros [= ->]. left. by rewrite Hk.
  - intros H. right. by apply IH.
Qed.

(** [isOutputApplicable] never throws, and for an output type other than
    [auto] it answers true exactly when [getApplicableOutputs] lists the
    configuration of this output type; for [auto] it answers true for every
    file type, although [getApplicableOutputs] never lists it. *)
Theorem isOutputApplicable_getApplicableOutputs
    (promptFragmentOf : OutputType -> list N) (outputType : OutputType)
    (fileType : SupportedFileType) :
  exists answer,
    isOutputApplicable promptFragmentOf outputType fileType = Return answer
    /\ (outputType <> Auto ->
        (answer = true <->
         exists config, In config (getApplicableOutputs promptFragmentOf fileType)
                        /\ id config = outputType))
    /\ (outputType = Auto -> answer = true)
    /\ (forall config, In config (getApplicableOutputs promptFragmentOf fileType) ->
                       id config <> Auto).
Proof.
  destruct (getOutputConfig_Some promptFragmentOf outputType)
    as (config & Hget & Hid & Hin).
  pose proof (getAllOutputTypes_NoDup promptFragmentOf) as Hnodup.
  unfold isOutputApplicable. unfold getOutputConfig in Hget. rewrite Hget.
  eexists. split; [reflexivity|]. split; [|split].
  - intros Hauto. rewrite includesFileType_In. split.
    + intros Ht. exists config. split; [|done].
      unfold getApplicableOutputs. apply filter_In. split; [done|].
      rewrite andb_true_iff, negb_true_iff, bool_decide_eq_false, includesFileType_In.
      split; [congruence | done].
    + intros (config' & Hin' & Hid').
      unfold getApplicableOutputs in Hin'. apply filter_In in Hin' as [Hin' Hf].
      apply andb_true_iff in Hf as [_ Hf]. apply includesFileType_In in Hf.
      assert (config' = config) as ->; [|done].
      clear - Hin Hin' Hid Hid'. subst outputType.
      unfold getAllOutputTypes, objectValues, OUTPUT_REGISTRY in *.
      cbn [List.map snd In] in *.
      repeat (destruct Hin as [<-|Hin]);
        repeat (destruct Hin' as [<-|Hin']); try done; try discriminate.
  - intros ->. injection Hget as <-. by destruct fileType.
  - intros config' Hin'. unfold getApplicableOutputs in Hin'.
    apply filter_In in Hin' as [_ Hf]. apply andb_true_iff in Hf as [Hf _].
    by apply negb_true_iff, bool_decide_eq_false in Hf.
Qed.

(** The fallback of the auto-selection against the registry: for every file
    type but video, the default output type is applicable to the file type
    and is among the outputs offered for it; for video no concrete output
    is offered at all, and the default is not applicable. *)
Theorem getDefaultOutputType_applicable (promptFragmentOf : OutputType -> list N)
    (fileType : SupportedFileType) :
  (fileType <> Video ->
   isOutputApplicable promptFragmentOf (getDefaultOutputType fileType) fileType
   = Return true
   /\ In (getDefaultOutputType fileType)
        (List.map id (getApplicableOutputs promptFragmentOf fileType)))
  /\ (fileType = Video ->
      isOutputApplicable promptFragmentOf (getDefaultOutputType fileType) fileType
      = Return false
      /\ getApplicableOutputs promptFragmentOf fileType = []).
Proof.
  split.
  - intros Hv. destruct fileType; try done; (split; [reflexivity|]);
      rewrite <- list_elem_of_In; apply (bool_decide_unpack _); by vm_compute.
  - intros ->. split; reflexivity.
Qed.

Lemma getDefaultOutputType_applicable_witness :
  isOutputApplicable (fun _ => []) (getDefaultOutputType Csv) Csv = Return true
  /\ isOutputApplicable (fun _ => []) (getDefaultOutputType Video) Video = Return false.
Proof.
  split.
  - apply (proj1 (getDefaultOutputType_applicable (fun _ => []) Csv)). discriminate.
  - apply (proj2 (getDefaultOutputType_applicable (fun _ => []) Video)). reflexivity.
Defined.

Lemma isOutputApplicable_getApplicableOutputs_witness :
  exists config,
    In config (getApplicableOutputs (fun _ => []) Csv) /\ id config = FlashcardDrill.
Proof.
  destruct (isOutputApplicable_getApplicableOutputs (fun _ => []) FlashcardDrill Csv)
    as (answer & Hr & Hiff & _).
  apply Hiff; [discriminate|]. vm_compute in Hr. congruence.
Defined.

(** ** Response cleaning, continued *)

Lemma matchPrefix_split (eqc : N -> N -> bool) (pat s rest : list N) :
  matchPrefix eqc pat s = Some rest ->
  exists m, s = m ++ rest /\ length m = length pat.
Proof.
  revert s. induction pat as [|p pat IH]; intros s; simpl.
  - intros [= ->]. by exists [].
  - destruct s as [|c s]; [done|]. destruct (eqc p c); [|done].
    intros H. destruct (IH s H) as (m & -> & Hm). exists (c :: m). simpl. by rewrite Hm.
Qed.

Lemma matchPrefix_app_r (eqc : N -> N -> bool) (pat s rest t : list N) :
  matchPrefix eqc pat s = Some rest ->
  matchPrefix eqc pat (s ++ t) = Some (rest ++ t).
Proof.
  revert s. induction pat as [|p pat IH]; intros s; simpl.
  - by intros [= ->].
  - destruct s as [|c s]; [done|]. simpl. destruct (eqc p c); [apply IH | done].
Qed.

Lemma trimStart_app_whiteSpace (w s : list N) :
  allWhiteSpace w = true -> trimStart (w ++ s) = trimStart s.
Proof.
  induction w as [|c w IH]; simpl; [done|].
  intros H. apply andb_true_iff in H as [Hc Hw]. rewrite Hc. by apply IH.
Qed.

Lemma trim_fixed (s : list N) : trim s = s -> trimStart s = s /\ trimEnd s = s.
Proof.
  unfold trim. intros H.
  destruct (trimStart_split s) as (w & Hs & _).
  destruct (trimEnd_split (trimStart s)) as (w' & Hs' & _).
  rewrite H in Hs'. rewrite Hs' in Hs.
  assert (Hlen : length s = length (w ++ s ++ w')) by (by rewrite <- Hs).
  rewrite !length_app in Hlen.
  assert (w = []) as -> by (destruct w; [done | simpl in Hlen; lia]).
  assert (w' = []) as -> by (destruct w'; [done | simpl in Hlen; lia]).
  rewrite app_nil_r in Hs'. split; [done|]. by rewrite <- Hs' at 1.
Qed.

Lemma trimStart_length (s : list N) : length (trimStart s) <= length s.
Proof.
  induction s as [|c s IH]; simpl; [done|]. destruct (isWhiteSpace c); simpl; lia.
Qed.

Lemma trimStart_fixed_app (s t : list N) :
  s <> [] -> trimStart s = s -> trimStart (s ++ t) = s ++ t.
Proof.
  destruct s as [|c s]; [done|]. intros _. simpl.
  destruct (isWhiteSpace c); [|done].
  intros H. pose proof (trimStart_length s) as Hl. rewrite H in Hl. simpl in Hl. lia.
Qed.

Lemma replaceTrailingFence_last (a w : list N) :
  allWhiteSpace w = true -> replaceTrailingFence (a ++ fence ++ w) = a.
Proof.
  intros Hw. induction a as [|c a IH].
  - simpl app. change fence with [96; 96; 96]%N. simpl. by rewrite Hw.
  - change ((c :: a) ++ fence ++ w) with (c :: (a ++ fence ++ w)).
    rewrite replaceTrailingFence_cons, IH, matchPrefix_fence.
    destruct (matchPrefix codeUnitEqb fence (c :: a ++ fence ++ w)) as [rest|] eqn:Hm;
      [|done].
    apply matchPrefix_exact in Hm.
    assert (Hrest : allWhiteSpace rest = false); [|by rewrite Hrest].
    change fence with [96; 96; 96]%N in Hm.
    destruct a as [|d [|e a]]; simplify_eq/=; try done.
    rewrite allWhiteSpace_app. simpl. by rewrite andb_false_r.
Qed.

Lemma hasLeadingFence_app (s t : list N) :
  hasLeadingFence s = false ->
  (3 <= length s \/ exists c t', t = c :: t' /\ isWhiteSpace c = true) ->
  hasLeadingFence (s ++ t) = false.
Proof.
  intros Hs Hor. destruct (hasLeadingFence (s ++ t)) eqn:H; [exfalso|done].
  unfold hasLeadingFence in *. apply startsWith_prefix in H as [r Hr].
  change fence with [96; 96; 96]%N in *.
  destruct s as [|a [|b [|c s]]].
  - destruct Hor as [Hl|(c' & t' & -> & Hc)]; [simpl in Hl; lia|].
    simplify_eq/=.
  - destruct Hor as [Hl|(c' & t' & -> & Hc)]; [simpl in Hl; lia|].
    simplify_eq/=.
  - destruct Hor as [Hl|(c' & t' & -> & Hc)]; [simpl in Hl; lia|].
    simplify_eq/=.
  - simplify_eq/=.
Qed.

(** Cleaning unwraps a fenced answer: when the markup, itself trimmed and
    not starting with a fence, comes between an opening fence (tagged
    [html] in any letter case, or bare and followed by white space) and a
    closing fence, with white space around, the result is the markup
    itself. *)
Theorem cleanResponse_unwraps (opening ws1 body ws2 ws3 : list N) :
  (matchPrefix ciEqb (js "```html") opening = Some []
   \/ (opening = fence /\ ws1 <> [])) ->
  allWhiteSpace ws1 = true -> allWhiteSpace ws2 = true -> allWhiteSpace ws3 = true ->
  body <> [] -> trim body = body -> hasLeadingFence body = false ->
  (ws2 <> [] \/ 3 <= length body) ->
  cleanResponse (opening ++ ws1 ++ body ++ ws2 ++ fence ++ ws3) = body.
Proof.
  intros Hopen H1 H2 H3 Hne Htrim Hlead Hsep.
  destruct (trim_fixed body Htrim) as [Hts Hte].
  set (rest := body ++ ws2 ++ fence ++ ws3).
  assert (Hrest : hasLeadingFence rest = false).
  { apply hasLeadingFence_app; [done|].
    destruct Hsep as [Hsep|Hsep]; [right | by left].
    destruct ws2 as [|c ws2]; [done|]. exists c, (ws2 ++ fence ++ ws3).
    split; [done|]. simpl in H2. by apply andb_true_iff in H2 as [? _]. }
  assert (Hstart : trimStart (ws1 ++ rest) = rest).
  { rewrite trimStart_app_whiteSpace by done. by apply trimStart_fixed_app. }
  assert (Hfirst2 : replaceLeadingFence (replaceLeadingHtmlFence (opening ++ ws1 ++ rest))
                    = rest).
  { destruct Hopen as [Hopen|[-> Hws1]].
    - unfold replaceLeadingHtmlFence.
      rewrite (matchPrefix_app_r _ _ _ _ (ws1 ++ rest) Hopen). simpl app.
      rewrite Hstart. exact (replaceLeadingFence_id rest Hrest).
    - assert (Hno : replaceLeadingHtmlFence (fence ++ ws1 ++ rest) = fence ++ ws1 ++ rest).
      { unfold replaceLeadingHtmlFence.
        change (js "```html") with (fence ++ js "html").
        rewrite matchPrefix_app, matchPrefix_fence.
        rewrite (proj2 (matchPrefix_exact fence (fence ++ ws1 ++ rest) (ws1 ++ rest)) eq_refl).
        change (js "html") with [104; 116; 109; 108]%N.
        destruct ws1 as [|c ws1]; [done|]. simpl in H1.
        apply andb_true_iff in H1 as [Hc _]. cbn [app matchPrefix].
        destruct (ciEqb 104 c) eqn:Hh; [|done].
        unfold ciEqb in Hh. apply N.eqb_eq in Hh. change (asciiUpper 104) with 72%N in Hh.
        unfold asciiUpper in Hh.
        destruct ((97 <=? c) && (c <=? 122))%N eqn:Hr.
        - assert (c = 104%N) as -> by lia. done.
        - subst c. done. }
      rewrite Hno. unfold replaceLeadingFence. rewrite matchPrefix_fence.
      rewrite (proj2 (matchPrefix_exact fence (fence ++ ws1 ++ rest) (ws1 ++ rest)) eq_refl).
      exact Hstart. }
  unfold cleanResponse. rewrite Hfirst2. unfold rest.
  rewrite (app_assoc body ws2), (replaceTrailingFence_last _ ws3 H3).
  unfold trim. rewrite (trimStart_fixed_app body ws2 Hne Hts).
  by rewrite (trimEnd_app_whiteSpace body ws2 H2).
Qed.

Lemma cleanResponse_unwraps_witness :
  cleanResponse (js "```HTML" ++ [10%N] ++ js "<!DOCTYPE html><p>hi</p>" ++ [10%N]
                 ++ fence ++ [32%N; 10%N])
  = js "<!DOCTYPE html><p>hi</p>"
  /\ cleanResponse (fence ++ [13%N; 10%N] ++ js "<p>hi</p>" ++ [] ++ fence ++ [])
     = js "<p>hi</p>".
Proof.
  split.
  - apply (cleanResponse_unwraps (js "```HTML") [10%N] (js "<!DOCTYPE html><p>hi</p>")
             [10%N] [32%N; 10%N]); try reflexivity.
    + left. reflexivity.
    + discriminate.
    + left. discriminate.
  - apply (cleanResponse_unwraps fence [13%N; 10%N] (js "<p>hi</p>") [] []);
      try reflexivity.
    + right. split; [reflexivity | discriminate].
    + discriminate.
    + right. simpl. lia.
Defined.

Lemma replaceTrailingFence_prefix (x : list N) :
  replaceTrailingFence x `prefix_of` x.
Proof.
  induction x as [|c x IH]; [done|].
  rewrite replaceTrailingFence_cons.
  assert (Hnext : c :: replaceTrailingFence x `prefix_of` c :: x)
    by (by apply prefix_cons).
  destruct (matchPrefix ciEqb fence (c :: x)) as [rest|]; [|done].
  destruct (allWhiteSpace rest); [apply prefix_nil | done].
Qed.

Lemma trimStart_suffix (s : list N) : trimStart s `suffix_of` s.
Proof. destruct (trimStart_split s) as (w & Hs & _). by exists w. Qed.

Lemma trimEnd_prefix (s : list N) : trimEnd s `prefix_of` s.
Proof. destruct (trimEnd_split s) as (w & Hs & _). by exists w. Qed.

Lemma replaceLeadingHtmlFence_suffix (x : list N) :
  replaceLeadingHtmlFence x `suffix_of` x.
Proof.
  unfold replaceLeadingHtmlFence.
  destruct (matchPrefix ciEqb (js "```html") x) as [rest|] eqn:Hm; [|done].
  apply matchPrefix_split in Hm as (m & -> & _).
  etrans; [apply trimStart_suffix | by exists m].
Qed.

Lemma replaceLeadingFence_suffix (x : list N) : replaceLeadingFence x `suffix_of` x.
Proof.
  unfold replaceLeadingFence.
  destruct (matchPrefix ciEqb fence x) as [rest|] eqn:Hm; [|done].
  apply matchPrefix_split in Hm as (m & -> & _).
  etrans; [apply trimStart_suffix | by exists m].
Qed.

(** Cleaning only cuts at the two ends: the result is a contiguous piece of
    the response, with no white space left around it, and it is never
    longer than the response.  The inside of the markup is never altered. *)
Theorem cleanResponse_piece (x : list N) :
  (exists before after, x = before ++ cleanResponse x ++ after)
  /\ trim (cleanResponse x) = cleanResponse x
  /\ length (cleanResponse x) <= length x.
Proof.
  assert (Hpiece : exists before after, x = before ++ cleanResponse x ++ after).
  { unfold cleanResponse, trim.
    destruct (replaceLeadingHtmlFence_suffix x) as [a1 H1].
    destruct (replaceLeadingFence_suffix (replaceLeadingHtmlFence x)) as [a2 H2].
    destruct (replaceTrailingFence_prefix
                (replaceLeadingFence (replaceLeadingHtmlFence x))) as [b1 H3].
    set (y := replaceTrailingFence (replaceLeadingFence (replaceLeadingHtmlFence x))) in *.
    destruct (trimStart_suffix y) as [a3 H4].
    destruct (trimEnd_prefix (trimStart y)) as [b2 H5].
    exists (a1 ++ a2 ++ a3), (b2 ++ b1).
    rewrite H1 at 1. rewrite H2 at 1. rewrite H3 at 1. rewrite H4 at 1.
    rewrite H5 at 1. by rewrite <- !app_assoc. }
  split; [exact Hpiece|]. split; [apply cleanResponse_trimmed|].
  destruct Hpiece as (before & after & Hx).
  rewrite Hx at 2. rewrite !length_app. lia.
Qed.

(** ** The CSV line parser *)

Lemma elem_of_trim (c : N) (s : list N) : c ∈ trim s -> c ∈ s.
Proof.
  unfold trim. intros H.
  destruct (trimStart_split s) as (w & Hs & _).
  destruct (trimEnd_split (trimStart s)) as (w' & Hs' & _).
  rewrite Hs, Hs'. rewrite !elem_of_app. auto.
Qed.

Lemma parseCsvLineFrom_fields (P : list N -> Prop) (line : list N)
    (result : list (list N)) (current : list N) (inQuotes : bool) :
  (forall s, 34%N ∉ s -> P (trim s)) ->
  Forall P result -> 34%N ∉ current ->
  Forall P (parseCsvLineFrom line result current inQuotes).
Proof.
  intros HP. revert result current inQuotes.
  induction line as [|char rest IH]; intros result current inQuotes Hres Hcur; simpl.
  - apply Forall_app. split; [done|]. constructor; [by apply HP | constructor].
  - destruct (char =? 34)%N eqn:Hq; [by apply IH|].
    destruct ((char =? 44)%N && negb inQuotes).
    + apply IH; [|apply not_elem_of_nil].
      apply Forall_app. split; [done|]. constructor; [by apply HP | constructor].
    + apply IH; [done|]. rewrite elem_of_app, list_elem_of_singleton.
      apply N.eqb_neq in Hq. intros [H|H]; [done | congruence].
Qed.

(** No field that the parser gives contains a quote character or has white
    space around it, and it gives at least one field: the quotes only
    switch the quoted state and are dropped, also where a doubled quote is
    meant as a quote inside a field. *)
Theorem parseCsvLine_fields (line : list N) :
  parseCsvLine line <> []
  /\ Forall (fun field => (34%N ∉ field) /\ trim field = field) (parseCsvLine line).
Proof.
  split.
  - unfold parseCsvLine. generalize (@nil (list N)) at 1 as result.
    generalize (@nil N) as current. generalize false as inQuotes.
    induction line as [|char rest IH]; intros inQuotes current result; simpl.
    + by destruct result.
    + destruct (char =? 34)%N; [apply IH|].
      destruct ((char =? 44)%N && negb inQuotes); apply IH.
  - apply parseCsvLineFrom_fields; [|constructor|apply not_elem_of_nil].
    intros s Hs. split; [|apply trim_idem].
    intros H. by apply Hs, elem_of_trim.
Qed.

Lemma split_cons_inv (sep : N) (s : list N) :
  exists piece pieces, split sep s = piece :: pieces.
Proof.
  induction s as [|c s (piece & pieces & IH)]; simpl; [by eexists _, _|].
  destruct (codeUnitEqb c sep); [by eexists _, _|]. rewrite IH. by eexists _, _.
Qed.

Lemma parseCsvLineFrom_unquoted (line : list N) (result : list (list N))
    (current : list N) :
  34%N ∉ line ->
  parseCsvLineFrom line result current false
  = result ++ match split 44%N line with
              | piece :: pieces => trim (current ++ piece) :: List.map trim pieces
              | [] => []
              end.
Proof.
  revert result current. induction line as [|char rest IH]; intros result current Hq.
  - simpl. by rewrite app_nil_r.
  - assert (Hchar : (char =? 34)%N = false).
    { apply N.eqb_neq. intros ->. apply Hq. constructor. }
    assert (Hrest : 34%N ∉ rest).
    { intros H. apply Hq. by constructor. }
    simpl. rewrite Hchar. unfold codeUnitEqb.
    destruct (char =? 44)%N eqn:Hc; simpl.
    + rewrite (IH _ _ Hrest). rewrite app_nil_r, <- app_assoc. simpl.
      by destruct (split_cons_inv 44 rest) as (piece & pieces & ->).
    + rewrite (IH _ _ Hrest).
      destruct (split_cons_inv 44 rest) as (piece & pieces & ->).
      by rewrite <- app_assoc.
Qed.

(** On a line without quote characters the parser is the plain split at the
    commas, each piece trimmed. *)
Theorem parseCsvLine_unquoted (line : list N) :
  34%N ∉ line -> parseCsvLine line = List.map trim (split 44%N line).
Proof.
  intros Hq. unfold parseCsvLine. rewrite (parseCsvLineFrom_unquoted _ _ _ Hq).
  by destruct (split_cons_inv 44 line) as (piece & pieces & ->).
Qed.

Lemma parseCsvLine_unquoted_witness :
  parseCsvLine (js "name , signups,,revenue ")
  = [js "name"; js "signups"; []; js "revenue"].
Proof.
  rewrite (parseCsvLine_unquoted (js "name , signups,,revenue ")).
  - reflexivity.
  - apply (bool_decide_unpack _). vm_compute. exact I.
Defined.

Lemma parseCsvLineFrom_app_quoted (field rest : list N) (result : list (list N))
    (current : list N) :
  34%N ∉ field ->
  parseCsvLineFrom (field ++ rest) result current true
  = parseCsvLineFrom rest result (current ++ field) true.
Proof.
  revert current. induction field as [|c field IH]; intros current Hq.
  - simpl. by rewrite app_nil_r.
  - assert (Hc : (c =? 34)%N = false).
    { apply N.eqb_neq. intros ->. apply Hq. constructor. }
    simpl. rewrite Hc, andb_false_r. rewrite IH.
    + by rewrite <- app_assoc.
    + intros H. apply Hq. by constructor.
Qed.

Lemma parseCsvLineFrom_quoted_fields (fields : list (list N)) (field : list N)
    (result : list (list N)) :
  Forall (fun f => (34%N ∉ f) /\ trim f = f) (field :: fields) ->
  parseCsvLineFrom
    (join [44%N] (List.map (fun f => [34%N] ++ f ++ [34%N]) (field :: fields)))
    result [] false
  = result ++ field :: fields.
Proof.
  revert field result. induction fields as [|next fields IH]; intros field result Hall.
  - apply Forall_cons in Hall as [[Hq Ht] _]. cbn [List.map join].
    change ([34%N] ++ field ++ [34%N]) with (34%N :: (field ++ [34%N])).
    cbn [parseCsvLineFrom N.eqb Pos.eqb negb].
    rewrite (parseCsvLineFrom_app_quoted field [34%N] result [] Hq).
    simpl. by rewrite Ht.
  - apply Forall_cons in Hall as [[Hq Ht] Hall].
    cbn [List.map]. cbn [List.map] in IH.
    change (join [44%N] (([34%N] ++ field ++ [34%N])
                         :: ([34%N] ++ next ++ [34%N])
                         :: List.map (fun f => [34%N] ++ f ++ [34%N]) fields))
      with (([34%N] ++ field ++ [34%N]) ++ [44%N]
            ++ join [44%N] (([34%N] ++ next ++ [34%N])
                            :: List.map (fun f => [34%N] ++ f ++ [34%N]) fields)).
    rewrite <- !app_assoc.
    change ([34%N] ++ field ++ [34%N] ++ [44%N] ++ ?x)
      with (34%N :: (field ++ [34%N; 44%N] ++ x)).
    cbn [parseCsvLineFrom N.eqb Pos.eqb negb].
    rewrite (parseCsvLineFrom_app_quoted field _ result [] Hq).
    cbn [app parseCsvLineFrom N.eqb Pos.eqb negb andb].
    rewrite (IH next _ Hall), Ht, <- app_assoc. reflexivity.
Qed.

(** Quoted fields survive: for fields that hold no quote character and no
    white space around, each written between quotes and the whole joined by
    commas, the parser gives back the fields, commas inside them
    included. *)
Theorem parseCsvLine_quoted_fields (fields : list (list N)) :
  fields <> [] ->
  Forall (fun f => (34%N ∉ f) /\ trim f = f) fields ->
  parseCsvLine (join [44%N] (List.map (fun f => [34%N] ++ f ++ [34%N]) fields))
  = fields.
Proof.
  destruct fields as [|field fields]; [done|]. intros _ Hall.
  unfold parseCsvLine. by rewrite (parseCsvLineFrom_quoted_fields fields field [] Hall).
Qed.

Lemma parseCsvLine_quoted_fields_witness :
  parseCsvLine (join [44%N] (List.map (fun f => [34%N] ++ f ++ [34%N])
                               [js "Smith, John"; js "1,234"; []]))
  = [js "Smith, John"; js "1,234"; []].
Proof.
  apply parseCsvLine_quoted_fields; [discriminate|].
  repeat (constructor; [split; [apply (bool_decide_unpack _); vm_compute; exact I
                               | reflexivity]|]).
  constructor.
Defined.

(** ** Numeric coercion *)

Lemma takeDigits_app (ds rest : list N) :
  forallb isDigit ds = true ->
  takeDigits (ds ++ rest) = (ds ++ fst (takeDigits rest), snd (takeDigits rest)).
Proof.
  induction ds as [|d ds IH]; simpl.
  - intros _. by destruct (takeDigits rest).
  - intros H. apply andb_true_iff in H as [Hd Hds]. rewrite Hd, (IH Hds). done.
Qed.

Lemma takeDigits_cons (c : N) (s : list N) :
  takeDigits (c :: s)
  = if isDigit c then (c :: fst (takeDigits s), snd (takeDigits s)) else ([], c :: s).
Proof. simpl. destruct (isDigit c); [|done]. by destruct (takeDigits s). Qed.

Lemma uintToString_digits (u : Decimal.uint) :
  forallb isDigit (uintToString u) = true.
Proof. induction u; simpl; done. Qed.

Lemma digitsValue_uint (u : Decimal.uint) (acc : nat) :
  fold_left (fun a d => (10 * a + (d - 48))%N) (uintToString u) (N.of_nat acc)
  = N.of_nat (Nat.of_uint_acc u acc).
Proof.
  revert acc. induction u; intros acc; simpl; [done|..];
    rewrite <- IHu; f_equal; rewrite Nat.tail_mul_spec; lia.
Qed.

Lemma natToString_uint (n : nat) :
  exists d ds, natToString n = d :: ds
               /\ forallb isDigit (d :: ds) = true
               /\ digitsValue (d :: ds) = N.of_nat n.
Proof.
  unfold natToString.
  assert (Hval : digitsValue (uintToString (Nat.to_uint n)) = N.of_nat n).
  { unfold digitsValue. change 0%N with (N.of_nat 0).
    rewrite digitsValue_uint. change (Nat.of_uint_acc (Nat.to_uint n) 0)
      with (Nat.of_uint (Nat.to_uint n)). by rewrite Unsigned.of_to. }
  pose proof (uintToString_digits (Nat.to_uint n)) as Hdig.
  destruct (Nat.to_uint n) eqn:Hu;
    eexists _, _; (split; [reflexivity|]); (split; [exact Hdig | exact Hval]).
Qed.

(** A natural number up to [2^53] is stored as it is. *)
Lemma numberValue_natural (n : nat) :
  (N.of_nat n <= 2 ^ 53)%N ->
  numberValue (NumDecimal false (N.of_nat n) 0)
  = Float64Finite (inject_Z (Z.of_nat n)).
Proof.
  intros Hn. unfold numberValue.
  set (magnitude := (inject_Z (Z.of_N (N.of_nat n)) * 10 ^ 0)%Q).
  assert (Hm : (magnitude == inject_Z (Z.of_nat n))%Q).
  { subst magnitude. rewrite nat_N_Z. change ((10 : Q) ^ 0)%Q with 1%Q. ring. }
  assert (Hk : (0 <= Z.of_nat n <= 2 ^ 53)%Z).
  { split; [lia|]. rewrite <- nat_N_Z.
    change (2 ^ 53)%Z with (Z.of_N (2 ^ 53)%N). lia. }
  assert (Hsmall : Qle_bool (2 ^ 1024 - 2 ^ 970) magnitude = false).
  { destruct (Qle_bool (2 ^ 1024 - 2 ^ 970) magnitude) eqn:Hle; [|done].
    apply Qle_bool_iff in Hle. rewrite Hm in Hle.
    assert (Hk53 : (inject_Z (Z.of_nat n) <= inject_Z (2 ^ 53))%Q)
      by (rewrite <- Zle_Qle; lia).
    assert (Hbig : (inject_Z (2 ^ 53) < 2 ^ 1024 - 2 ^ 970)%Q) by reflexivity.
    lra. }
  rewrite Hsmall. f_equal. by apply binary64_integer.
Qed.


(** Reading back a written count: the decimal text of a natural number [n]
    is read by [parseFloat] to its end, as the literal [n], so that a cell
    holding it is stored as a number and not as a string; the number that
    is stored is [n] itself when [n] is at most [2^53].  Beyond, it is the
    binary64 number nearest to [n], which may differ from [n]. *)
Theorem parseFloat_natToString (n : nat) :
  parseFloat (natToString n) = Some (NumDecimal false (N.of_nat n) 0)
  /\ parsesFullyAsNumber (natToString n) = true
  /\ coerceCell (natToString n) = CellNumber (NumDecimal false (N.of_nat n) 0)
  /\ ((N.of_nat n <= 2 ^ 53)%N ->
      numberValue (NumDecimal false (N.of_nat n) 0)
      = Float64Finite (inject_Z (Z.of_nat n))).
Proof.
  destruct (natToString_uint n) as (d & ds & Hs & Hdig & Hval).
  assert (Hread : readDecimalLiteral (natToString n)
                  = Some (NumDecimal false (N.of_nat n) 0, [])).
  { rewrite Hs. simpl in Hdig. apply andb_true_iff in Hdig as [Hd Hds].
    assert (Hrange : (48 <= d <= 57)%N).
    { unfold isDigit in Hd. apply andb_true_iff in Hd as [H1 H2].
      apply N.leb_le in H1, H2. lia. }
    unfold readDecimalLiteral. cbn [trimStart].
    assert (Hws : isWhiteSpace d = false).
    { unfold isWhiteSpace.
      repeat match goal with
             | |- context [(?a =? ?b)%N] =>
                 rewrite (proj2 (N.eqb_neq a b)) by lia
             | |- context [(?a <=? d)%N] =>
                 first [ rewrite (proj2 (N.leb_gt a d)) by lia
                       | rewrite (proj2 (N.leb_le a d)) by lia ]
             | |- context [(d <=? ?a)%N] =>
                 first [ rewrite (proj2 (N.leb_gt d a)) by lia
                       | rewrite (proj2 (N.leb_le d a)) by lia ]
             end. reflexivity. }
    rewrite Hws.
    rewrite (proj2 (N.eqb_neq d 43)), (proj2 (N.eqb_neq d 45)) by lia.
    unfold readUnsignedLiteral.
    change (js "Infinity") with (73 :: js "nfinity")%N. cbn [matchPrefix].
    unfold codeUnitEqb at 1. rewrite (proj2 (N.eqb_neq 73 d)) by lia.
    pose proof (takeDigits_app (d :: ds) [] (proj2 (andb_true_iff _ _) (conj Hd Hds)))
      as Htake.
    rewrite app_nil_r in Htake. simpl (takeDigits []) in Htake. simpl fst in Htake.
    simpl snd in Htake. rewrite app_nil_r in Htake. rewrite Htake.
    cbn [app readExponent length Z.of_nat]. rewrite app_nil_r, Hval. reflexivity. }
  unfold parseFloat, parsesFullyAsNumber, coerceCell, parseFloat. rewrite Hread.
  split; [done|]. split; [done|]. split; [done|]. apply numberValue_natural.
Qed.

Lemma parseFloat_natToString_witness :
  coerceCell (js "1234") = CellNumber (NumDecimal false 1234 0)
  /\ numberValue (NumDecimal false 1234 0) = Float64Finite 1234.
Proof.
  destruct (parseFloat_natToString 1234) as (_ & _ & Hcell & Hvalue).
  split; [exact Hcell|]. apply Hvalue. by vm_compute.
Defined.

(** Past [2^53] the number stored is not the one written: [2^53 + 1] is
    stored as [2^53].  A literal from [2^1024 - 2^970] on is stored as
    infinity, one that is small enough as zero, and 0.1 as the binary64
    number nearest to it. *)
Example numberValue_examples :
  numberValue (NumDecimal false 9007199254740993 0)
  = Float64Finite 9007199254740992
  /\ numberValue (NumDecimal false 1 400) = Float64Infinite false
  /\ numberValue (NumDecimal true 1 (-400)) = Float64Finite 0
  /\ numberValue (NumDecimal false 1 (-1)) = Float64Finite (3602879701896397 # 36028797018963968).
Proof. repeat split; by vm_compute. Qed.


(** A value is kept as a string exactly when it does not start like a
    number; as soon as it does, it is stored as a number, whatever
    follows. *)
Theorem coerceCell_string_iff (value : list N) :
  (coerceCell value = CellString value <-> startsLikeNumber value = false)
  /\ (startsLikeNumber value = true <-> exists n, coerceCell value = CellNumber n).
Proof.
  assert (Hunsigned : forall negative s,
             readUnsignedLiteral negative s = None <->
             startsWith s (js "Infinity")
             || match s with
                | c :: rest =>
                    isDigit c
                    || (c =? 46)%N && match rest with d :: _ => isDigit d | [] => false end
                | [] => false
                end = false).
  { intros negative s. unfold readUnsignedLiteral, startsWith.
    destruct (matchPrefix codeUnitEqb (js "Infinity") s); [done|]. cbn [orb].
    destruct s as [|c rest]; [done|]. rewrite takeDigits_cons.
    destruct (isDigit c) eqn:Hc; cbn [orb].
    - destruct (snd (takeDigits rest)) as [|c' s1].
      + cbn [app]. by destruct (readExponent []).
      + destruct (c' =? 46)%N.
        * destruct (takeDigits s1) as [fd s2]. cbn [app].
          by destruct (readExponent s2).
        * cbn [app]. by destruct (readExponent (c' :: s1)).
    - destruct (c =? 46)%N eqn:Hdot; cbn [andb].
      + destruct rest as [|d rest']; [done|]. rewrite takeDigits_cons.
        destruct (isDigit d); [|done]. cbn [app].
        by destruct (readExponent (snd (takeDigits rest'))).
      + done. }
  assert (Hnone : parseFloat value = None <-> startsLikeNumber value = false).
  { unfold parseFloat, readDecimalLiteral, startsLikeNumber.
    destruct (trimStart value) as [|c rest]; [done|].
    destruct (c =? 43)%N eqn:Hplus; cbn [orb].
    - rewrite <- (Hunsigned false rest). by destruct (readUnsignedLiteral false rest).
    - destruct (c =? 45)%N eqn:Hminus.
      + rewrite <- (Hunsigned true rest). by destruct (readUnsignedLiteral true rest).
      + rewrite <- (Hunsigned false (c :: rest)).
        by destruct (readUnsignedLiteral false (c :: rest)). }
  unfold coerceCell. destruct (parseFloat value) as [n|] eqn:Hp.
  - assert (Hs : startsLikeNumber value = true).
    { destruct (startsLikeNumber value) eqn:Hs'; [done|].
      discriminate (proj2 Hnone eq_refl). }
    rewrite Hs. split; [done|]. split; [by exists n | done].
  - rewrite (proj1 Hnone eq_refl). split; [done|].
    split; [done | by intros [n Hn]].
Qed.

Example coerceCell_examples :
  coerceCell (js "2024-01-15") = CellNumber (NumDecimal false 2024 0)
  /\ coerceCell (js "+1 555 0100") = CellNumber (NumDecimal false 1 0)
  /\ coerceCell (js "N/A") = CellString (js "N/A")
  /\ coerceCell (js "$12") = CellString (js "$12").
Proof. repeat split. Qed.

(** ** Lines of a CSV text *)

Lemma split_app (sep : N) (a b : list N) :
  split sep (a ++ [sep] ++ b) = split sep a ++ split sep b.
Proof.
  induction a as [|c a IH]; simpl.
  - unfold codeUnitEqb. by rewrite N.eqb_refl.
  - simpl in IH. rewrite IH.
    destruct (codeUnitEqb c sep); [done|].
    by destruct (split_cons_inv sep a) as (piece & pieces & ->).
Qed.

Lemma split_allWhiteSpace (sep : N) (s : list N) :
  allWhiteSpace s = true -> Forall (fun piece => allWhiteSpace piece = true) (split sep s).
Proof.
  induction s as [|c s IH]; simpl.
  - intros _. by constructor.
  - intros H. apply andb_true_iff in H as [Hc Hs]. specialize (IH Hs).
    destruct (codeUnitEqb c sep); [by constructor|].
    destruct (split sep s) as [|piece pieces]; [by repeat constructor; simpl; rewrite Hc|].
    apply Forall_cons in IH as [Hp Hps]. constructor; [|done]. simpl.
    by rewrite Hc.
Qed.

Lemma csvLines_app (a b : list N) :
  csvLines (a ++ [10%N] ++ b) = csvLines a ++ csvLines b.
Proof. unfold csvLines. by rewrite split_app, List.filter_app. Qed.

Lemma csvLines_blank (ws : list N) : allWhiteSpace ws = true -> csvLines ws = [].
Proof.
  intros H. unfold csvLines. pose proof (split_allWhiteSpace 10 ws H) as Hall.
  induction Hall as [|piece pieces Hp _ IH]; simpl; [done|].
  unfold trim. by rewrite (trimStart_allWhiteSpace piece Hp).
Qed.

(** Blank lines do not count.  The content extracted from a CSV file is
    decided by the lines of its text that are not blank; a line of white
    space only, put between two lines, before the first or after the last,
    changes nothing; and a text of white space only gives the empty table
    with the empty text. *)
Theorem processCsv_blank_lines
    (formatDataAsText : list (list N) -> list DataRow -> list N)
    (file1 file2 : File) (a ws b : list N) :
  allWhiteSpace ws = true ->
  (file_text file1 = a ++ [10%N] ++ ws ++ [10%N] ++ b
   /\ file_text file2 = a ++ [10%N] ++ b)
  \/ (file_text file1 = ws ++ [10%N] ++ b /\ file_text file2 = b)
  \/ (file_text file1 = a ++ [10%N] ++ ws /\ file_text file2 = a)
  \/ (file_text file1 = ws /\ file_text file2 = []) ->
  processCsv formatDataAsText file1 = processCsv formatDataAsText file2
  /\ (file_text file1 = ws ->
      processCsv formatDataAsText file1
      = Return {| text := Some []; pages := None; data := Some [];
                  frames := None; rawBase64 := None |}).
Proof.
  intros Hws Hcases.
  assert (Hlines : csvLines (file_text file1) = csvLines (file_text file2)).
  { destruct Hcases as [[-> ->]|[[-> ->]|[[-> ->]|[-> ->]]]].
    - by rewrite !csvLines_app, (csvLines_blank ws Hws).
    - by rewrite csvLines_app, (csvLines_blank ws Hws).
    - by rewrite csvLines_app, (csvLines_blank ws Hws), app_nil_r.
    - by rewrite (csvLines_blank ws Hws). }
  split.
  - unfold processCsv. by rewrite Hlines.
  - intros Hf. unfold processCsv. by rewrite Hf, (csvLines_blank ws Hws).
Qed.

Lemma processCsv_blank_lines_witness :
  processCsv noSummary
    (csvFile (js "a,b" ++ [10%N] ++ [32%N; 13%N] ++ [10%N] ++ js "1,2"))
  = processCsv noSummary (csvFile (js "a,b" ++ [10%N] ++ js "1,2")).
Proof.
  apply (processCsv_blank_lines noSummary _ _ (js "a,b") [32%N; 13%N] (js "1,2"));
    [reflexivity|].
  left. split; reflexivity.
Defined.

(** ** Text of a PDF page *)

Lemma collapseWhiteSpace_head (s : list N) (c : N) (rest : list N) :
  collapseWhiteSpace true s = c :: rest -> isWhiteSpace c = false.
Proof.
  induction s as [|d s IH]; simpl; [done|].
  destruct (isWhiteSpace d) eqn:Hd; [exact IH|]. by intros [= <- _].
Qed.

Lemma collapseWhiteSpace_adjacent (inRun : bool) (s : list N) (i : nat) (c d : N) :
  collapseWhiteSpace inRun s !! i = Some c ->
  collapseWhiteSpace inRun s !! S i = Some d ->
  isWhiteSpace c = true -> isWhiteSpace d = false.
Proof.
  revert inRun i. induction s as [|e s IH]; intros inRun i; simpl; [done|].
  destruct (isWhiteSpace e) eqn:He.
  - destruct inRun; [apply IH|].
    destruct i as [|i]; simpl; [|apply IH].
    intros _ Hd _. destruct (collapseWhiteSpace true s) as [|x rest] eqn:Hx; [done|].
    simpl in Hd. injection Hd as ->. by apply (collapseWhiteSpace_head s d rest).
  - destruct i as [|i]; simpl; [|apply IH].
    intros [= <-] _ Hc. congruence.
Qed.

Lemma collapseWhiteSpace_spaces (inRun : bool) (s : list N) :
  Forall (fun c => isWhiteSpace c = true -> c = 32%N) (collapseWhiteSpace inRun s).
Proof.
  revert inRun. induction s as [|e s IH]; intros inRun; simpl; [constructor|].
  destruct (isWhiteSpace e) eqn:He.
  - destruct inRun; [apply IH|]. constructor; [done | apply IH].
  - constructor; [congruence | apply IH].
Qed.

Lemma collapseWhiteSpace_letters (inRun : bool) (s : list N) :
  List.filter (fun c => negb (isWhiteSpace c)) (collapseWhiteSpace inRun s)
  = List.filter (fun c => negb (isWhiteSpace c)) s.
Proof.
  revert inRun. induction s as [|e s IH]; intros inRun; simpl; [done|].
  destruct (isWhiteSpace e) eqn:He; simpl.
  - destruct inRun; simpl; by rewrite IH.
  - by rewrite He, IH.
Qed.

Lemma filter_letters_trim (s : list N) :
  List.filter (fun c => negb (isWhiteSpace c)) (trim s)
  = List.filter (fun c => negb (isWhiteSpace c)) s.
Proof.
  assert (Hblank : forall w, allWhiteSpace w = true ->
                             List.filter (fun c => negb (isWhiteSpace c)) w = []).
  { induction w as [|c w IH]; simpl; [done|]. intros H.
    apply andb_true_iff in H as [Hc Hw]. rewrite Hc. by apply IH. }
  unfold trim.
  destruct (trimStart_split s) as (w & Hs & Hw).
  destruct (trimEnd_split (trimStart s)) as (w' & Hs' & Hw').
  rewrite Hs at 2. rewrite Hs' at 2.
  by rewrite !List.filter_app, (Hblank w Hw), (Hblank w' Hw'), app_nil_r.
Qed.

Lemma filter_letters_join (items : list (list N)) :
  List.filter (fun c => negb (isWhiteSpace c)) (join [32%N] items)
  = List.filter (fun c => negb (isWhiteSpace c)) (concat items).
Proof.
  induction items as [|item items IH]; [done|].
  destruct items as [|next items].
  - simpl. by rewrite app_nil_r.
  - change (join [32%N] (item :: next :: items))
      with (item ++ [32%N] ++ join [32%N] (next :: items)).
    change (concat (item :: next :: items)) with (item ++ concat (next :: items)).
    by rewrite !List.filter_app, IH.
Qed.

(** The text of a page is normalised: it has no white space at its ends,
    its only white space characters are single spaces, never two in a row,
    and its other characters are those of the text items of the page, in
    their order. *)
Theorem pageTextOf_normalised (page : PdfPage) :
  trim (pageTextOf page) = pageTextOf page
  /\ Forall (fun c => isWhiteSpace c = true -> c = 32%N) (pageTextOf page)
  /\ (forall i c d, pageTextOf page !! i = Some c -> pageTextOf page !! S i = Some d ->
                    isWhiteSpace c = true -> isWhiteSpace d = false)
  /\ List.filter (fun c => negb (isWhiteSpace c)) (pageTextOf page)
     = List.filter (fun c => negb (isWhiteSpace c)) (concat (textItems page)).
Proof.
  unfold pageTextOf.
  set (y := collapseWhiteSpace false (join [32%N] (textItems page))).
  assert (Hpiece : exists w w', y = w ++ trim y ++ w').
  { unfold trim. destruct (trimStart_split y) as (w & Hs & _).
    destruct (trimEnd_split (trimStart y)) as (w' & Hs' & _).
    exists w, w'. rewrite Hs at 1. by rewrite Hs' at 1. }
  destruct Hpiece as (w & w' & Hy).
  split; [apply trim_idem|]. split; [|split].
  - pose proof (collapseWhiteSpace_spaces false (join [32%N] (textItems page))) as H.
    fold y in H. rewrite Hy in H.
    apply Forall_app in H as [_ H]. by apply Forall_app in H as [H _].
  - intros i c d Hc Hd.
    apply (collapseWhiteSpace_adjacent false (join [32%N] (textItems page))
             (length w + i)); fold y; rewrite Hy.
    + rewrite lookup_app_r by lia. replace (length w + i - length w) with i by lia.
      by apply lookup_app_l_Some.
    + rewrite lookup_app_r by lia.
      replace (S (length w + i) - length w) with (S i) by lia.
      by apply lookup_app_l_Some.
  - rewrite filter_letters_trim. unfold y.
    by rewrite collapseWhiteSpace_letters, filter_letters_join.
Qed.

Example pageTextOf_example :
  pageTextOf {| textItems := [js "  Roof"; [9%N; 10%N] ++ js "inspection "; []; js "steps"];
                renderedPng := [] |}
  = js "Roof inspection steps".
Proof. reflexivity. Qed.

Lemma pageTextOf_normalised_witness :
  pageTextOf (getPage (samplePdf 3) 2) !! 4 = Some 32%N
  /\ pageTextOf (getPage (samplePdf 3) 2) !! 5 = Some 50%N
  /\ isWhiteSpace 50 = false.
Proof.
  split; [reflexivity|]. split; [reflexivity|].
  apply (proj1 (proj2 (proj2 (pageTextOf_normalised (getPage (samplePdf 3) 2))))
           4 32%N 50%N); reflexivity.
Defined.

(** ** Content parts of a request *)

Lemma inlineImages_app (a b : list Part) :
  inlineImages (a ++ b) = inlineImages a ++ inlineImages b.
Proof. apply flat_map_app. Qed.

Lemma pushPages_images (pages : list PageContent) (i : nat) (parts : list Part) :
  inlineImages (pushPages pages i parts)
  = inlineImages parts ++ pngImages (take (5 - i) pages).
Proof.
  revert i parts. induction pages as [|page pages IH]; intros i parts.
  - simpl. by rewrite take_nil, app_nil_r.
  - cbn [pushPages]. rewrite IH. destruct (Nat.ltb_spec i 5) as [Hi|Hi].
    + replace (5 - i) with (S (5 - S i)) by lia. cbn [take].
      unfold pngImages at 2. cbn [flat_map]. fold (pngImages (take (5 - S i) pages)).
      destruct (page_imageBase64 page) as [[|c s]|]; cbn [truthy andb default];
        rewrite ?inlineImages_app; cbn [inlineImages flat_map app];
        rewrite ?app_nil_r, <- ?app_assoc; reflexivity.
    + replace (5 - i) with 0 by lia. replace (5 - S i) with 0 by lia.
      rewrite andb_false_r, take_0. rewrite inlineImages_app. cbn.
      by rewrite !app_nil_r.
Qed.

Lemma pushFrames_images (frames : list VideoFrame) (i : nat) (parts : list Part) :
  inlineImages (pushFrames frames i parts) = inlineImages parts ++ jpegImages frames.
Proof.
  revert i parts. induction frames as [|frame frames IH]; intros i parts.
  - simpl. by rewrite app_nil_r.
  - cbn [pushFrames]. rewrite IH, !inlineImages_app. cbn.
    by rewrite app_nil_r, <- app_assoc.
Qed.

Lemma inlineImages_buildContentParts (numberToString : JsNumber -> list N)
    (inheritedProperty : list N -> option (list N))
    (orderedKeys : DataRow -> list (list N))
    (parsedFile : ParsedFile) (additionalInstructions : option (list N)) :
  inlineImages (buildContentParts numberToString inheritedProperty orderedKeys
                  parsedFile additionalInstructions)
  = pngImages (take 5 (default [] (pages (extractedContent parsedFile))))
    ++ jpegImages (default [] (frames (extractedContent parsedFile)))
    ++ match rawBase64 (extractedContent parsedFile) with
       | Some (c :: s) =>
           if bool_decide (parsed_type parsedFile = Image)
           then [(c :: s, mimeType parsedFile)] else []
       | _ => []
       end.
Proof.
  unfold buildContentParts.
  set (content := extractedContent parsedFile).
  destruct (truthy (text content));
    destruct (pages content) as [[|page pages']|];
    destruct (data content) as [[|first rest]|];
    destruct (frames content) as [[|frame frames']|];
    destruct (rawBase64 content) as [[|c s]|];
    destruct (bool_decide (parsed_type parsedFile = Image));
    cbn [truthy andb default];
    repeat first [ rewrite inlineImages_app
                 | rewrite pushPages_images
                 | rewrite pushFrames_images ];
    cbn [inlineImages flat_map app pngImages jpegImages List.map take];
    rewrite ?app_nil_r; try reflexivity;
    unfold jpegImages; cbn [from_option Datatypes.id List.map Nat.sub];
    rewrite <- ?app_assoc; reflexivity.
Qed.

(** The images attached to a generation request are: the renderings of the
    first five pages (of those that have one), as PNG; then the image of
    every video frame, as JPEG; then, for a file of type image only, the
    raw image under the declared media type of the file.  No other image
    is attached, and the order is this one. *)
Theorem buildContentParts_images (numberToString : JsNumber -> list N)
    (inheritedProperty : list N -> option (list N))
    (orderedKeys : DataRow -> list (list N))
    (parsedFile : ParsedFile) (additionalInstructions : option (list N)) :
  inlineImages (buildContentParts numberToString inheritedProperty orderedKeys
                  parsedFile additionalInstructions)
  = pngImages (take 5 (default [] (pages (extractedContent parsedFile))))
    ++ jpegImages (default [] (frames (extractedContent parsedFile)))
    ++ match rawBase64 (extractedContent parsedFile) with
       | Some (c :: s) =>
           if bool_decide (parsed_type parsedFile = Image)
           then [(c :: s, mimeType parsedFile)] else []
       | _ => []
       end.
Proof.
  exact (inlineImages_buildContentParts numberToString inheritedProperty
           orderedKeys parsedFile additionalInstructions).
Qed.

(** ** From a file to its request *)

Lemma process_with_type (env : Environment) (file : File) (type : SupportedFileType)
    (content : ExtractedContent) :
  detectFileType (env_toLowerCase env) file = Return type ->
  extractContent env file type = Return content ->
  process env file
  = Return {| originalFile := file;
              parsed_type := type;
              mimeType := file_type file;
              extractedContent := content;
              metadata := extractMetadata file type content |}.
Proof. intros Hd Hc. unfold process. by rewrite Hd; simpl; rewrite Hc. Qed.

Lemma pngImages_pageContentOf (pdf : PdfDocument) (numbers : list nat) :
  (forall k, renderedPng (getPage pdf k) <> []) ->
  pngImages (List.map (pageContentOf pdf) numbers)
  = List.map (fun k => (renderedPng (getPage pdf k), js "image/png")) numbers.
Proof.
  intros Hpng. induction numbers as [|k numbers IH]; [done|].
  cbn [List.map]. unfold pngImages in *. cbn [flat_map]. rewrite IH.
  cbn [pageContentOf page_imageBase64].
  specialize (Hpng k). by destruct (renderedPng (getPage pdf k)).
Qed.

(** A PDF from the upload to the request: the parsed file counts
    [min(numPages, 20)] pages, and the request carries the renderings of
    the pages 1 to [min(numPages, 5)], in this order, as PNG images, and no
    other image. *)
Theorem process_pdf_request (env : Environment) (file : File)
    (getDocument : File -> Completion PdfDocument) (pdf : PdfDocument)
    (numberToString : JsNumber -> list N)
    (inheritedProperty : list N -> option (list N))
    (orderedKeys : DataRow -> list (list N))
    (additionalInstructions : option (list N)) :
  detectFileType (env_toLowerCase env) file = Return Pdf ->
  env_pdfjsLib env = Some getDocument ->
  getDocument file = Return pdf ->
  (forall k, renderedPng (getPage pdf k) <> []) ->
  exists parsedFile,
    process env file = Return parsedFile
    /\ parsed_type parsedFile = Pdf
    /\ pageCount (metadata parsedFile) = Some (Nat.min (numPages pdf) 20)
    /\ inlineImages (buildContentParts numberToString inheritedProperty orderedKeys
                       parsedFile additionalInstructions)
       = List.map (fun k => (renderedPng (getPage pdf k), js "image/png"))
           (seq 1 (Nat.min (numPages pdf) 5)).
Proof.
  intros Hd Hlib Hdoc Hpng.
  assert (Hc : extractContent env file Pdf
               = Return {| text := Some (join [10%N; 10%N]
                                           (List.map pageMarker
                                              (List.map (pageContentOf pdf)
                                                 (seq 1 (Nat.min (numPages pdf) 20)))));
                           pages := Some (List.map (pageContentOf pdf)
                                            (seq 1 (Nat.min (numPages pdf) 20)));
                           data := None; frames := None; rawBase64 := None |}).
  { cbn [extractContent]. rewrite Hlib. by rewrite (processPdf_Return _ _ _ Hdoc). }
  eexists. split; [exact (process_with_type env file Pdf _ Hd Hc)|].
  split; [reflexivity|]. split.
  - cbn [metadata extractMetadata pageCount pages fmap option_fmap option_map].
    by rewrite List.length_map, length_seq.
  - rewrite inlineImages_buildContentParts.
    cbn [extractedContent pages frames rawBase64 default from_option Datatypes.id
         jpegImages List.map app].
    rewrite app_nil_r.
    change (List.map (pageContentOf pdf) (seq 1 (Nat.min (numPages pdf) 20)))
      with (pageContentOf pdf <$> seq 1 (Nat.min (numPages pdf) 20)).
    rewrite <- fmap_take, take_seq.
    replace (Nat.min 5 (Nat.min (numPages pdf) 20)) with (Nat.min (numPages pdf) 5)
      by lia.
    by apply pngImages_pageContentOf.
Qed.

Lemma process_pdf_request_witness :
  exists parsedFile,
    process plainEnvironment (sampleFile (js "Manual.PDF") [] []) = Return parsedFile
    /\ pageCount (metadata parsedFile) = Some 7
    /\ length (inlineImages (buildContentParts (fun _ => []) (fun _ => None)
                               (fun _ => []) parsedFile None)) = 5.
Proof.
  destruct (process_pdf_request plainEnvironment (sampleFile (js "Manual.PDF") [] [])
              (fun _ => Return (samplePdf 7)) (samplePdf 7)
              (fun _ => []) (fun _ => None) (fun _ => []) None)
    as (parsedFile & Hp & _ & Hcount & Himages); try reflexivity.
  - intros k. discriminate.
  - exists parsedFile. split; [exact Hp|]. split; [exact Hcount|].
    rewrite Himages. reflexivity.
Defined.

(** A text or markdown file from the upload to the request: the extracted
    text is the text of the file, unchanged; the parsed file keeps the
    declared media type as it was given and has no page, row or column
    count; the request is the instruction followed, when the text is not
    empty, by one block that holds the text unchanged; no image is
    attached. *)
Theorem process_text_request (env : Environment) (file : File)
    (type : SupportedFileType)
    (numberToString : JsNumber -> list N)
    (inheritedProperty : list N -> option (list N))
    (orderedKeys : DataRow -> list (list N))
    (additionalInstructions : option (list N)) :
  detectFileType (env_toLowerCase env) file = Return type ->
  type = Text \/ type = Markdown ->
  exists parsedFile instruction,
    process env file = Return parsedFile
    /\ text (extractedContent parsedFile) = Some (file_text file)
    /\ mimeType parsedFile = file_type file
    /\ (pageCount (metadata parsedFile), rowCount (metadata parsedFile),
        columnCount (metadata parsedFile)) = (None, None, None)
    /\ (file_text file = [] ->
        buildContentParts numberToString inheritedProperty orderedKeys parsedFile
          additionalInstructions
        = [TextPart instruction])
    /\ (file_text file <> [] ->
        exists before after,
          buildContentParts numberToString inheritedProperty orderedKeys parsedFile
            additionalInstructions
          = [TextPart instruction; TextPart (before ++ file_text file ++ after)]).
Proof.
  intros Hd Ht.
  assert (Hc : extractContent env file type = processText file)
    by (by destruct Ht as [-> | ->]).
  eexists. eexists. split; [exact (process_with_type env file type _ Hd Hc)|].
  split; [reflexivity|]. split; [reflexivity|]. split; [reflexivity|].
  unfold buildContentParts.
  cbn [extractedContent text pages data frames rawBase64 truthy andb].
  split.
  - intros ->. cbn [truthy]. reflexivity.
  - intros Hne. destruct (file_text file) as [|c s] eqn:Htext; [done|].
    cbn [truthy default from_option Datatypes.id].
    exists ([10%N] ++ rule40 ++ [10%N]
            ++ js "PRIMARY SOURCE CONTENT (USE THIS DATA ONLY)" ++ [10%N]
            ++ js "File: " ++ file_name file ++ [10%N] ++ rule40 ++ [10%N]),
           ([10%N] ++ rule40 ++ [10%N] ++ js "END OF PRIMARY SOURCE" ++ [10%N]
            ++ rule40 ++ [10%N]).
    cbn [metadata extractMetadata fileName]. rewrite <- !app_assoc. reflexivity.
Qed.

Lemma process_text_request_witness :
  exists parsedFile,
    process plainEnvironment (sampleFile (js "Notes.MD") [] (js "# Pitch"))
    = Return parsedFile
    /\ parsed_type parsedFile = Markdown
    /\ text (extractedContent parsedFile) = Some (js "# Pitch").
Proof.
  destruct (process_text_request plainEnvironment
              (sampleFile (js "Notes.MD") [] (js "# Pitch")) Markdown
              (fun _ => []) (fun _ => None) (fun _ => []) None)
    as (parsedFile & instruction & Hp & Ht & _).
  - reflexivity.
  - right. reflexivity.
  - exists parsedFile. split; [exact Hp|]. split; [|exact Ht].
    vm_compute in Hp. injection Hp as <-. reflexivity.
Defined.

(** ** The application: refining *)

Lemma handleRefine_cases (toLowerCase : list N -> list N)
    (fileToBase64 : File -> Completion (option (list N)))
    (refineCall : Completion GenerateContentResponse) (now : Z)
    (instruction : list N) (referenceImage : option File) (state : AppState)
    (active : Creation) :
  activeCreation state = Some active ->
  let unchanged :=
    {| activeCreation := activeCreation state;
       isGenerating := isGenerating state;
       isRefining := false;
       history := history state;
       pendingFile := pendingFile state;
       selectedOutputType := selectedOutputType state;
       showOutputSelector := showOutputSelector state;
       processingFile := processingFile state;
       isAutoSelecting := isAutoSelecting state |} in
  handleRefine toLowerCase fileToBase64 refineCall now instruction referenceImage state
  = unchanged
  \/ exists response c markup,
       refineCall = Return response
       /\ cleanResponse (orElse (response_text response) (html active)) = c :: markup
       /\ let updated :=
            {| creation_id := creation_id active;
               creation_name := creation_name active;
               html := c :: markup;
               originalImage := originalImage active;
               creation_outputType := creation_outputType active;
               sourceFileType := sourceFileType active;
               creation_metadata := creation_metadata active;
               creation_timestamp := Some now |} in
          handleRefine toLowerCase fileToBase64 refineCall now instruction
            referenceImage state
          = {| activeCreation := Some updated;
               isGenerating := isGenerating state;
               isRefining := false;
               history :=
                 List.map (fun item =>
                             if strEqb (creation_id item) (creation_id active)
                             then updated else item) (history state);
               pendingFile := pendingFile state;
               selectedOutputType := selectedOutputType state;
               showOutputSelector := showOutputSelector state;
               processingFile := processingFile state;
               isAutoSelecting := isAutoSelecting state |}.
Proof.
  intros Hactive unchanged. subst unchanged. unfold handleRefine. rewrite Hactive.
  set (prepared := match referenceImage with
                   | Some image =>
                       bind (fileToBase64 image) (fun base64 =>
                         Return (base64, Some (toLowerCase (file_type image))))
                   | None => Return (None, None)
                   end).
  clearbody prepared.
  destruct prepared as [[refImageBase64 refMimeType]|e]; cbn [bind tryCatch];
    [|left; reflexivity].
  unfold refineApp. destruct refineCall as [response|e]; cbn [bind tryCatch];
    [|left; reflexivity].
  destruct (cleanResponse (orElse (response_text response) (html active)))
    as [|c markup] eqn:Hclean; cbn [bind tryCatch]; [left; reflexivity|].
  right. exists response, c, markup. split; [done|]. split; [done|]. reflexivity.
Qed.

(** A refinement that fails leaves the creation on display and the history
    as they were: when the model call throws, when reading the reference
    image throws, or when the cleaned answer is empty, only [isRefining]
    is reset. *)
Theorem handleRefine_failure (toLowerCase : list N -> list N)
    (fileToBase64 : File -> Completion (option (list N)))
    (refineCall : Completion GenerateContentResponse) (now : Z)
    (instruction : list N) (referenceImage : option File) (state : AppState) :
  (exists e, refineCall = Throw e)
  \/ (exists image e, referenceImage = Some image /\ fileToBase64 image = Throw e)
  \/ (exists response active,
        refineCall = Return response /\ activeCreation state = Some active
        /\ cleanResponse (orElse (response_text response) (html active)) = []) ->
  let after :=
    handleRefine toLowerCase fileToBase64 refineCall now instruction referenceImage
      state in
  activeCreation after = activeCreation state
  /\ history after = history state
  /\ pendingFile after = pendingFile state
  /\ isRefining after
     = match activeCreation state with
       | Some _ => false
       | None => isRefining state
       end.
Proof.
  intros Hfail after. subst after.
  destruct (activeCreation state) as [active|] eqn:Hactive;
    [|unfold handleRefine; by rewrite Hactive].
  destruct (handleRefine_cases toLowerCase fileToBase64 refineCall now instruction
              referenceImage state active Hactive)
    as [->|(response & c & markup & Hcall & Hclean & Hr)];
    [cbn [activeCreation history pendingFile isRefining]; by rewrite Hactive|].
  destruct Hfail as [[e He]|[(image & e & Himg & He)|(r & a & Hr' & Ha & Hc)]].
  - congruence.
  - unfold handleRefine. rewrite Hactive, Himg, He. cbn. by rewrite ?Hactive.
  - rewrite Hcall in Hr'. injection Hr' as <-. congruence.
Qed.

Lemma handleRefine_failure_witness :
  history (handleRefine asciiToLowerCase (fun _ => Return None)
             (Throw (Error (js "quota exceeded"))) 2000%Z (js "add a timer") None
             sampleState)
  = [sampleCreation]
  /\ activeCreation (handleRefine asciiToLowerCase (fun _ => Return None)
                       (Return (responseWith (js "``` ```"))) 2000%Z
                       (js "add a timer") None sampleState)
     = Some sampleCreation.
Proof.
  split.
  - apply (handleRefine_failure asciiToLowerCase (fun _ => Return None)
             (Throw (Error (js "quota exceeded"))) 2000%Z (js "add a timer") None
             sampleState).
    left. by eexists.
  - apply (handleRefine_failure asciiToLowerCase (fun _ => Return None)
             (Return (responseWith (js "``` ```"))) 2000%Z (js "add a timer") None
             sampleState).
    right. right. exists (responseWith (js "``` ```")), sampleCreation.
    split; [reflexivity|]. split; reflexivity.
Defined.

(** A refinement changes the history in place and by identifier only: the
    identifiers of the history, their order and their number stay as they
    were, the creation on display keeps its identifier, an entry with
    another identifier is untouched, and an entry that changes becomes the
    creation now on display.  When the call answers markup that is not
    empty once cleaned, this markup is the one on display afterwards. *)
Theorem handleRefine_in_place (toLowerCase : list N -> list N)
    (fileToBase64 : File -> Completion (option (list N)))
    (refineCall : Completion GenerateContentResponse) (now : Z)
    (instruction : list N) (referenceImage : option File) (state : AppState) :
  let after :=
    handleRefine toLowerCase fileToBase64 refineCall now instruction referenceImage
      state in
  List.map creation_id (history after) = List.map creation_id (history state)
  /\ creation_id <$> activeCreation after = creation_id <$> activeCreation state
  /\ (forall i old,
        history state !! i = Some old ->
        history after !! i = Some old
        \/ (exists shown, activeCreation after = Some shown
                          /\ history after !! i = Some shown
                          /\ creation_id shown = creation_id old))
  /\ (forall i old active,
        history state !! i = Some old -> activeCreation state = Some active ->
        creation_id old <> creation_id active -> history after !! i = Some old)
  /\ (forall active response c markup,
        activeCreation state = Some active ->
        refineCall = Return response ->
        referenceImage = None ->
        cleanResponse (orElse (response_text response) (html active)) = c :: markup ->
        html <$> activeCreation after = Some (c :: markup)).
Proof.
  intros after. subst after.
  destruct (activeCreation state) as [active|] eqn:Hactive; cycle 1.
  { unfold handleRefine. rewrite Hactive. rewrite Hactive.
    repeat split; try done. intros i old Hi. by left. }
  assert (Hsuccess : forall a response c markup,
             Some active = Some a ->
             refineCall = Return response ->
             referenceImage = None ->
             cleanResponse (orElse (response_text response) (html a)) = c :: markup ->
             html <$> activeCreation
                        (handleRefine toLowerCase fileToBase64 refineCall now
                           instruction referenceImage state)
             = Some (c :: markup)).
  { intros a response c markup [= <-] -> -> Hclean.
    unfold handleRefine, refineApp. rewrite Hactive. cbn [bind tryCatch].
    rewrite Hclean. reflexivity. }
  destruct (handleRefine_cases toLowerCase fileToBase64 refineCall now instruction
              referenceImage state active Hactive)
    as [Hr|(response & c & markup & Hcall & Hclean & Hr)];
    rewrite Hr in Hsuccess |- *; clear Hr;
    cbn [activeCreation history] in Hsuccess |- *.
  - rewrite Hactive in Hsuccess |- *. split; [done|]. split; [done|]. split; [by left|].
    split; [done | exact Hsuccess].
  - set (updated := {| creation_id := creation_id active;
                       creation_name := creation_name active;
                       html := c :: markup;
                       originalImage := originalImage active;
                       creation_outputType := creation_outputType active;
                       sourceFileType := sourceFileType active;
                       creation_metadata := creation_metadata active;
                       creation_timestamp := Some now |}).
    assert (Hlookup : forall i old,
               history state !! i = Some old ->
               List.map (fun item => if strEqb (creation_id item) (creation_id active)
                                     then updated else item) (history state) !! i
               = Some (if strEqb (creation_id old) (creation_id active)
                       then updated else old)).
    { intros i old Hi.
      change (List.map ?f (history state)) with (f <$> history state).
      by rewrite list_lookup_fmap, Hi. }
    split; [|split; [done|split; [|split; [|exact Hsuccess]]]].
    + rewrite map_map. apply map_ext. intros item.
      destruct (strEqb (creation_id item) (creation_id active)) eqn:Heq; [|done].
      by apply strEqb_eq in Heq.
    + intros i old Hi. rewrite (Hlookup i old Hi).
      destruct (strEqb (creation_id old) (creation_id active)) eqn:Heq; [|by left].
      right. exists updated. apply strEqb_eq in Heq. by rewrite Heq.
    + intros i old a Hi [= <-] Hne. rewrite (Hlookup i old Hi).
      destruct (strEqb (creation_id old) (creation_id active)) eqn:Heq; [|done].
      by apply strEqb_eq in Heq.
Qed.

Lemma handleRefine_in_place_witness :
  html <$> activeCreation
             (handleRefine asciiToLowerCase (fun _ => Return None)
                (Return (responseWith (js "```html" ++ [10%N] ++ js "<p>v2</p>"
                                       ++ [10%N] ++ js "```")))
                2000%Z (js "add a timer") None sampleState)
  = Some (js "<p>v2</p>").
Proof.
  apply (proj2 (proj2 (proj2 (proj2
           (handleRefine_in_place asciiToLowerCase (fun _ => Return None)
              (Return (responseWith (js "```html" ++ [10%N] ++ js "<p>v2</p>"
                                     ++ [10%N] ++ js "```")))
              2000%Z (js "add a timer") None sampleState))))
           sampleCreation
           (responseWith (js "```html" ++ [10%N] ++ js "<p>v2</p>" ++ [10%N] ++ js "```")));
    reflexivity.
Defined.

(** ** The application: generating *)

Lemma outputTypeOfId_outputTypeId (o : OutputType) :
  outputTypeOfId (outputTypeId o) = Some o.
Proof. by destruct o. Qed.

(** Auto-selection always returns the identifier of a concrete type. *)
Lemma autoSelectOutputType_concrete (toLowerCase : list N -> list N)
    (call : Completion GenerateContentResponse) (parsedFile : ParsedFile) :
  exists o, In o concreteOutputTypes
            /\ autoSelectOutputType toLowerCase call parsedFile
               = Return (outputTypeId o)
            /\ (forall e, call = Throw e ->
                  o = getDefaultOutputType (parsed_type parsedFile)).
Proof.
  pose proof (getDefaultOutputType_concrete (parsed_type parsedFile)) as Hd.
  destruct call as [response|e].
  - rewrite autoSelectOutputType_Return.
    destruct (arrayIncludes validTypes _) eqn:Hv.
    + apply validTypes_includes in Hv as (o & Ho & ->). by exists o.
    + by exists (getDefaultOutputType (parsed_type parsedFile)).
  - rewrite autoSelectOutputType_Throw.
    by exists (getDefaultOutputType (parsed_type parsedFile)).
Qed.

Lemma generateTraining_cases (call : Completion GenerateContentResponse)
    (parsedFile : ParsedFile) (outputType : OutputType) :
  generateTraining call parsedFile outputType None
  = match call with
    | Return response =>
        Return (cleanResponse (orElse (response_text response) failedPlaceholder))
    | Throw e => Throw e
    end.
Proof. by destruct call. Qed.

(** The output type that a confirmed generation ends with. *)
Lemma handleConfirmGeneration_final (toLowerCase : list N -> list N)
    (autoSelectCall generateCall : Completion GenerateContentResponse)
    (randomUUID : list N) (now : Z) (state : AppState)
    (pending : ParsedFile) (selected : OutputType) :
  pendingFile state = Some pending ->
  selectedOutputType state = Some selected ->
  exists final,
    (selected <> Auto -> final = selected)
    /\ (selected = Auto -> In final concreteOutputTypes
        /\ autoSelectOutputType toLowerCase autoSelectCall pending
           = Return (outputTypeId final))
    /\ handleConfirmGeneration toLowerCase autoSelectCall generateCall
         randomUUID now state
       = let created :=
           match generateTraining generateCall pending final None with
           | Return (c :: markup) =>
               Some {| creation_id := randomUUID;
                       creation_name := fileName (metadata pending);
                       html := c :: markup;
                       originalImage := previewImage pending;
                       creation_outputType := Some (outputTypeId final);
                       sourceFileType := Some (parsed_type pending);
                       creation_metadata := Some (metadata pending);
                       creation_timestamp := Some now |}
           | _ => None
           end in
         {| activeCreation := created;
            isGenerating := false;
            isRefining := isRefining state;
            history := match created with
                       | Some newCreation => newCreation :: history state
                       | None => history state
                       end;
            pendingFile := None;
            selectedOutputType := None;
            showOutputSelector := false;
            processingFile := processingFile state;
            isAutoSelecting :=
              if bool_decide (selected = Auto) then false
              else isAutoSelecting state |}.
Proof.
  intros Hp Hs. unfold handleConfirmGeneration. rewrite Hp, Hs.
  destruct (decide (selected = Auto)) as [->|Hne].
  - destruct (autoSelectOutputType_concrete toLowerCase autoSelectCall pending)
      as (o & Ho & Hauto & _).
    exists o. split; [done|]. split; [done|].
    rewrite bool_decide_eq_true_2 by done. rewrite Hauto.
    by rewrite outputTypeOfId_outputTypeId.
  - exists selected. split; [done|]. split; [done|].
    rewrite bool_decide_eq_false_2 by done.
    by rewrite outputTypeOfId_outputTypeId.
Qed.

(** Confirming a generation.  Without a pending file or without a selected
    type nothing changes.  Otherwise the pending file and the selection are
    cleared and the component is no longer generating; a creation is made
    exactly when the call of the model returns a response whose text, or the
    placeholder in its place, is not empty once cleaned.  That creation is
    shown and put in front of the history, which is otherwise unchanged; it
    carries the fresh identifier, the cleaned markup, the name and the type
    of the file, and the identifier of a concrete output type: the selected
    one, or the one that auto-selection returns.  Without a creation nothing
    is shown and the history is unchanged. *)
Theorem handleConfirmGeneration_outcome (toLowerCase : list N -> list N)
    (autoSelectCall generateCall : Completion GenerateContentResponse)
    (randomUUID : list N) (now : Z) (state : AppState) :
  let after := handleConfirmGeneration toLowerCase autoSelectCall generateCall
                 randomUUID now state in
  (pendingFile state = None \/ selectedOutputType state = None -> after = state)
  /\ (forall pending selected,
        pendingFile state = Some pending ->
        selectedOutputType state = Some selected ->
        pendingFile after = None /\ selectedOutputType after = None
        /\ isGenerating after = false /\ showOutputSelector after = false
        /\ (is_Some (activeCreation after) <->
            exists response c markup,
              generateCall = Return response
              /\ cleanResponse (orElse (response_text response) failedPlaceholder)
                 = c :: markup)
        /\ (activeCreation after = None -> history after = history state)
        /\ (forall created, activeCreation after = Some created ->
              history after = created :: history state
              /\ creation_id created = randomUUID
              /\ creation_timestamp created = Some now
              /\ creation_name created = fileName (metadata pending)
              /\ sourceFileType created = Some (parsed_type pending)
              /\ originalImage created = previewImage pending
              /\ (exists response,
                    generateCall = Return response
                    /\ html created
                       = cleanResponse (orElse (response_text response)
                                          failedPlaceholder))
              /\ (exists final,
                    creation_outputType created = Some (outputTypeId final)
                    /\ final <> Auto
                    /\ (selected <> Auto -> final = selected)
                    /\ (selected = Auto ->
                        autoSelectOutputType toLowerCase autoSelectCall pending
                        = Return (outputTypeId final))))).
Proof.
  intros after. split.
  - subst after. unfold handleConfirmGeneration.
    intros [H|H]; rewrite H; [done|]. by destruct (pendingFile state).
  - intros pending selected Hp Hs.
    destruct (handleConfirmGeneration_final toLowerCase autoSelectCall generateCall
                randomUUID now state pending selected Hp Hs)
      as (final & Hsel & Hauto & Heq).
    subst after. rewrite Heq. clear Heq. rewrite generateTraining_cases.
    cbn zeta. generalize failedPlaceholder. intros placeholder.
    destruct generateCall as [response|e].
    + destruct (cleanResponse (orElse (response_text response) placeholder))
        as [|c markup] eqn:Hclean; cbn.
      * split_and!; try done. split; [by intros [? ?]|].
        intros (r & c & m & Hr & Hc). simplify_eq/=. congruence.
      * split_and!; try done.
        -- split; [|by eexists].
           intros _. exists response, c, markup. by rewrite Hclean.
        -- intros created [= <-]. cbn. split_and!; try done.
           ++ exists response. by rewrite Hclean.
           ++ exists final. split; [done|].
              split; [|split; [done | intros Ha; by apply Hauto]].
              destruct (decide (selected = Auto)) as [Ha|Hna].
              ** apply concreteOutputTypes_not_auto. by apply Hauto.
              ** by rewrite (Hsel Hna).
    + cbn. split_and!; try done. split; [by intros [? ?]|].
      by intros (r & c & m & Hr & Hc).
Qed.

Lemma handleConfirmGeneration_outcome_witness :
  pendingFile
    (handleConfirmGeneration asciiToLowerCase (Return quotedResponse)
       (Return responseWithoutText) (js "c-2") 2000%Z (pendingState Csv Auto))
  = None
  /\ is_Some
       (activeCreation
          (handleConfirmGeneration asciiToLowerCase (Return quotedResponse)
             (Return responseWithoutText) (js "c-2") 2000%Z
             (pendingState Csv Auto))).
Proof.
  destruct (proj2 (handleConfirmGeneration_outcome asciiToLowerCase
                     (Return quotedResponse) (Return responseWithoutText)
                     (js "c-2") 2000%Z (pendingState Csv Auto))
              (sampleParsedFile Csv) Auto eq_refl eq_refl)
    as (Hpending & _ & _ & _ & Hmade & _).
  split; [exact Hpending|].
  apply (proj2 Hmade). exists responseWithoutText.
  destruct failedPlaceholder as [|c markup] eqn:Hplaceholder; [discriminate|].
  exists c, markup. split; [reflexivity|].
  rewrite <- Hplaceholder. exact cleanResponse_failedPlaceholder.
Defined.

(** The fallback of the component for a failed auto-selection is never
    used: when the call of the selection throws, the output type of the
    creation is the default of the file type, for a table the commission
    game and not the flashcards. *)
Theorem handleConfirmGeneration_selection_failed (toLowerCase : list N -> list N)
    (e : JsError) (generateCall : Completion GenerateContentResponse)
    (randomUUID : list N) (now : Z) (state : AppState)
    (pending : ParsedFile) (created : Creation) :
  pendingFile state = Some pending ->
  selectedOutputType state = Some Auto ->
  activeCreation (handleConfirmGeneration toLowerCase (Throw e) generateCall
                    randomUUID now state) = Some created ->
  creation_outputType created
  = Some (outputTypeId (getDefaultOutputType (parsed_type pending))).
Proof.
  intros Hp Hs. unfold handleConfirmGeneration. rewrite Hp, Hs.
  rewrite bool_decide_eq_true_2 by done.
  rewrite autoSelectOutputType_Throw, outputTypeOfId_outputTypeId.
  rewrite generateTraining_cases.
  destruct generateCall as [response|e']; [|done].
  destruct (cleanResponse _); [done|]. cbn. by intros [= <-].
Qed.

Lemma handleConfirmGeneration_selection_failed_witness :
  exists created,
    activeCreation
      (handleConfirmGeneration asciiToLowerCase (Throw (Error (js "network down")))
         (Return (responseWith (js "<p>quiz</p>"))) (js "c-2") 2000%Z
         (pendingState Csv Auto)) = Some created
    /\ creation_outputType created = Some (js "commission-tycoon").
Proof.
  eexists. split; [reflexivity|].
  exact (handleConfirmGeneration_selection_failed asciiToLowerCase
           (Error (js "network down")) (Return (responseWith (js "<p>quiz</p>")))
           (js "c-2") 2000%Z (pendingState Csv Auto) (sampleParsedFile Csv) _
           eq_refl eq_refl eq_refl).
Defined.


(** ** An image from the upload to its preview *)

Lemma split_without (sep : N) (s : list N) :
  sep ∉ s -> split sep s = [s].
Proof.
  induction s as [|c s IH]; [done|].
  intros Hs. apply not_elem_of_cons in Hs as [Hc Hs]. simpl.
  unfold codeUnitEqb. destruct (N.eqb_spec c sep) as [->|_]; [done|].
  by rewrite (IH Hs).
Qed.

Lemma afterFirstComma_app (before after : list N) :
  44%N ∉ before -> 44%N ∉ after ->
  afterFirstComma (before ++ [44%N] ++ after) = Some after.
Proof.
  intros Hb Ha. unfold afterFirstComma.
  by rewrite split_app, (split_without _ _ Hb), (split_without _ _ Ha).
Qed.

(** An image whose reader answers the data URL of the file, made of the
    declared media type and of a payload (neither holds a comma): the
    processing keeps the payload, the request carries it under the declared
    media type, and the preview of the creation is the data URL again.
    With an empty payload there is no image in the request and no
    preview. *)
Theorem process_image_preview (env : Environment) (file : File)
    (payload : list N)
    (numberToString : JsNumber -> list N)
    (inheritedProperty : list N -> option (list N))
    (orderedKeys : DataRow -> list (list N))
    (additionalInstructions : option (list N)) :
  detectFileType (env_toLowerCase env) file = Return Image ->
  env_readAsDataURL env file
  = ReaderLoaded (Some (js "data:" ++ file_type file ++ js ";base64," ++ payload)) ->
  44%N ∉ file_type file ->
  44%N ∉ payload ->
  exists parsedFile,
    process env file = Return parsedFile
    /\ rawBase64 (extractedContent parsedFile) = Some payload
    /\ inlineImages (buildContentParts numberToString inheritedProperty orderedKeys
                       parsedFile additionalInstructions)
       = match payload with
         | [] => []
         | _ => [(payload, file_type file)]
         end
    /\ previewImage parsedFile
       = match payload with
         | [] => None
         | _ => Some (js "data:" ++ file_type file ++ js ";base64," ++ payload)
         end.
Proof.
  intros Hd Hread Hmime Hpayload.
  assert (Hc : extractContent env file Image
               = Return {| text := None; pages := None; data := None;
                           frames := None; rawBase64 := Some payload |}).
  { cbn [extractContent]. unfold processImage. rewrite Hread. do 2 f_equal.
    change (js ";base64,") with (js ";base64" ++ [44%N]).
    replace (js "data:" ++ file_type file ++ (js ";base64" ++ [44%N]) ++ payload)
      with ((js "data:" ++ file_type file ++ js ";base64") ++ [44%N] ++ payload)
      by (by rewrite <- !app_assoc).
    apply afterFirstComma_app; [|done].
    rewrite !not_elem_of_app. split; [|split; [done|]];
      apply (bool_decide_unpack _); by vm_compute. }
  eexists. split; [exact (process_with_type env file Image _ Hd Hc)|].
  split; [reflexivity|]. split.
  - rewrite inlineImages_buildContentParts.
    cbn [extractedContent pages frames rawBase64 parsed_type mimeType].
    by destruct payload.
  - unfold previewImage.
    cbn [extractedContent pages frames rawBase64 parsed_type mimeType].
    by destruct payload.
Qed.

Lemma process_image_preview_witness :
  exists parsedFile,
    process (sampleEnvironment (js "data:image/png;base64,iVBORw0KGgo=")
               (samplePdf 1) [] (sampleVideo (inject_Z 1)))
      (sampleFile (js "roof.png") (js "image/png") []) = Return parsedFile
    /\ previewImage parsedFile = Some (js "data:image/png;base64,iVBORw0KGgo=").
Proof.
  destruct (process_image_preview
              (sampleEnvironment (js "data:image/png;base64,iVBORw0KGgo=")
                 (samplePdf 1) [] (sampleVideo (inject_Z 1)))
              (sampleFile (js "roof.png") (js "image/png") [])
              (js "iVBORw0KGgo=") (fun _ => []) (fun _ => None) (fun _ => []) None)
    as (parsedFile & Hp & _ & _ & Hpreview).
  - reflexivity.
  - reflexivity.
  - apply (bool_decide_unpack _). by vm_compute.
  - apply (bool_decide_unpack _). by vm_compute.
  - exists parsedFile. split; [exact Hp | exact Hpreview].
Defined.

(** ** The rows of the summary *)

Lemma NoDup_lookup_last {A : Type} (l : list A) (k : nat) (x : A) :
  NoDup l -> l !! k = Some x -> forall j, k < j -> l !! j <> Some x.
Proof.
  intros Hnd Hk j Hj Hx.
  pose proof (NoDup_lookup l k j x Hnd Hk Hx). lia.
Qed.

Lemma map_cells_imap (value : list N -> list N) (shown : nat -> list N)
    (headers : list (list N)) (offset : nat) :
  (forall k header, headers !! k = Some header -> value header = shown (offset + k)) ->
  List.map (fun h => h ++ [61%N; 34%N] ++ value h ++ [34%N]) headers
  = imap (fun k header => header ++ [61%N; 34%N] ++ shown (offset + k) ++ [34%N])
      headers.
Proof.
  revert offset. induction headers as [|header headers IH]; intros offset Hrow;
    [done|].
  cbn [List.map imap]. f_equal.
  - by rewrite (Hrow 0 header eq_refl).
  - rewrite (IH (S offset)).
    + apply imap_ext. intros k h _. cbn. by rewrite Nat.add_succ_r.
    + intros k h Hk. rewrite (Hrow (S k) h Hk). cbn. by rewrite Nat.add_succ_r.
Qed.

(** In the summary of a CSV file whose header names are distinct and are
    not [__proto__], a row shows under each header the field at the position
    of this header, a missing field counting as the empty one: the number
    that its numeric prefix denotes when it has one, the field itself
    otherwise. *)
Theorem rowLine_fillRow (numberToString : JsNumber -> list N)
    (inheritedProperty : list N -> option (list N))
    (headers values : list (list N)) (i : nat) :
  NoDup headers ->
  protoKey ∉ headers ->
  rowLine (cellText numberToString inheritedProperty) headers i
    (fillRow headers 0 values ∅)
  = js "Row " ++ natToString (i + 1) ++ js ": "
    ++ join (js ", ")
         (imap (fun k header =>
                  header ++ [61%N; 34%N]
                  ++ match coerceCell (orElse (values !! k) []) with
                     | CellString s => s
                     | CellNumber n => numberToString n
                     end
                  ++ [34%N]) headers)
    ++ [10%N].
Proof.
  intros Hnd Hproto. unfold rowLine. do 3 f_equal. f_equal. f_equal.
  assert (Hcells : forall k header, headers !! k = Some header ->
            cellText numberToString inheritedProperty (fillRow headers 0 values ∅)
              header
            = match coerceCell (orElse (values !! k) []) with
              | CellString s => s
              | CellNumber n => numberToString n
              end).
  { intros k header Hk. unfold cellText.
    rewrite (fillRow_lookup_last headers 0 values ∅ k header Hk).
    - done.
    - intros ->. apply Hproto. by eapply list_elem_of_lookup_2.
    - by apply NoDup_lookup_last. }
  exact (map_cells_imap
           (cellText numberToString inheritedProperty (fillRow headers 0 values ∅))
           (fun k => match coerceCell (orElse (values !! k) []) with
                     | CellString s => s
                     | CellNumber n => numberToString n
                     end)
           headers 0 Hcells).
Qed.

Lemma rowLine_fillRow_witness :
  rowLine (cellText (fun _ => js "7") (fun _ => None))
    [js "name"; js "signups"; js "note"] 0
    (fillRow [js "name"; js "signups"; js "note"] 0 [js "Ann"; js "7 new"] ∅)
  = js "Row 1: name=" ++ [34%N] ++ js "Ann" ++ [34%N]
    ++ js ", signups=" ++ [34%N] ++ js "7" ++ [34%N]
    ++ js ", note=" ++ [34%N; 34%N; 10%N].
Proof.
  rewrite rowLine_fillRow.
  - reflexivity.
  - apply (bool_decide_unpack _). by vm_compute.
  - apply (bool_decide_unpack _). by vm_compute.
Defined.

(** ** The application: the history *)

Lemma handleGenerate_history (env : Environment) (file : option File)
    (state : AppState) :
  history (handleGenerate env file state) = history state
  /\ activeCreation (handleGenerate env file state) = activeCreation state.
Proof.
  unfold handleGenerate. destruct file as [uploaded|]; [|done].
  by destruct (process env uploaded).
Qed.

Lemma handleConfirmGeneration_history (toLowerCase : list N -> list N)
    (autoSelectCall generateCall : Completion GenerateContentResponse)
    (randomUUID : list N) (now : Z) (state : AppState) :
  let after := handleConfirmGeneration toLowerCase autoSelectCall generateCall
                 randomUUID now state in
  (history after = history state
   /\ (activeCreation after = None \/ activeCreation after = activeCreation state))
  \/ exists created,
       creation_id created = randomUUID
       /\ activeCreation after = Some created
       /\ history after = created :: history state.
Proof.
  cbn zeta. unfold handleConfirmGeneration.
  destruct (pendingFile state) as [pending|]; [|left; by split; [|right]].
  destruct (selectedOutputType state) as [selected|]; [|left; by split; [|right]].
  cbn zeta.
  match goal with
  | |- context [match ?g with Return _ => _ | Throw _ => _ end] =>
      destruct g as [[|c markup]|?]
  end; cbn [history activeCreation].
  - left. split; [done | by left].
  - right. eexists. split; [|split; reflexivity]. reflexivity.
  - left. split; [done | by left].
Qed.

Lemma handleRefine_history (toLowerCase : list N -> list N)
    (fileToBase64 : File -> Completion (option (list N)))
    (refineCall : Completion GenerateContentResponse) (now : Z)
    (instruction : list N) (referenceImage : option File) (state : AppState) :
  let after := handleRefine toLowerCase fileToBase64 refineCall now instruction
                 referenceImage state in
  identifiers after = identifiers state
  /\ creation_id <$> activeCreation after = creation_id <$> activeCreation state.
Proof.
  cbn zeta. destruct (activeCreation state) as [active|] eqn:Hactive.
  - destruct (handleRefine_cases toLowerCase fileToBase64 refineCall now instruction
                referenceImage state active Hactive)
      as [-> | (response & c & markup & _ & _ & ->)].
    + split; [reflexivity|]. cbn [activeCreation]. by rewrite Hactive.
    + split; [|done]. unfold identifiers. cbn [history].
      rewrite List.map_map. apply map_ext_in. intros item _.
      destruct (strEqb (creation_id item) (creation_id active)) eqn:Heq; [|done].
      apply strEqb_eq in Heq. by rewrite Heq.
  - unfold handleRefine. rewrite Hactive. split; [reflexivity|]. by rewrite Hactive.
Qed.

Lemma handleImportFile_history (parse : list N -> Completion Creation)
    (importedDate : JsDate) (randomUUID : list N) (file : option File)
    (state : AppState) :
  let after := handleImportFile parse importedDate randomUUID file state in
  after = state
  \/ exists imported,
       activeCreation after = Some imported
       /\ (((creation_id imported ∈ identifiers state)
            /\ history after = history state)
           \/ ((creation_id imported ∉ identifiers state)
               /\ history after = imported :: history state)).
Proof.
  cbn zeta. unfold handleImportFile.
  destruct file as [imported|]; [|by left].
  destruct (parse (file_text imported)) as [parsed|e]; [|by left].
  destruct (truthy (Some (html parsed)) && truthy (Some (creation_name parsed)));
    [|by left].
  right. eexists. split; [reflexivity|]. cbn [activeCreation history creation_id].
  match goal with
  | |- context [existsb ?f ?l] => destruct (existsb f l) eqn:Hexists
  end.
  - left. split; [|done].
    apply existsb_exists in Hexists as (c & Hc & Heq).
    apply strEqb_eq in Heq. cbn [creation_id] in Heq. rewrite <- Heq.
    unfold identifiers. apply list_elem_of_In, in_map. done.
  - right. split; [|done].
    intros Hin. unfold identifiers in Hin.
    apply list_elem_of_In, in_map_iff in Hin as (c & Heq & Hc).
    assert (Htrue : existsb (fun c0 => strEqb (creation_id c0)
                       (match creation_id parsed with
                        | [] => randomUUID
                        | c1 :: s => c1 :: s
                        end)) (history state) = true).
    { apply existsb_exists. exists c. split; [done|]. by apply strEqb_eq. }
    cbn [creation_id] in Hexists. congruence.
Qed.

(** What a transition keeps: the identifiers of the history stay distinct, the
    creation that is shown stays listed, and no identifier leaves the
    history. *)
Lemma appStep_keeps (state next : AppState) :
  appStep state next ->
  (NoDup (identifiers state) -> NoDup (identifiers next))
  /\ (shownIsListed state -> shownIsListed next)
  /\ (forall identifier, identifier ∈ identifiers state ->
                         identifier ∈ identifiers next).
Proof.
  unfold shownIsListed.
  destruct 1 as [env file state | outputType state | state
                | toLowerCase autoSelectCall generateCall randomUUID now state Hfresh
                | toLowerCase fileToBase64 refineCall now instruction referenceImage state
                | state | creation state Hin
                | parse importedDate randomUUID file state ].
  - destruct (handleGenerate_history env file state) as [Hh Ha].
    unfold identifiers. by rewrite Hh, Ha.
  - done.
  - done.
  - destruct (handleConfirmGeneration_history toLowerCase autoSelectCall
                generateCall randomUUID now state)
      as [[Hh Ha] | (created & Hid & Ha & Hh)]; unfold identifiers; rewrite Hh.
    + split; [done|]. split; [|done].
      intros Hlisted shown Hshown. destruct Ha as [Ha|Ha]; rewrite Ha in Hshown;
        [done | by apply Hlisted].
    + cbn [List.map]. rewrite Hid. split; [|split].
      * intros Hnd. by apply NoDup_cons.
      * intros _ shown Hshown. rewrite Ha in Hshown. injection Hshown as <-.
        rewrite Hid. by left.
      * intros identifier Hi. by right.
  - destruct (handleRefine_history toLowerCase fileToBase64 refineCall now
                instruction referenceImage state) as [Hids Ha].
    cbn zeta in Hids, Ha. rewrite Hids. split; [done|]. split; [|done].
    intros Hlisted shown Hshown. rewrite Hshown in Ha.
    destruct (activeCreation state) as [active|]; [|done].
    injection Ha as Ha. rewrite Ha. by apply Hlisted.
  - done.
  - split; [done|]. split; [|done].
    intros _ shown [= <-]. unfold identifiers. cbn [history handleSelectCreation].
    by apply list_elem_of_In, in_map, list_elem_of_In.
  - destruct (handleImportFile_history parse importedDate randomUUID file state)
      as [-> | (imported & Ha & [[Hin Hh] | [Hout Hh]])]; [done| |].
    + unfold identifiers at 2 4 6. rewrite Hh. fold (identifiers state).
      split; [done|]. split; [|done].
      intros _ shown Hshown. rewrite Ha in Hshown. by injection Hshown as <-.
    + unfold identifiers at 2 4 6. rewrite Hh. cbn [List.map].
      fold (identifiers state). split; [|split].
      * intros Hnd. by apply NoDup_cons.
      * intros _ shown Hshown. rewrite Ha in Hshown. injection Hshown as <-.
        by left.
      * intros identifier Hi. by right.
Qed.

(** From the mounting of the component on, with a loaded history whose
    identifiers are distinct, whatever handlers run: the identifiers of the
    history stay distinct, the creation that is shown goes by an identifier
    of the history, and every identifier that was loaded is still there. *)
Theorem reachable_history (loadedHistory : list Creation) (state : AppState) :
  NoDup (List.map creation_id loadedHistory) ->
  reachable (mounted loadedHistory) state ->
  NoDup (identifiers state)
  /\ shownIsListed state
  /\ (forall identifier, identifier ∈ List.map creation_id loadedHistory ->
                         identifier ∈ identifiers state).
Proof.
  intros Hloaded. induction 1 as [|state next _ (Hnd & Hlisted & Hkept) Hstep].
  - split; [done|]. split; [|done]. by intros shown.
  - destruct (appStep_keeps state next Hstep) as (H1 & H2 & H3).
    split; [by apply H1|]. split; [by apply H2|].
    intros identifier Hi. by apply H3, Hkept.
Qed.

Lemma reachable_history_witness :
  identifiers
    (handleRefine asciiToLowerCase (fun _ => Return None)
       (Return (responseWith (js "<p>game 2</p>"))) 3000%Z (js "add a timer") None
       (handleImportFile (fun _ => Return (sampleArtifact [])) None (js "c-9")
          (Some (sampleFile (js "game.json") (js "application/json") []))
          (mounted [sampleCreation])))
  = [js "c-9"; js "c-1"]
  /\ NoDup (identifiers
              (handleRefine asciiToLowerCase (fun _ => Return None)
                 (Return (responseWith (js "<p>game 2</p>"))) 3000%Z
                 (js "add a timer") None
                 (handleImportFile (fun _ => Return (sampleArtifact [])) None
                    (js "c-9")
                    (Some (sampleFile (js "game.json") (js "application/json") []))
                    (mounted [sampleCreation])))).
Proof.
  split; [reflexivity|].
  apply (reachable_history [sampleCreation]).
  - apply (bool_decide_unpack _). by vm_compute.
  - eapply ReachedStep; [eapply ReachedStep; [apply ReachedInitial|]|].
    + apply StepImportFile.
    + apply StepRefine.
Defined.

(** ** The preview *)

Lemma replaceNonAlphanumeric_ascii (name : list N) :
  Forall (fun c => (c < 128)%N) (replaceNonAlphanumeric name).
Proof.
  unfold replaceNonAlphanumeric. apply Forall_forall. intros c Hc.
  apply list_elem_of_In, in_map_iff in Hc as (d & <- & _).
  unfold isAlphanumeric.
  repeat match goal with
         | |- context [(?a <=? ?b)%N] => destruct (N.leb_spec a b)
         end; cbn; lia.
Qed.

(** The name of an exported artifact, for a case mapping that is the ASCII
    one on ASCII strings: the name of the creation, code unit by code unit,
    where a lower-case ASCII letter or a digit is kept, an upper-case ASCII
    letter is put in lower case and any other code unit becomes an
    underscore, followed by [_artifact.json].  So the part before the suffix
    has the length of the name and holds letters [a] to [z], digits and
    underscores only: neither a dot nor a path separator. *)
Theorem exportFileName_safe (toLowerCase : list N -> list N)
    (creation : Creation) :
  (forall s, Forall (fun c => (c < 128)%N) s -> toLowerCase s = List.map asciiLower s) ->
  exists stem,
    exportFileName toLowerCase creation = stem ++ js "_artifact.json"
    /\ length stem = length (creation_name creation)
    /\ Forall (fun c => (97 <= c <= 122)%N \/ (48 <= c <= 57)%N \/ c = 95%N) stem
    /\ (forall i c, creation_name creation !! i = Some c ->
          stem !! i
          = Some (if (((97 <=? c) && (c <=? 122)) || ((48 <=? c) && (c <=? 57)))%N
                  then c
                  else if ((65 <=? c) && (c <=? 90))%N then (c + 32)%N
                  else 95%N)).
Proof.
  intros Hascii. unfold exportFileName.
  rewrite (Hascii _ (replaceNonAlphanumeric_ascii _)).
  eexists. split; [reflexivity|]. unfold replaceNonAlphanumeric.
  split; [by rewrite !List.length_map|]. split.
  - apply Forall_forall. intros c Hc.
    apply list_elem_of_In, in_map_iff in Hc as (d & <- & Hd).
    apply in_map_iff in Hd as (e & <- & _).
    destruct (isAlphanumeric e) eqn:He; unfold isAlphanumeric in He;
      [rewrite !orb_true_iff, !andb_true_iff, !N.leb_le in He
      |rewrite !orb_false_iff, !andb_false_iff, !N.leb_gt in He];
      unfold asciiLower;
      repeat match goal with
             | |- context [(?a <=? ?b)%N] => destruct (N.leb_spec a b)
             end; cbn; lia.
  - intros i c Hi.
    change (List.map asciiLower (List.map ?f ?l)) with (asciiLower <$> (f <$> l)).
    rewrite !list_lookup_fmap, Hi. cbn [fmap option_fmap option_map]. f_equal.
    destruct (isAlphanumeric c) eqn:He; unfold isAlphanumeric in He;
      [rewrite !orb_true_iff, !andb_true_iff, !N.leb_le in He
      |rewrite !orb_false_iff, !andb_false_iff, !N.leb_gt in He];
      unfold asciiLower;
      repeat match goal with
             | |- context [(?a <=? ?b)%N] => destruct (N.leb_spec a b)
             end; cbn; try reflexivity; lia.
Qed.

Lemma exportFileName_safe_witness :
  exportFileName asciiToLowerCase sampleCreation = js "pitch_txt_artifact.json"
  /\ exists stem,
       exportFileName asciiToLowerCase sampleCreation = stem ++ js "_artifact.json"
       /\ length stem = 9.
Proof.
  split; [reflexivity|].
  destruct (exportFileName_safe asciiToLowerCase sampleCreation (fun s _ => eq_refl))
    as (stem & Hname & Hlength & _).
  exists stem. split; [exact Hname | exact Hlength].
Defined.

(** A refinement is asked for only when none is running and the form holds
    an instruction that is not blank, or an image; the instruction that is
    sent is trimmed and is never empty: it is the text of the form, or the
    stock instruction when the text is blank, and then an image goes with
    it.  The form is emptied by the call, and left alone without one. *)
Theorem handleRefineSubmit_instruction (isRefining : bool) (form : RefinementForm) :
  match handleRefineSubmit isRefining form with
  | (Some (instruction, image), after) =>
      isRefining = false
      /\ instruction <> []
      /\ trim instruction = instruction
      /\ image = refinementImage form
      /\ (instruction = trim (refinementInput form)
          \/ (instruction = defaultInstruction
              /\ allWhiteSpace (refinementInput form) = true
              /\ is_Some image))
      /\ after = {| refinementInput := []; refinementImage := None;
                    refinementImagePreview := None |}
  | (None, after) =>
      after = form
      /\ (isRefining = true
          \/ (allWhiteSpace (refinementInput form) = true
              /\ refinementImage form = None))
  end.
Proof.
  unfold handleRefineSubmit.
  assert (Hblank : forall s, trim s = [] <-> allWhiteSpace s = true).
  { intros s. split.
    - intros Ht. unfold trim in Ht.
      destruct (trimStart_split s) as (w & Hs & Hw).
      destruct (trimEnd_split (trimStart s)) as (w' & Hs' & Hw').
      rewrite Ht in Hs'. simpl in Hs'. rewrite Hs, Hs'.
      unfold allWhiteSpace in *. rewrite forallb_app. by rewrite Hw, Hw'.
    - intros Hs. unfold trim.
      assert (Hstart : trimStart s = []).
      { induction s as [|c s IH]; [done|]. simpl in *.
        apply andb_true_iff in Hs as [Hc Hs]. rewrite Hc. by apply IH. }
      by rewrite Hstart. }
  destruct isRefining.
  - rewrite orb_true_r. split; [done | by left].
  - rewrite orb_false_r.
    destruct (trim (refinementInput form)) as [|c s] eqn:Htrim.
    + cbn [truthy negb andb orElse].
      apply Hblank in Htrim.
      destruct (refinementImage form) as [image|] eqn:Himage.
      * rewrite bool_decide_eq_true_2 by (by eexists). cbn [negb].
        split_and!; try done. right. split_and!; try done; by eexists.
      * rewrite bool_decide_eq_false_2 by (by intros [? ?]). cbn [negb].
        split; [done|]. by right.
    + cbn [truthy negb andb orElse]. split_and!; try done.
      * rewrite <- Htrim. apply trim_idem.
      * by left.
Qed.

(** ** The achievement engine: conditions *)

Lemma Qle_bool_spec (a b : Q) :
  (Qle_bool a b = true /\ (a <= b)%Q) \/ (Qle_bool a b = false /\ (b < a)%Q).
Proof.
  destruct (Qle_bool a b) eqn:H.
  - left. split; [done|]. by apply Qle_bool_iff.
  - right. split; [done|]. apply Qnot_le_lt. intros Hle.
    apply Qle_bool_iff in Hle. congruence.
Qed.

Lemma Qeq_bool_spec (a b : Q) :
  (Qeq_bool a b = true /\ (a == b)%Q) \/ (Qeq_bool a b = false /\ ~ (a == b)%Q).
Proof.
  destruct (Qeq_bool a b) eqn:H.
  - left. split; [done|]. by apply Qeq_bool_iff.
  - right. split; [done|]. by apply Qeq_bool_neq.
Qed.

Ltac compare_numbers :=
  unfold Qlt_bool;
  repeat match goal with
         | |- context [Qle_bool ?a ?b] =>
             destruct (Qle_bool_spec a b) as [[-> ?]|[-> ?]]
         | |- context [Qeq_bool ?a ?b] =>
             destruct (Qeq_bool_spec a b) as [[-> ?]|[-> ?]]
         end;
  cbn [negb andb orb].

(** Clamping into the interval from 0 to 1 gives a number of the interval,
    or NaN, and this only from NaN. *)
Lemma clamp_range (x : EngineNumber) :
  match mathMax (Finite 0) (mathMin (Finite 1) x) with
  | Finite p => (0 <= p <= 1)%Q
  | Infinite _ => False
  | NotANumber => x = NotANumber
  end.
Proof.
  destruct x as [q|[|]|]; cbn [mathMin mathMax]; [|by vm_compute..| done].
  destruct (Qle_bool_spec 1 q) as [[-> ?]|[-> ?]]; cbn [mathMax].
  - by vm_compute.
  - destruct (Qle_bool_spec 0 q) as [[-> ?]|[-> ?]]; lra.
Qed.

Lemma clamp_one (x : EngineNumber) :
  isNumber x 1 -> isNumber (mathMax (Finite 0) (mathMin (Finite 1) x)) 1.
Proof.
  destruct x as [q|[|]|]; cbn [isNumber mathMin mathMax]; try done.
  intros Hq.
  destruct (Qle_bool_spec 1 q) as [[-> ?]|[-> ?]]; cbn [mathMax]; [|lra].
  by vm_compute.
Qed.

Lemma divide_NotANumber (a b : Q) :
  divide a b = NotANumber <-> (a == 0 /\ b == 0)%Q.
Proof.
  unfold divide. compare_numbers; split; try done; intros [? ?]; lra.
Qed.

Lemma mathMin_one_NotANumber (x : EngineNumber) :
  mathMin x (Finite 1) = NotANumber <-> x = NotANumber.
Proof.
  destruct x as [q|[|]|]; cbn [mathMin]; try done.
  by destruct (Qle_bool q 1).
Qed.

Lemma mathMax_remainder_NotANumber (x : EngineNumber) :
  mathMax (Finite 0) (subtract (Finite 1) x) = NotANumber <-> x = NotANumber.
Proof.
  destruct x as [q|[|]|]; cbn [mathMax subtract negb]; try done.
  by destruct (Qle_bool 0 (1 - q)).
Qed.

Lemma clamp_NotANumber (x : EngineNumber) :
  mathMax (Finite 0) (mathMin (Finite 1) x) = NotANumber <-> x = NotANumber.
Proof.
  pose proof (clamp_range x) as Hrange. split.
  - intros H. by rewrite H in Hrange.
  - by intros ->.
Qed.

(** The progress that a condition reports lies between 0 and 1, or is NaN;
    it is NaN exactly when the value and the threshold are both zero and the
    operator is one of [greater_than], [greater_than_equal] and
    [less_than]. *)
Theorem evaluateCondition_progress (actualValue : Q)
    (condition : CustomAchievementCondition) :
  match progress (evaluateCondition actualValue condition) with
  | Finite p => (0 <= p <= 1)%Q
  | Infinite _ => False
  | NotANumber => True
  end
  /\ (progress (evaluateCondition actualValue condition) = NotANumber
      <-> (actualValue == 0)%Q /\ (condition_value condition == 0)%Q
          /\ (condition_operator condition = GreaterThan
              \/ condition_operator condition = GreaterThanEqual
              \/ condition_operator condition = LessThan)).
Proof.
  split.
  - unfold evaluateCondition.
    destruct (match condition_operator condition with
              | OtherOperator _ => _ | _ => _ end) as [outcome inner].
    cbn [progress]. pose proof (clamp_range inner) as Hrange.
    by destruct (mathMax (Finite 0) (mathMin (Finite 1) inner)).
  - destruct condition as [operator required second].
    destruct operator; [| | | | |destruct second as [second|]|];
      unfold evaluateCondition;
      cbn [condition_operator condition_value condition_secondValue progress];
      rewrite clamp_NotANumber.
    + rewrite mathMin_one_NotANumber, divide_NotANumber. intuition.
    + rewrite mathMin_one_NotANumber, divide_NotANumber. intuition.
    + unfold Qlt_bool.
      destruct (Qle_bool_spec required actualValue) as [[-> H]|[-> H]];
        cbn [negb].
      * rewrite mathMax_remainder_NotANumber, divide_NotANumber.
        split; [intros [H1 H2]; split_and!; [lra | lra | tauto]
               |intros (H1 & H2 & _); split; lra].
      * split; [discriminate | intros (H1 & H2 & _); lra].
    + destruct (Qle_bool_spec actualValue required) as [[-> H]|[-> H]].
      * split; [discriminate | intros (_ & _ & [?|[?|?]]); discriminate].
      * rewrite mathMax_remainder_NotANumber, divide_NotANumber.
        split; [intros [H1 H2]; lra | intros (_ & _ & [?|[?|?]]); discriminate].
    + destruct (Qeq_bool_spec actualValue required) as [[-> H]|[-> H]].
      * split; [discriminate | intros (_ & _ & [?|[?|?]]); discriminate].
      * rewrite mathMax_remainder_NotANumber, divide_NotANumber.
        split; [|intros (_ & _ & [?|[?|?]]); discriminate].
        intros [H1 H2]. exfalso. apply H. revert H1.
        apply Qabs_case; intros; lra.
    + unfold Qlt_bool.
      destruct (Qle_bool_spec required actualValue) as [[-> H]|[-> H]];
        destruct (Qle_bool_spec actualValue second) as [[-> H']|[-> H']];
        cbn [negb andb].
      * split; [discriminate | intros (_ & _ & [?|[?|?]]); discriminate].
      * rewrite mathMax_remainder_NotANumber, divide_NotANumber.
        split; [intros [H1 H2]; lra | intros (_ & _ & [?|[?|?]]); discriminate].
      * rewrite divide_NotANumber.
        split; [intros [H1 H2]; lra | intros (_ & _ & [?|[?|?]]); discriminate].
      * rewrite divide_NotANumber.
        split; [intros [H1 H2]; lra | intros (_ & _ & [?|[?|?]]); discriminate].
    + split; [discriminate | intros (_ & _ & [?|[?|?]]); discriminate].
    + split; [discriminate | intros (_ & _ & [?|[?|?]]); discriminate].
Qed.

Lemma divide_at_least_one (a b : Q) :
  (0 < b)%Q -> (b <= a)%Q ->
  isNumber (mathMin (divide a b) (Finite 1)) 1.
Proof.
  intros Hb Hab. unfold divide.
  destruct (Qeq_bool_spec b 0) as [[-> H]|[-> H]]; [lra|].
  cbn [mathMin].
  destruct (Qle_bool_spec (a / b) 1) as [[-> Hle]|[-> Hle]]; cbn [isNumber];
    [|reflexivity].
  apply Qle_antisym; [done|].
  apply Qle_shift_div_l; [done | lra].
Qed.

(** A condition that is met reports the progress 1, provided that its
    threshold is positive when the operator is [greater_than] or
    [greater_than_equal]. *)
Theorem evaluateCondition_met (actualValue : Q)
    (condition : CustomAchievementCondition) :
  met (evaluateCondition actualValue condition) = true ->
  (0 < condition_value condition)%Q
  \/ (condition_operator condition <> GreaterThan
      /\ condition_operator condition <> GreaterThanEqual) ->
  isNumber (progress (evaluateCondition actualValue condition)) 1.
Proof.
  destruct condition as [operator required second].
  destruct operator; [| | | | |destruct second as [second|]|];
    unfold evaluateCondition;
    cbn [condition_operator condition_value condition_secondValue progress met];
    intros Hmet Hpositive; try discriminate; apply clamp_one.
  - destruct Hpositive as [Hpositive|[? _]]; [|done].
    unfold Qlt_bool in Hmet.
    destruct (Qle_bool_spec actualValue required) as [[Hb H]|[Hb H]];
      rewrite Hb in Hmet; [done|].
    apply divide_at_least_one; lra.
  - destruct Hpositive as [Hpositive|[_ ?]]; [|done].
    apply Qle_bool_iff in Hmet. by apply divide_at_least_one.
  - rewrite Hmet. reflexivity.
  - rewrite Hmet. reflexivity.
  - rewrite Hmet. reflexivity.
  - rewrite Hmet. reflexivity.
Qed.

Lemma evaluateCondition_met_witness :
  isNumber
    (progress (evaluateCondition 12
                 {| condition_operator := GreaterThanEqual;
                    condition_value := 10;
                    condition_secondValue := None |})) 1.
Proof.
  apply evaluateCondition_met.
  - reflexivity.
  - left. reflexivity.
Defined.

(** The progress 1 does not tell that a condition is met, nor a condition
    that is met the progress 1: a value equal to the threshold of
    [greater_than], and a negative threshold. *)
Example evaluateCondition_edges :
  evaluateCondition 10
    {| condition_operator := GreaterThan; condition_value := 10;
       condition_secondValue := None |}
  = {| met := false; progress := Finite 1;
       result_actualValue := 10; result_requiredValue := 10 |}
  /\ evaluateCondition 3
       {| condition_operator := GreaterThan; condition_value := - 5;
          condition_secondValue := None |}
     = {| met := true; progress := Finite 0;
          result_actualValue := 3; result_requiredValue := - 5 |}
  /\ progress (evaluateCondition 0
                 {| condition_operator := GreaterThanEqual; condition_value := 0;
                    condition_secondValue := None |})
     = NotANumber.
Proof. by vm_compute. Qed.

(** ** The achievement engine: awards *)

Lemma hasAlreadyEarned_awardable (user : User) (achievement : Achievement) :
  existsb (fun ea => strEqb (achievement_id (earned ea)) (achievement_id achievement)
                     && negb (isRepeatable achievement))
    (user_achievements user)
  = negb (isRepeatable achievement
          || negb (bool_decide (achievement_id achievement ∈ earnedIdentifiers user))).
Proof.
  destruct (isRepeatable achievement); cbn [negb orb].
  - induction (user_achievements user) as [|ea l IH]; [done|].
    cbn [existsb]. by rewrite andb_false_r.
  - rewrite negb_involutive. unfold earnedIdentifiers.
    induction (user_achievements user) as [|ea l IH]; [done|].
    cbn [existsb List.map]. rewrite andb_true_r, IH.
    destruct (strEqb _ _) eqn:Heq.
    + apply strEqb_eq in Heq. rewrite Heq. cbn [orb].
      symmetry. apply bool_decide_eq_true_2. by left.
    + cbn [orb]. apply bool_decide_ext. rewrite elem_of_cons.
      split; [by right|]. intros [Hid|?]; [|done].
      symmetry in Hid. apply strEqb_eq in Hid. congruence.
Qed.

Lemma checkAchievementsFrom_filter (isoTime : nat -> list N) (user : User)
    (achievements : list Achievement) (newlyEarned : list EarnedAchievement) :
  checkAchievementsFrom isoTime user achievements newlyEarned
  = newlyEarned
    ++ imap (fun k achievement =>
               {| earned := achievement;
                  earnedDate := isoTime (length newlyEarned + k);
                  earned_userId := user_id user |})
         (List.filter (awardable user) achievements).
Proof.
  revert newlyEarned.
  induction achievements as [|achievement rest IH]; intros newlyEarned.
  - cbn. by rewrite app_nil_r.
  - cbn [checkAchievementsFrom List.filter].
    rewrite hasAlreadyEarned_awardable. fold (reaches user achievement).
    assert (Haward : awardable user achievement
                     = (isRepeatable achievement
                        || negb (bool_decide (achievement_id achievement
                                              ∈ earnedIdentifiers user)))
                       && reaches user achievement) by reflexivity.
    destruct (isRepeatable achievement
              || negb (bool_decide (achievement_id achievement
                                    ∈ earnedIdentifiers user)));
      cbn [negb andb] in Haward |- *; [|rewrite Haward; apply IH].
    destruct (reaches user achievement); rewrite Haward; [|apply IH].
    rewrite IH. cbn [imap]. rewrite <- app_assoc. cbn [app].
    rewrite Nat.add_0_r. do 2 f_equal.
    apply imap_ext. intros k a _. cbn. rewrite length_app. cbn.
    do 2 f_equal. lia.
Qed.

(** A check awards, in the order of the engine, exactly the achievements
    that are repeatable or not yet earned by the user and whose threshold
    the value of the user for their metric reaches; each award carries the
    identifier of the user and the time of its making.  So an achievement
    that is not repeatable is never awarded to a user who has it, one with
    a metric other than revenue, signups and streak is never awarded, and a
    repeatable one is awarded at every check that finds its threshold
    reached. *)
Theorem checkAchievements_awards (achievements : list Achievement)
    (isoTime : nat -> list N) (user : User) :
  let awards := checkAchievements achievements isoTime user in
  List.map earned awards = List.filter (awardable user) achievements
  /\ (forall k award, awards !! k = Some award ->
        earned_userId award = user_id user /\ earnedDate award = isoTime k)
  /\ (forall award, award ∈ awards ->
        award.(earned) ∈ achievements
        /\ (isRepeatable (earned award) = false ->
            achievement_id (earned award) ∉ earnedIdentifiers user)
        /\ (criteria_metric (earned award) = js "revenue"
            \/ criteria_metric (earned award) = js "signups"
            \/ criteria_metric (earned award) = js "streak"))
  /\ (forall achievement, achievement ∈ achievements ->
        isRepeatable achievement = true -> reaches user achievement = true ->
        achievement ∈ List.map earned awards).
Proof.
  cbn zeta. unfold checkAchievements. rewrite checkAchievementsFrom_filter.
  cbn [app length Nat.add].
  set (awarded := List.filter (awardable user) achievements).
  assert (Hmap : List.map earned
                   (imap (fun k achievement =>
                            {| earned := achievement; earnedDate := isoTime k;
                               earned_userId := user_id user |}) awarded)
                 = awarded).
  { generalize awarded. intros l. generalize isoTime. 
    induction l as [|a l IH]; intros time; [done|].
    cbn [imap List.map earned]. f_equal. apply (IH (time ∘ S)). }
  split; [done|]. split; [|split].
  - intros k award Hk. apply list_lookup_imap_Some in Hk as (a & _ & ->). done.
  - intros award Haward.
    assert (Hin : earned award ∈ awarded).
    { rewrite <- Hmap. apply list_elem_of_In, in_map. by apply list_elem_of_In. }
    apply list_elem_of_In, filter_In in Hin as [Hin Hok].
    apply list_elem_of_In in Hin. split; [done|].
    unfold awardable in Hok. apply andb_true_iff in Hok as [Hfresh Hreach].
    split.
    + intros Hrep. rewrite Hrep in Hfresh. cbn [orb] in Hfresh.
      apply negb_true_iff, bool_decide_eq_false in Hfresh. done.
    + unfold reaches in Hreach.
      repeat match type of Hreach with
             | (if strEqb ?a ?b then _ else _) = true =>
                 let Hm := fresh "Hm" in
                 destruct (strEqb a b) eqn:Hm;
                 [apply strEqb_eq in Hm; tauto|]
             end.
      discriminate.
  - intros achievement Hin Hrep Hreach. rewrite Hmap.
    apply list_elem_of_In, filter_In. split; [by apply list_elem_of_In|].
    unfold awardable. by rewrite Hrep, Hreach.
Qed.

Lemma checkAchievements_awards_witness :
  sampleAchievement (js "streak-3") (js "streak") true 3
  ∈ List.map earned
      (checkAchievements
         [ sampleAchievement (js "first-sale") (js "signups") false 1;
           sampleAchievement (js "big-deal") (js "revenue") false 100000;
           sampleAchievement (js "streak-3") (js "streak") true 3 ]
         (fun _ => js "2025-01-01T00:00:00.000Z")
         (sampleUser
            [ {| earned := sampleAchievement (js "first-sale") (js "signups") false 1;
                 earnedDate := js "2024-06-01T00:00:00.000Z";
                 earned_userId := js "u-1" |};
              {| earned := sampleAchievement (js "streak-3") (js "streak") true 3;
                 earnedDate := js "2024-07-01T00:00:00.000Z";
                 earned_userId := js "u-1" |} ])).
Proof.
  apply (proj2 (proj2 (proj2 (checkAchievements_awards _ _ _)))).
  - rewrite !elem_of_cons. right. right. by left.
  - reflexivity.
  - reflexivity.
Defined.

Example checkAchievements_example :
  List.map (fun award => achievement_id (earned award))
    (checkAchievements
       [ sampleAchievement (js "first-sale") (js "signups") false 1;
         sampleAchievement (js "big-deal") (js "revenue") false 100000;
         sampleAchievement (js "team") (js "team_rank") true 0;
         sampleAchievement (js "streak-3") (js "streak") true 3 ]
       (fun _ => js "2025-01-01T00:00:00.000Z")
       (sampleUser
          [ {| earned := sampleAchievement (js "first-sale") (js "signups") false 1;
               earnedDate := js "2024-06-01T00:00:00.000Z";
               earned_userId := js "u-1" |};
            {| earned := sampleAchievement (js "streak-3") (js "streak") true 3;
               earnedDate := js "2024-07-01T00:00:00.000Z";
               earned_userId := js "u-1" |} ]))
  = [js "streak-3"].
Proof. reflexivity. Qed.
